(** * Multi-threaded AES-CTR keystream engine (cipher-ctr-mt.c)

    A shallow embedding of the counter arithmetic, the keystream queue ring,
    the producer threads, the consumer ([ssh_aes_ctr]) and the life cycle
    ([ssh_aes_ctr_init], [ssh_aes_ctr_cleanup]) of the parallel AES-CTR
    cipher, together with the properties its design document states. *)

From Stdlib Require Import ZArith Lia List Bool.
From Stdlib Require Import Strings.Byte.
From stdpp Require Import base option list gmap.

Local Open Scope Z_scope.

(** ** Machine integers *)

Module CInt.

(** Unsigned w-bit wrap-around. *)
Definition wrapu (w : Z) (z : Z) : Z := z mod 2 ^ w.

(** Conversion to a signed w-bit integer (two's complement). *)
Definition wraps (w : Z) (z : Z) : Z := (z + 2 ^ (w - 1)) mod 2 ^ w - 2 ^ (w - 1).

Definition uint8 := wrapu 8.
Definition uint16 := wrapu 16.
Definition uint32 := wrapu 32.
Definition size_t := wrapu 64.
Definition int := wraps 32.

Definition INT_MAX : Z := 2 ^ 31 - 1.

End CInt.

(** ** Bytes ([u_char]) *)

Abbreviation u_char := byte.

#[global] Instance u_char_inhabited : Inhabited byte := populate x00.

Definition Z_of_uchar (b : u_char) : Z := Z.of_N (Byte.to_N b).

(** Conversion of an integer to [u_char] keeps the low eight bits. *)
Definition uchar_of_Z (z : Z) : u_char :=
  default x00 (Byte.of_N (Z.to_N (z mod 256))).

(** ** Byte arrays read as big-endian unsigned integers *)

(** MSB at index 0, LSB at the last index (network byte order). *)
Definition be_value (l : list u_char) : Z :=
  fold_left (fun acc b => acc * 256 + Z_of_uchar b) l 0.

(** The [n]-byte big-endian representation of [z mod 256^n]. *)
Fixpoint be_bytes (n : nat) (z : Z) : list u_char :=
  match n with
  | O => []
  | S n' => be_bytes n' (z / 256) ++ [uchar_of_Z z]
  end.

(** ** Counter arithmetic *)

(** [ssh_ctr_inc]: the loop [for (i = len - 1; i >= 0; i--) if (++ctr[i]) return;]
    with [k = i + 1] iterations still allowed. *)
Fixpoint ssh_ctr_inc_from (k : nat) (ctr : list u_char) : list u_char :=
  match k with
  | O => ctr
  | S i =>
      let v := CInt.uint8 (Z_of_uchar (ctr !!! i) + 1) in
      let ctr' := <[i := uchar_of_Z v]> ctr in
      if v =? 0 then ssh_ctr_inc_from i ctr' else ctr'
  end.

(** [len] is a [size_t]; the index [i] is an [int] initialised to [len - 1]. *)
Definition ssh_ctr_inc (ctr : list u_char) (len : Z) : list u_char :=
  let i := CInt.int (CInt.size_t (len - 1)) in
  ssh_ctr_inc_from (Z.to_nat (i + 1)) ctr.

(** [ssh_ctr_add]: the loop
    [for (n = 0, i = len - 1; i >= 0 && (num || n); i--)] with [uint32_t num],
    [uint16_t n]. *)
Fixpoint ssh_ctr_add_from (k : nat) (ctr : list u_char) (num n : Z) : list u_char :=
  match k with
  | O => ctr
  | S i =>
      if (num =? 0) && (n =? 0) then ctr
      else
        let n1 := CInt.uint16 (Z_of_uchar (ctr !!! i) + Z.land num 255 + n) in
        let num' := Z.shiftr num 8 in
        let ctr' := <[i := uchar_of_Z (Z.land n1 255)]> ctr in
        ssh_ctr_add_from i ctr' num' (Z.shiftr n1 8)
  end.

(** [len] is a [u_int]; [num] is converted to [uint32_t] at the call. *)
Definition ssh_ctr_add (ctr : list u_char) (num : Z) (len : Z) : list u_char :=
  let i := CInt.int (CInt.uint32 (len - 1)) in
  ssh_ctr_add_from (Z.to_nat (i + 1)) ctr (CInt.uint32 num) 0.

(** A counter one byte longer than the [int] index of the two loops can
    address from its last byte: [2^31 + 1] zero bytes. *)
Definition long_len : Z := 2 ^ 31 + 1.
Definition long_counter : list u_char := replicate (Z.to_nat long_len) x00.

(** ** Tunables and constants of cipher-ctr-mt.c *)

Definition AES_BLOCK_SIZE : Z := 16.
Definition MAX_THREADS : Z := 6.
Definition MAX_NUMKQ : Z := MAX_THREADS * 4.
Definition KQLEN : Z := 8192.

Definition HAVE_NONE : Z := 0.
Definition HAVE_KEY : Z := 1.
Definition HAVE_IV : Z := 2.

(** Keystream queue states (an anonymous C enum, stored in an [int]). *)
Definition KQINIT : Z := 0.
Definition KQEMPTY : Z := 1.
Definition KQFILLING : Z := 2.
Definition KQFULL : Z := 3.
Definition KQDRAINING : Z := 4.

(** [sizeof(AES_KEY)]: 60 round-key words and the round count. *)
Definition sizeof_AES_KEY : Z := 244.

(** ** Data model *)

(** [struct kq]: the padding, the mutex and the condition variable are not
    data; the mutex discipline is rendered by the atomicity of the steps of
    the thread semantics below. *)
Record kq := Kq {
  q_keys : list (list u_char);   (* u_char keys[KQLEN][AES_BLOCK_SIZE] *)
  q_ctr : list u_char;           (* u_char ctr[AES_BLOCK_SIZE] *)
  q_qstate : Z                   (* int qstate *)
}.

#[global] Instance kq_inhabited : Inhabited kq := populate (Kq [] [] 0).

Definition set_q_keys (f : list (list u_char) -> list (list u_char)) (x : kq) : kq :=
  Kq (f (q_keys x)) (q_ctr x) (q_qstate x).
Definition set_q_ctr (f : list u_char -> list u_char) (x : kq) : kq :=
  Kq (q_keys x) (f (q_ctr x)) (q_qstate x).
Definition set_q_qstate (v : Z) (x : kq) : kq :=
  Kq (q_keys x) (q_ctr x) v.

(** [struct ssh_aes_ctr_ctx_mt].  Pointers are addresses, [0] is [NULL]. *)
Record ssh_aes_ctr_ctx_mt := Ctx {
  c_struct_id : Z;
  c_keylen : Z;
  c_state : Z;
  c_qidx : Z;
  c_ridx : Z;
  c_id : list Z;                 (* int id[MAX_THREADS] *)
  c_aes_key : list u_char;       (* AES_KEY aes_key, as its bytes *)
  c_orig_key : Z;                (* const u_char *orig_key *)
  c_aes_counter : list u_char;   (* u_char aes_counter[AES_BLOCK_SIZE] *)
  c_tid : list Z;                (* pthread_t tid[MAX_THREADS] *)
  c_q : list kq                  (* struct kq q[MAX_NUMKQ] *)
}.

Definition set_c_struct_id (v : Z) (c : ssh_aes_ctr_ctx_mt) :=
  Ctx v (c_keylen c) (c_state c) (c_qidx c) (c_ridx c) (c_id c) (c_aes_key c)
      (c_orig_key c) (c_aes_counter c) (c_tid c) (c_q c).
Definition set_c_keylen (v : Z) (c : ssh_aes_ctr_ctx_mt) :=
  Ctx (c_struct_id c) v (c_state c) (c_qidx c) (c_ridx c) (c_id c) (c_aes_key c)
      (c_orig_key c) (c_aes_counter c) (c_tid c) (c_q c).
Definition set_c_state (v : Z) (c : ssh_aes_ctr_ctx_mt) :=
  Ctx (c_struct_id c) (c_keylen c) v (c_qidx c) (c_ridx c) (c_id c) (c_aes_key c)
      (c_orig_key c) (c_aes_counter c) (c_tid c) (c_q c).
Definition set_c_qidx (v : Z) (c : ssh_aes_ctr_ctx_mt) :=
  Ctx (c_struct_id c) (c_keylen c) (c_state c) v (c_ridx c) (c_id c) (c_aes_key c)
      (c_orig_key c) (c_aes_counter c) (c_tid c) (c_q c).
Definition set_c_ridx (v : Z) (c : ssh_aes_ctr_ctx_mt) :=
  Ctx (c_struct_id c) (c_keylen c) (c_state c) (c_qidx c) v (c_id c) (c_aes_key c)
      (c_orig_key c) (c_aes_counter c) (c_tid c) (c_q c).
Definition set_c_id (f : list Z -> list Z) (c : ssh_aes_ctr_ctx_mt) :=
  Ctx (c_struct_id c) (c_keylen c) (c_state c) (c_qidx c) (c_ridx c) (f (c_id c))
      (c_aes_key c) (c_orig_key c) (c_aes_counter c) (c_tid c) (c_q c).
Definition set_c_aes_key (v : list u_char) (c : ssh_aes_ctr_ctx_mt) :=
  Ctx (c_struct_id c) (c_keylen c) (c_state c) (c_qidx c) (c_ridx c) (c_id c) v
      (c_orig_key c) (c_aes_counter c) (c_tid c) (c_q c).
Definition set_c_orig_key (v : Z) (c : ssh_aes_ctr_ctx_mt) :=
  Ctx (c_struct_id c) (c_keylen c) (c_state c) (c_qidx c) (c_ridx c) (c_id c)
      (c_aes_key c) v (c_aes_counter c) (c_tid c) (c_q c).
Definition set_c_aes_counter (v : list u_char) (c : ssh_aes_ctr_ctx_mt) :=
  Ctx (c_struct_id c) (c_keylen c) (c_state c) (c_qidx c) (c_ridx c) (c_id c)
      (c_aes_key c) (c_orig_key c) v (c_tid c) (c_q c).
Definition set_c_tid (f : list Z -> list Z) (c : ssh_aes_ctr_ctx_mt) :=
  Ctx (c_struct_id c) (c_keylen c) (c_state c) (c_qidx c) (c_ridx c) (c_id c)
      (c_aes_key c) (c_orig_key c) (c_aes_counter c) (f (c_tid c)) (c_q c).
Definition set_c_q (f : list kq -> list kq) (c : ssh_aes_ctr_ctx_mt) :=
  Ctx (c_struct_id c) (c_keylen c) (c_state c) (c_qidx c) (c_ridx c) (c_id c)
      (c_aes_key c) (c_orig_key c) (c_aes_counter c) (c_tid c) (f (c_q c)).

(** Array access [a[i]] and array store [a[i] = v] with a C integer index. *)
Definition at_ {A} `{Inhabited A} (a : list A) (i : Z) : A := a !!! Z.to_nat i.
Definition upd {A} (a : list A) (i : Z) (f : A -> A) : list A :=
  alter f (Z.to_nat i) a.

(** [memcpy(dst, src, n)] into a byte array: the first [n] bytes of [dst]
    are replaced by the first [n] bytes of [src]. *)
Definition memcpy (dst src : list u_char) (n : Z) : list u_char :=
  take (Z.to_nat n) src ++ drop (Z.to_nat n) dst.

Definition zero_bytes (n : Z) : list u_char := replicate (Z.to_nat n) x00.

Definition uchar_xor (a b : u_char) : u_char :=
  uchar_of_Z (Z.lxor (Z_of_uchar a) (Z_of_uchar b)).

(** Byte-wise exclusive or of two byte strings. *)
Definition xor_bytes (a b : list u_char) : list u_char := zip_with uchar_xor a b.

(** Split of a byte string into 16-byte blocks: block [i]. *)
Definition block_at (l : list u_char) (i : nat) : list u_char :=
  take 16 (drop (16 * i) l).

(** A stand-in block cipher for the worked examples: the block XOR the
    first bytes of the key. *)
Definition xor_cipher (key block : list u_char) : list u_char :=
  xor_bytes block key.

(** ** The block cipher and the serial reference *)

(** Modelled from the spec: the private cipher handle of a worker (the
    [EVP_CIPHER_CTX] of the external library in CTR mode, which is not part
    of this repository).  The handle holds the key and a fixed-width
    big-endian counter that wraps silently; encrypting one block XORs the
    input with the encryption of the counter and advances the counter by
    one, so that encrypting zero bytes yields the keystream. *)
Record EVP_CIPHER_CTX := Evp {
  evp_key : list u_char;
  evp_ivec : list u_char
}.

Definition ctr128_inc (ivec : list u_char) : list u_char :=
  be_bytes 16 (be_value ivec + 1).

Section Cipher.

(** The single-block primitive of the external library:
    [AES_encrypt key block], the key being 16, 24 or 32 bytes. *)
Variable AES_encrypt : list u_char -> list u_char -> list u_char.

Definition EVP_CIPHER_CTX_new : EVP_CIPHER_CTX := Evp [] [].

(** [EVP_EncryptInit_ex(ctx, EVP_aes_<bits>_ctr(), NULL, key, NULL)]:
    the cipher reads [bits / 8] key bytes. *)
Definition EVP_EncryptInit_key (e : EVP_CIPHER_CTX) (bits : Z)
    (key : list u_char) : EVP_CIPHER_CTX :=
  Evp (take (Z.to_nat (bits / 8)) key) (evp_ivec e).

(** [EVP_EncryptInit_ex(ctx, NULL, NULL, NULL, iv)]. *)
Definition EVP_EncryptInit_iv (e : EVP_CIPHER_CTX) (iv : list u_char)
    : EVP_CIPHER_CTX :=
  Evp (evp_key e) (take 16 iv).

(** [EVP_EncryptUpdate(ctx, out, &outlen, in, AES_BLOCK_SIZE)]. *)
Definition EVP_EncryptUpdate (e : EVP_CIPHER_CTX) (inp : list u_char)
    : list u_char * EVP_CIPHER_CTX :=
  (xor_bytes inp (AES_encrypt (evp_key e) (evp_ivec e)),
   Evp (evp_key e) (ctr128_inc (evp_ivec e))).

(** The serial reference, in the words of the design document: block [i]
    of the keystream is [AES_encrypt(key, IV + i)], the IV being read as
    a 16-byte big-endian counter; the output is the input XOR the
    keystream, block by block. *)
Definition ctr_keystream_block (key iv : list u_char) (i : Z) : list u_char :=
  AES_encrypt key (be_bytes 16 (be_value iv + i)).

Definition ctr_reference (key iv src : list u_char) : list u_char :=
  concat (map (fun i => xor_bytes (block_at src i)
                          (ctr_keystream_block key iv (Z.of_nat i)))
              (seq 0 (length src / 16))).

(** The 16 bytes of keystream block number [i] counted from the counter
    value [v], as a queue slot holds them. *)
Definition ks (key : list u_char) (v : Z) (i : Z) : list u_char :=
  take 16 (AES_encrypt key (be_bytes 16 (v + i))).

(** ** One fill pass of a producer (thread_loop) *)

Definition mynull : list u_char := zero_bytes AES_BLOCK_SIZE.

(** Body of [for (i = 0; i < KQLEN; i++)]: one keystream block into
    [q->keys[i]], then [ssh_ctr_inc(q->ctr, AES_BLOCK_SIZE)]. *)
Definition fill_slot (st : EVP_CIPHER_CTX * kq) (i : nat) : EVP_CIPHER_CTX * kq :=
  let '(out, e') := EVP_EncryptUpdate st.1 mynull in
  (e', set_q_ctr (fun c => ssh_ctr_inc c AES_BLOCK_SIZE)
         (set_q_keys (<[i := out]>) st.2)).

(** Set the handle's counter to [q->ctr], fill the [KQLEN] slots, then
    [ssh_ctr_add(q->ctr, KQLEN * (numkq - 1), AES_BLOCK_SIZE)]. *)
Definition fill_kq (numkq : Z) (e : EVP_CIPHER_CTX) (x : kq) : EVP_CIPHER_CTX * kq :=
  let e0 := EVP_EncryptInit_iv e (q_ctr x) in
  let st := foldl fill_slot (e0, x) (seq 0 (Z.to_nat KQLEN)) in
  (st.1, set_q_ctr (fun c => ssh_ctr_add c (CInt.int (KQLEN * (numkq - 1)))
                               AES_BLOCK_SIZE) st.2).

(** Successive fill passes of one ring slot, each by some cipher handle. *)
Definition fills (nkq : Z) (es : list EVP_CIPHER_CTX) (x : kq) : kq :=
  foldl (fun y e => (fill_kq nkq e y).2) x es.

End Cipher.

(** ** Threads, memory and the process *)

(** Program points of a producer (thread_loop): before the cipher handle is
    built, at the head of the scanning loop, and between claiming a queue
    ([KQFILLING]) and publishing it ([KQFULL]). *)
Inductive ppc := PStart | PScan | PFill.

Record producer := Producer {
  p_c : Z;                    (* struct ssh_aes_ctr_ctx_mt *c = x *)
  p_pc : ppc;
  p_qidx : Z;                 (* int qidx *)
  p_evp : EVP_CIPHER_CTX      (* aesni_ctx *)
}.

(** Observable calls into the thread library and the allocator.  [EvFree]
    records what the released block held when it was released. *)
Inductive event :=
| EvCancel (t : Z)
| EvJoin (t : Z)
| EvCreate (t : Z)
| EvFree (a : Z) (content : ssh_aes_ctr_ctx_mt).

(** The process: the two tunable globals and the struct counter [X], the
    cipher context of the caller (its application data pointer and its key
    length in bytes), the allocated context structs, the caller's buffers,
    the live producer threads by thread id, the log of events, and the exit
    status once the process has exited. *)
Record world := World {
  cipher_threads : Z;
  numkq : Z;
  X_counter : Z;
  app_data : Z;
  key_length : Z;
  heap : gmap Z ssh_aes_ctr_ctx_mt;
  bufs : gmap Z (list u_char);
  threads : gmap Z producer;
  events : list event;
  exited : option Z
}.

Definition set_pool (t n : Z) (w : world) : world :=
  World t n (X_counter w) (app_data w) (key_length w) (heap w) (bufs w)
        (threads w) (events w) (exited w).
Definition set_X_counter (v : Z) (w : world) : world :=
  World (cipher_threads w) (numkq w) v (app_data w) (key_length w) (heap w)
        (bufs w) (threads w) (events w) (exited w).
Definition set_app_data (v : Z) (w : world) : world :=
  World (cipher_threads w) (numkq w) (X_counter w) v (key_length w) (heap w)
        (bufs w) (threads w) (events w) (exited w).
Definition set_heap (f : gmap Z ssh_aes_ctr_ctx_mt -> gmap Z ssh_aes_ctr_ctx_mt)
    (w : world) : world :=
  World (cipher_threads w) (numkq w) (X_counter w) (app_data w) (key_length w)
        (f (heap w)) (bufs w) (threads w) (events w) (exited w).
Definition set_threads (f : gmap Z producer -> gmap Z producer) (w : world) : world :=
  World (cipher_threads w) (numkq w) (X_counter w) (app_data w) (key_length w)
        (heap w) (bufs w) (f (threads w)) (events w) (exited w).
Definition log (es : list event) (w : world) : world :=
  World (cipher_threads w) (numkq w) (X_counter w) (app_data w) (key_length w)
        (heap w) (bufs w) (threads w) (events w ++ es) (exited w).
Definition set_exited (v : option Z) (w : world) : world :=
  World (cipher_threads w) (numkq w) (X_counter w) (app_data w) (key_length w)
        (heap w) (bufs w) (threads w) (events w) v.

(** The bytes a pointer into the caller's memory refers to. *)
Definition deref (w : world) (p : Z) : list u_char := default [] (bufs w !! p).

(** What the platform reports about its processors. *)
Inductive platform_cpus :=
| Linux (smt_active : option Z) (nproc : Z)   (* smt file content if readable *)
| Apple (physicalcpu : Z)
| FreeBSD (cores threads_per_core : Z)
| OtherOS.

(** The environment of one call of the init function: the processors, the
    address and the (uninitialised) content of a fresh allocation, and the
    outcome of each [pthread_create] (the new thread id, or a failure). *)
Record init_env := InitEnv {
  ie_cpus : platform_cpus;
  ie_malloc : Z;
  ie_uninit : ssh_aes_ctr_ctx_mt;
  ie_create : Z -> option Z
}.

(** A function of the life cycle either returns, with the process in a new
    state, or dereferences a pointer to memory that is not allocated. *)
Inductive outcome (A : Type) :=
| Ok (a : A) (w : world)
| Crash.
Arguments Ok {A} a w.
Arguments Crash {A}.

(** [ssh_aes_ctr_init] either returns at once or, having started the pool,
    waits for queue 0 to leave [KQINIT] before it returns. *)
Inductive init_status :=
| Returned (r : Z)
| Waiting.

#[global] Instance init_status_eq_dec : EqDecision init_status.
Proof. solve_decision. Defined.

(** ** Sizing policy *)

Definition detect_threads (cpus : platform_cpus) (cur : Z) : Z :=
  match cpus with
  | Linux smt nproc =>
      let status := default 0 smt in
      let divisor := if status =? 1 then 4 else 2 in
      Z.quot nproc divisor
  | Apple count => Z.quot count 2
  | FreeBSD cores tpc => Z.quot cores tpc
  | OtherOS => cur
  end.

Definition size_pool (cpus : platform_cpus) (w : world) : world :=
  let t := detect_threads cpus (cipher_threads w) in
  let t := if t <? 2 then 2 else t in
  let t := if t >? MAX_THREADS then MAX_THREADS else t in
  let n := t * 4 in
  let n := if n >? MAX_NUMKQ then MAX_NUMKQ else n in
  set_pool t n w.

(** ** Stopping the pool *)

(** The thread ids [c->tid[0 .. cipher_threads - 1]]. *)
Definition pool_tids (c : ssh_aes_ctr_ctx_mt) (w : world) : list Z :=
  map (fun i => at_ (c_tid c) i) (seqZ 0 (cipher_threads w)).

(** [pthread_kill(tid, 0) == 0] holds of a live thread; such a thread is
    joined, which ends it. *)
Definition join_thread (w : world) (t : Z) : world :=
  match threads w !! t with
  | Some _ => log [EvJoin t] (set_threads (delete t) w)
  | None => w
  end.

(** The threads of a list that are live, each at its first occurrence. *)
Fixpoint joined (m : gmap Z producer) (ts : list Z) : list Z :=
  match ts with
  | [] => []
  | t :: r =>
      match m !! t with
      | Some _ => t :: joined (delete t m) r
      | None => joined m r
      end
  end.

Definition delete_all (ts : list Z) (m : gmap Z producer) : gmap Z producer :=
  foldl (fun m t => delete t m) m ts.

Definition stop_and_join_pregen_threads (c : ssh_aes_ctr_ctx_mt) (w : world) : world :=
  let ts := pool_tids c w in
  foldl join_thread (log (map EvCancel ts) w) ts.

(** ** Seeding the ring *)

(** The arrays of a context have the sizes their C types give them. *)
Definition wf_kq (x : kq) : Prop :=
  length (q_keys x) = Z.to_nat KQLEN /\ length (q_ctr x) = 16%nat.

Definition wf_ctx (c : ssh_aes_ctr_ctx_mt) : Prop :=
  length (c_q c) = Z.to_nat MAX_NUMKQ
  /\ Forall wf_kq (c_q c)
  /\ length (c_aes_counter c) = 16%nat
  /\ length (c_tid c) = Z.to_nat MAX_THREADS
  /\ length (c_id c) = Z.to_nat MAX_THREADS.

(** The cipher context of the caller has no context struct attached, or a
    live one of the right shape. *)
Definition attached_ok (app : Z) (h : gmap Z ssh_aes_ctr_ctx_mt) : Prop :=
  app = 0 \/ exists c, h !! app = Some c /\ wf_ctx c.

(** A context struct of the right shape with every byte zero. *)
Definition blank_kq : kq :=
  Kq (replicate (Z.to_nat KQLEN) (zero_bytes AES_BLOCK_SIZE))
     (zero_bytes AES_BLOCK_SIZE) 0.

Definition blank_ctx : ssh_aes_ctr_ctx_mt :=
  Ctx 0 0 0 0 0 (replicate (Z.to_nat MAX_THREADS) 0) (zero_bytes sizeof_AES_KEY) 0
      (zero_bytes AES_BLOCK_SIZE) (replicate (Z.to_nat MAX_THREADS) 0)
      (replicate (Z.to_nat MAX_NUMKQ) blank_kq).

(** What one iteration of the seeding loop stores in queue [i]. *)
Definition seed_kq (iv : list u_char) (i : Z) (x : kq) : kq :=
  set_q_qstate KQEMPTY
    (set_q_ctr (fun d => ssh_ctr_add (memcpy d iv AES_BLOCK_SIZE)
                                     (CInt.int (i * KQLEN)) AES_BLOCK_SIZE) x).

Definition seed_ring (nkq : Z) (c : ssh_aes_ctr_ctx_mt) : ssh_aes_ctr_ctx_mt :=
  let c0 :=
    set_c_q (fun l => upd l 0 (fun x =>
      set_q_qstate KQINIT
        (set_q_ctr (fun d => memcpy d (c_aes_counter c) AES_BLOCK_SIZE) x))) c in
  let c1 :=
    foldl (fun c' i => set_c_q (fun l => upd l i (seed_kq (c_aes_counter c') i)) c')
      c0 (seqZ 1 (nkq - 1)) in
  set_c_ridx 0 (set_c_qidx 0 c1).

(** ** Wiping a context: [memset(c, 0, sizeof *c)] *)

Definition zero_uchars (l : list u_char) : list u_char := map (fun _ => x00) l.
Definition zero_ints (l : list Z) : list Z := map (fun _ => 0) l.

Definition zero_kq (x : kq) : kq :=
  Kq (map zero_uchars (q_keys x)) (zero_uchars (q_ctr x)) 0.

Definition memset_zero (c : ssh_aes_ctr_ctx_mt) : ssh_aes_ctr_ctx_mt :=
  Ctx 0 0 0 0 0 (zero_ints (c_id c)) (zero_uchars (c_aes_key c)) 0
      (zero_uchars (c_aes_counter c)) (zero_ints (c_tid c))
      (map zero_kq (c_q c)).

(** The bytes of a context that carry key material or keystream. *)
Definition secret_bytes (c : ssh_aes_ctr_ctx_mt) : list u_char :=
  c_aes_key c ++ c_aes_counter c
  ++ concat (map (fun x => concat (q_keys x) ++ q_ctr x) (c_q c)).

(** A process for the worked examples: an eight-processor Linux host
    without SMT, every thread creation succeeding; no context attached yet;
    the caller's key at address 64. *)
Definition example_env : init_env :=
  InitEnv (Linux (Some 0) 8) 4096 blank_ctx (fun i => Some (100 + i)).

Definition example_world (klen : Z) (key : list u_char) : world :=
  World 2 8 0 0 klen ∅ {[ 64 := key ]} ∅ [] None.

(** A process in which a context with key and IV installed is attached at
    address 4096, its pool of two producers (threads 100 and 101) live, on a
    host with eight processors and SMT. *)
Definition keyed_ctx : ssh_aes_ctr_ctx_mt :=
  set_c_tid (fun _ => [100; 101; 0; 0; 0; 0])
    (set_c_orig_key 64 (set_c_keylen 128 (set_c_state 3 blank_ctx))).

Definition keyed_world (key : list u_char) : world :=
  World 2 8 1 4096 16 {[ 4096 := keyed_ctx ]} {[ 64 := key ]}
        (<[100 := Producer 4096 PScan 1 (Evp key [])]>
           {[ 101 := Producer 4096 PScan 1 (Evp key []) ]})
        [] None.

Definition smt_env : init_env :=
  InitEnv (Linux (Some 1) 8) 8192 blank_ctx (fun i => Some (200 + i)).

Definition example_key : list u_char := replicate 16 x01.
Definition example_iv : list u_char := zero_bytes AES_BLOCK_SIZE.

(** ** The consumer's registers *)

(** Program points of the consumer thread: waiting at the end of the init
    function for queue 0 to leave [KQINIT]; outside any call; at the head of
    the loop body of [ssh_aes_ctr]; waiting for the next queue to be full;
    about to mark the consumed queue empty. *)
Inductive cpc := CInitWait | CIdle | CLoop | CWaitFull | CMarkEmpty.

Record consumer := Consumer {
  k_pc : cpc;
  k_ret : option Z;          (* value returned by the last call *)
  k_c : Z;                   (* struct ssh_aes_ctr_ctx_mt *c *)
  k_q : Z;                   (* q, as an index into c->q *)
  k_oldq : Z;                (* oldq, as an index into c->q *)
  k_ridx : Z;                (* int ridx *)
  k_len : Z;                 (* len *)
  k_destp : Z;               (* destp.u *)
  k_srcp : Z;                (* srcp.u *)
  k_dest_ptr : Z;            (* dest *)
  k_src_ptr : Z;             (* src *)
  k_dest : list u_char;      (* the buffer at dest *)
  k_src : list u_char        (* the buffer at src *)
}.

Definition set_k_pc (v : cpc) (k : consumer) : consumer :=
  Consumer v (k_ret k) (k_c k) (k_q k) (k_oldq k) (k_ridx k) (k_len k)
           (k_destp k) (k_srcp k) (k_dest_ptr k) (k_src_ptr k) (k_dest k) (k_src k).
Definition set_k_ret (v : option Z) (k : consumer) : consumer :=
  Consumer (k_pc k) v (k_c k) (k_q k) (k_oldq k) (k_ridx k) (k_len k)
           (k_destp k) (k_srcp k) (k_dest_ptr k) (k_src_ptr k) (k_dest k) (k_src k).
Definition set_k_q (v : Z) (k : consumer) : consumer :=
  Consumer (k_pc k) (k_ret k) (k_c k) v (k_oldq k) (k_ridx k) (k_len k)
           (k_destp k) (k_srcp k) (k_dest_ptr k) (k_src_ptr k) (k_dest k) (k_src k).
Definition set_k_oldq (v : Z) (k : consumer) : consumer :=
  Consumer (k_pc k) (k_ret k) (k_c k) (k_q k) v (k_ridx k) (k_len k)
           (k_destp k) (k_srcp k) (k_dest_ptr k) (k_src_ptr k) (k_dest k) (k_src k).
Definition set_k_len (v : Z) (k : consumer) : consumer :=
  Consumer (k_pc k) (k_ret k) (k_c k) (k_q k) (k_oldq k) (k_ridx k) v
           (k_destp k) (k_srcp k) (k_dest_ptr k) (k_src_ptr k) (k_dest k) (k_src k).

(** Build-time facts of the platform: the two capability macros and the
    address of [c->q[i].keys[r]] for a context at address [c]. *)
Record platform := Platform {
  CIPHER_UNALIGNED_OK : bool;
  CIPHER_INT128_OK : bool;
  keys_addr : Z -> Z -> Z -> Z
}.

(** Reading [n] bytes at offset [off] of a buffer, and writing bytes there. *)
Definition load (buf : list u_char) (off n : Z) : list u_char :=
  take (Z.to_nat n) (drop (Z.to_nat off) buf).
Definition store (buf : list u_char) (off : Z) (data : list u_char) : list u_char :=
  take (Z.to_nat off) buf ++ data ++ drop (Z.to_nat off + length data) buf.

(** XOR of one block in words of [wsize] bytes:
    [dest.w[j] = src.w[j] ^ buf.w[j]] for the [16 / wsize] words, [dest] and
    [src] being read at the byte offsets [doff] and [soff]. *)
Definition xor_words (wsize : Z) (dest src buf : list u_char) (doff soff : Z)
    : list u_char :=
  foldl (fun d j =>
           let o := wsize * j in
           store d (doff + o) (xor_bytes (load src (soff + o) wsize) (load buf o wsize)))
        dest (seqZ 0 (16 / wsize)).

Inductive actor := Prod (t : Z) | Cons.

Section Engine.

Variable AES_encrypt : list u_char -> list u_char -> list u_char.

(** Key expansion of the external library: the bytes of the [AES_KEY]
    that [AES_set_encrypt_key(key, bits, &aes_key)] writes. *)
Variable AES_set_encrypt_key : list u_char -> Z -> list u_char.

Variable pf : platform.

(** *** ssh_aes_ctr_init *)

(** The thread a successful [pthread_create(&c->tid[i], NULL, thread_loop, c)]
    starts, for the context at address [a]. *)
Definition new_thread (a : Z) : producer := Producer a PStart 0 EVP_CIPHER_CTX_new.

(** The thread ids the creations of one init call return. *)
Definition created (env : init_env) (n : Z) : list Z :=
  omap (ie_create env) (seqZ 0 n).

Definition insert_all (a : Z) (ts : list Z) (m : gmap Z producer) : gmap Z producer :=
  foldl (fun m t => <[t := new_thread a]> m) m ts.

(** One iteration of the loop that starts the threads. *)
Definition spawn_thread (env : init_env) (a : Z)
    (st : ssh_aes_ctr_ctx_mt * world) (i : Z) : ssh_aes_ctr_ctx_mt * world :=
  match ie_create env i with
  | None => st
  | Some t =>
      let c1 := set_c_tid (fun l => upd l i (fun _ => t)) st.1 in
      let w1 := log [EvCreate t]
                  (set_threads (<[t := new_thread a]>) st.2) in
      let st2 := if c_struct_id c1 =? 0
                 then (set_c_struct_id (X_counter w1) c1,
                       set_X_counter (X_counter w1 + 1) w1)
                 else (c1, w1) in
      (set_c_id (fun l => upd l i (fun _ => i)) st2.1, st2.2)
  end.

Definition install_key (key : Z) (w : world) (c : ssh_aes_ctr_ctx_mt)
    : ssh_aes_ctr_ctx_mt :=
  if key =? 0 then c
  else
    let bits := CInt.int (key_length w * 8) in
    set_c_state (Z.lor (c_state c) HAVE_KEY)
      (set_c_keylen bits
         (set_c_orig_key key
            (set_c_aes_key (AES_set_encrypt_key (deref w key) bits) c))).

Definition install_iv (iv : option (list u_char)) (c : ssh_aes_ctr_ctx_mt)
    : ssh_aes_ctr_ctx_mt :=
  match iv with
  | None => c
  | Some v =>
      set_c_state (Z.lor (c_state c) HAVE_IV)
        (set_c_aes_counter (memcpy (c_aes_counter c) v AES_BLOCK_SIZE) c)
  end.

(** [key] is a pointer into the caller's memory, kept in [c->orig_key] and
    read later by the threads; [iv] is copied at once. *)
Definition ssh_aes_ctr_init (env : init_env) (key : Z) (iv : option (list u_char))
    (w0 : world) : outcome init_status :=
  let w1 := size_pool (ie_cpus env) w0 in
  let w2 :=
    if app_data w1 =? 0
    then set_app_data (ie_malloc env)
           (set_heap (<[ie_malloc env := set_c_state HAVE_NONE (ie_uninit env)]>) w1)
    else w1 in
  let a := app_data w2 in
  match heap w2 !! a with
  | None => Crash
  | Some c =>
      let st :=
        if c_state c =? Z.lor HAVE_KEY HAVE_IV
        then (set_c_state HAVE_NONE c, stop_and_join_pregen_threads c w2)
        else (c, w2) in
      let c3 := install_iv iv (install_key key st.2 st.1) in
      if c_state c3 =? Z.lor HAVE_KEY HAVE_IV then
        let c4 := seed_ring (numkq st.2) c3 in
        let st5 := foldl (spawn_thread env a) (c4, st.2)
                         (seqZ 0 (cipher_threads st.2)) in
        Ok Waiting (set_heap (<[a := st5.1]>) st5.2)
      else
        Ok (Returned 1) (set_heap (<[a := c3]>) st.2)
  end.

(** *** ssh_aes_ctr_cleanup *)

Definition ssh_aes_ctr_cleanup (w : world) : outcome Z :=
  if app_data w =? 0 then Ok 1 w
  else
    match heap w !! app_data w with
    | None => Crash
    | Some c =>
        let w1 := stop_and_join_pregen_threads c w in
        let z := memset_zero c in
        let w2 := log [EvFree (app_data w) z] (set_heap (delete (app_data w)) w1) in
        Ok 1 (set_app_data 0 w2)
    end.

(** *** thread_loop, one atomic step of thread [t] *)

Definition keylen_supported (bits : Z) : bool :=
  (bits =? 256) || (bits =? 128) || (bits =? 192).

Definition thread_loop_step (t : Z) (w : world) : option world :=
  match exited w, threads w !! t with
  | None, Some p =>
      match heap w !! p_c p with
      | None => None
      | Some c =>
          match p_pc p with
          | PStart =>
              if keylen_supported (c_keylen c) then
                let e := EVP_EncryptInit_key EVP_CIPHER_CTX_new (c_keylen c)
                           (deref w (c_orig_key c)) in
                let q0 := at_ (c_q c) 0 in
                let r :=
                  if (t =? at_ (c_tid c) 0) && (q_qstate q0 =? KQINIT) then
                    let f := fill_kq AES_encrypt (numkq w) e q0 in
                    (f.1, set_c_q (fun l => upd l 0 (fun _ =>
                                     set_q_qstate KQDRAINING f.2)) c)
                  else (e, c) in
                Some (set_threads (<[t := Producer (p_c p) PScan 1 r.1]>)
                        (set_heap (<[p_c p := r.2]>) w))
              else Some (set_exited (Some 1) w)
          | PScan =>
              let x := at_ (c_q c) (p_qidx p) in
              if (q_qstate x =? KQDRAINING) || (q_qstate x =? KQINIT) then None
              else if negb (q_qstate x =? KQEMPTY) then
                Some (set_threads
                        (<[t := Producer (p_c p) PScan
                                 (Z.rem (p_qidx p + 1) (numkq w)) (p_evp p)]>) w)
              else
                Some (set_threads (<[t := Producer (p_c p) PFill (p_qidx p) (p_evp p)]>)
                        (set_heap (<[p_c p :=
                           set_c_q (fun l => upd l (p_qidx p)
                                      (set_q_qstate KQFILLING)) c]>) w))
          | PFill =>
              let f := fill_kq AES_encrypt (numkq w) (p_evp p) (at_ (c_q c) (p_qidx p)) in
              Some (set_threads
                      (<[t := Producer (p_c p) PScan
                               (Z.rem (p_qidx p + 1) (numkq w)) f.1]>)
                      (set_heap (<[p_c p :=
                         set_c_q (fun l => upd l (p_qidx p)
                                    (fun _ => set_q_qstate KQFULL f.2)) c]>) w))
          end
      end
  | _, _ => None
  end.

(** *** ssh_aes_ctr *)

(** The XOR of the current block, by the widest access the alignment of
    the three pointers permits. *)
Definition xor_block (k : consumer) (buf : list u_char) (bufp : Z) : list u_char :=
  let align :=
    if CIPHER_UNALIGNED_OK pf then 0
    else Z.lor (Z.lor (k_destp k) (k_srcp k)) bufp in
  let doff := k_destp k - k_dest_ptr k in
  let soff := k_srcp k - k_src_ptr k in
  if CIPHER_INT128_OK pf && (Z.land align 15 =? 0) then
    xor_words 16 (k_dest k) (k_src k) buf doff soff
  else if Z.land align 7 =? 0 then
    xor_words 8 (k_dest k) (k_src k) buf doff soff
  else if Z.land align 3 =? 0 then
    xor_words 4 (k_dest k) (k_src k) buf doff soff
  else
    (* for (i = 0; i < AES_BLOCK_SIZE; ++i) dest[i] = src[i] ^ buf[i]; *)
    xor_words 1 (k_dest k) (k_src k) buf 0 0.

(** Entry of [ssh_aes_ctr(ctx, dest, src, len)] up to the loop. *)
Definition ssh_aes_ctr_enter (dest_ptr src_ptr : Z) (dest src : list u_char)
    (len : Z) (w : world) (k : consumer) : option consumer :=
  let k0 := Consumer CIdle None (k_c k) (k_q k) (k_oldq k) (k_ridx k) len
                     dest_ptr src_ptr dest_ptr src_ptr dest src in
  if len =? 0 then Some (set_k_ret (Some 1) k0)
  else if app_data w =? 0 then Some (set_k_ret (Some 0) k0)
  else
    match heap w !! app_data w with
    | None => None
    | Some c =>
        Some (Consumer CLoop None (app_data w) (c_qidx c) (k_oldq k) (c_ridx c)
                       len dest_ptr src_ptr dest_ptr src_ptr dest src)
    end.

(** The loop condition [while (len -= AES_BLOCK_SIZE)] and, when it fails,
    [c->ridx = ridx; return 1]. *)
Definition loop_end (w : world) (k : consumer) : world * consumer :=
  let len' := CInt.size_t (k_len k - AES_BLOCK_SIZE) in
  if len' =? 0 then
    (set_heap (alter (set_c_ridx (k_ridx k)) (k_c k)) w,
     set_k_pc CIdle (set_k_ret (Some 1) (set_k_len len' k)))
  else (w, set_k_pc CLoop (set_k_len len' k)).

(** One atomic step of the consumer thread. *)
Definition ssh_aes_ctr_step (w : world) (k : consumer) : option (world * consumer) :=
  match exited w, heap w !! k_c k with
  | None, Some c =>
      match k_pc k with
      | CIdle => None
      | CInitWait =>
          if q_qstate (at_ (c_q c) 0) =? KQINIT then None
          else Some (w, set_k_pc CIdle (set_k_ret (Some 1) k))
      | CLoop =>
          let buf := at_ (q_keys (at_ (c_q c) (k_q k))) (k_ridx k) in
          let dest' := xor_block k buf (keys_addr pf (k_c k) (k_q k) (k_ridx k)) in
          let ridx' := Z.rem (k_ridx k + 1) KQLEN in
          let k1 := Consumer CLoop None (k_c k) (k_q k) (k_oldq k) ridx' (k_len k)
                      (k_destp k + AES_BLOCK_SIZE) (k_srcp k + AES_BLOCK_SIZE)
                      (k_dest_ptr k) (k_src_ptr k) dest' (k_src k) in
          if ridx' =? 0 then
            let nq := Z.rem (c_qidx c + 1) (numkq w) in
            Some (set_heap (<[k_c k := set_c_qidx nq c]>) w,
                  set_k_pc CWaitFull (set_k_q nq (set_k_oldq (k_q k) k1)))
          else Some (loop_end w k1)
      | CWaitFull =>
          if q_qstate (at_ (c_q c) (k_q k)) =? KQFULL then
            Some (set_heap (<[k_c k :=
                    set_c_q (fun l => upd l (k_q k) (set_q_qstate KQDRAINING)) c]>) w,
                  set_k_pc CMarkEmpty k)
          else None
      | CMarkEmpty =>
          Some (loop_end
                  (set_heap (<[k_c k :=
                     set_c_q (fun l => upd l (k_oldq k) (set_q_qstate KQEMPTY)) c]>) w)
                  k)
      end
  | _, _ => None
  end.

(** The consumer thread when the init function has started the pool. *)
Definition init_waiting (w : world) : consumer :=
  Consumer CInitWait None (app_data w) 0 0 0 0 0 0 0 0 [] [].

(** The address of the context a call of the init function operates on. *)
Definition init_target (env : init_env) (w : world) : Z :=
  if app_data w =? 0 then ie_malloc env else app_data w.

(** *** Interleavings *)

Definition sys : Type := world * consumer.

Inductive step : sys -> sys -> Prop :=
| step_producer t w w' k :
    thread_loop_step t w = Some w' -> step (w, k) (w', k)
| step_consumer w k w' k' :
    ssh_aes_ctr_step w k = Some (w', k') -> step (w, k) (w', k').

Definition steps : sys -> sys -> Prop := rtc step.

(** While the key length of the context at [a] is unsupported, queue 0 is
    [KQINIT] and the producers of that context have not started, nothing
    changes but the exit status: the consumer stays in the wait of the init
    function. *)
Definition stuck_in_init (a : Z) (s : sys) : Prop :=
  k_pc s.2 = CInitWait /\ k_ret s.2 = None /\ k_c s.2 = a
  /\ (exited s.1 = None \/ exited s.1 = Some 1)
  /\ exists c, heap s.1 !! a = Some c
       /\ keylen_supported (c_keylen c) = false
       /\ q_qstate (at_ (c_q c) 0) = KQINIT
       /\ forall t p, threads s.1 !! t = Some p -> p_c p = a -> p_pc p = PStart.

(** Running a schedule: the listed threads take one step each, in order. *)
Definition run_actor (s : sys) (a : actor) : option sys :=
  match a with
  | Prod t => (fun w' => (w', s.2)) <$> thread_loop_step t s.1
  | Cons => ssh_aes_ctr_step s.1 s.2
  end.

Fixpoint run (sched : list actor) (s : sys) : option sys :=
  match sched with
  | [] => Some s
  | a :: rest =>
      match run_actor s a with
      | Some s' => run rest s'
      | None => None
      end
  end.

End Engine.

(** * The growable byte buffer (sshbuf.c) *)

(** The constants and the rounding macro that sshbuf.c takes from headers
    outside the sources at hand ([sshbuf.h], [ssherr.h], [misc.h]). *)
Record sshbuf_consts := SshbufConsts {
  SSHBUF_SIZE_MAX : Z;
  SSHBUF_REFS_MAX : Z;
  SSHBUF_SIZE_INIT : Z;
  SSHBUF_SIZE_INC : Z;
  SSHBUF_PACK_MIN : Z;
  ROUNDUP : Z -> Z -> Z;
  SSH_ERR_INTERNAL_ERROR : Z;
  SSH_ERR_ALLOC_FAIL : Z;
  SSH_ERR_MESSAGE_INCOMPLETE : Z;
  SSH_ERR_NO_BUFFER_SPACE : Z;
  SSH_ERR_BUFFER_READ_ONLY : Z
}.

(** What the code relies on: the sizes are ordered and far from the range
    of [size_t], the macro rounds up to a multiple by less than one unit,
    and the error codes are negative [int]s. *)
Definition consts_ok (K : sshbuf_consts) : Prop :=
  0 < SSHBUF_SIZE_INIT K <= SSHBUF_SIZE_MAX K
  /\ SSHBUF_SIZE_MAX K < 2 ^ 62
  /\ 0 < SSHBUF_SIZE_INC K < 2 ^ 62
  /\ 1 <= SSHBUF_REFS_MAX K
  /\ 0 <= SSHBUF_PACK_MIN K
  /\ (forall x y, 0 <= x -> 0 < y -> x <= ROUNDUP K x y < x + y)
  /\ SSH_ERR_INTERNAL_ERROR K < 0
  /\ SSH_ERR_ALLOC_FAIL K < 0
  /\ SSH_ERR_MESSAGE_INCOMPLETE K < 0
  /\ SSH_ERR_NO_BUFFER_SPACE K < 0
  /\ SSH_ERR_BUFFER_READ_ONLY K < 0.

(** The values of the upstream headers, for the worked examples. *)
Definition openssh_consts : sshbuf_consts :=
  SshbufConsts 134217728 1048576 256 256 8192
               (fun x y => (x + (y - 1)) / y * y)
               (-1) (-2) (-3) (-9) (-49).

Definition BUF_WATERSHED : Z := 256 * 1024.

(** [struct sshbuf], as sshbuf.c uses its fields, with the bytes of the
    block that [cd] points to.  Pointers are addresses, [0] is [NULL]. *)
Record sshbuf := Sshbuf {
  sb_d : Z;                  (* u_char *d *)
  sb_cd : Z;                 (* const u_char *cd *)
  sb_mem : list u_char;      (* the block at cd *)
  sb_off : Z;                (* size_t off *)
  sb_size : Z;               (* size_t size *)
  sb_max_size : Z;           (* size_t max_size *)
  sb_alloc : Z;              (* size_t alloc *)
  sb_readonly : Z;           (* int readonly *)
  sb_refcount : Z;           (* u_int refcount *)
  sb_parent : Z;             (* struct sshbuf *parent *)
  sb_window_max : Z          (* size_t window_max *)
}.

Definition set_sb_store (d : Z) (m : list u_char) (a : Z) (b : sshbuf) : sshbuf :=
  Sshbuf d d m (sb_off b) (sb_size b) (sb_max_size b) a (sb_readonly b)
         (sb_refcount b) (sb_parent b) (sb_window_max b).
Definition set_sb_mem (m : list u_char) (b : sshbuf) : sshbuf :=
  Sshbuf (sb_d b) (sb_cd b) m (sb_off b) (sb_size b) (sb_max_size b) (sb_alloc b)
         (sb_readonly b) (sb_refcount b) (sb_parent b) (sb_window_max b).
Definition set_sb_off (v : Z) (b : sshbuf) : sshbuf :=
  Sshbuf (sb_d b) (sb_cd b) (sb_mem b) v (sb_size b) (sb_max_size b) (sb_alloc b)
         (sb_readonly b) (sb_refcount b) (sb_parent b) (sb_window_max b).
Definition set_sb_size (v : Z) (b : sshbuf) : sshbuf :=
  Sshbuf (sb_d b) (sb_cd b) (sb_mem b) (sb_off b) v (sb_max_size b) (sb_alloc b)
         (sb_readonly b) (sb_refcount b) (sb_parent b) (sb_window_max b).
Definition set_sb_max_size (v : Z) (b : sshbuf) : sshbuf :=
  Sshbuf (sb_d b) (sb_cd b) (sb_mem b) (sb_off b) (sb_size b) v (sb_alloc b)
         (sb_readonly b) (sb_refcount b) (sb_parent b) (sb_window_max b).

(** A call either returns, or ends the process with [SIGSEGV], or writes
    past the end of the block it was given, after which the behaviour of
    the program is undefined. *)
Inductive sbres (A : Type) :=
| SbRet (r : A)
| SbKilled
| SbOverrun.
Arguments SbRet {A} r.
Arguments SbKilled {A}.
Arguments SbOverrun {A}.

Definition sb_bind {A B} (m : sbres A) (f : A -> sbres B) : sbres B :=
  match m with
  | SbRet r => f r
  | SbKilled => SbKilled
  | SbOverrun => SbOverrun
  end.

(** [recallocarray(ptr, oldn, newn, 1)]: [dp] is the address the allocator
    answers, [0] on failure; on success the block keeps the bytes it had,
    as far as they fit, and what it gains is zero. *)
Definition recallocarray (dp : Z) (m : list u_char) (oldn newn : Z)
    : option (Z * list u_char) :=
  if dp =? 0 then None
  else Some (dp, take (Z.to_nat newn) m ++ zero_bytes (newn - oldn)).

(** [explicit_bzero(p, n)] on a block of bytes [m] that starts at [p]:
    the first [n] bytes become zero; when the block has fewer than [n]
    bytes the write runs past its end ([None]). *)
Definition explicit_bzero (m : list u_char) (n : Z) : option (list u_char) :=
  if n <=? Z.of_nat (length m) then Some (zero_bytes n ++ drop (Z.to_nat n) m)
  else None.

(** The bytes a reader of the buffer sees: [size - off] bytes at [cd + off]. *)
Definition sshbuf_data (b : sshbuf) : list u_char :=
  load (sb_mem b) (sb_off b) (sb_size b - sb_off b).

Section Sshbuf.

Variable K : sshbuf_consts.

(** Whether [raise(SIGSEGV)] returns, the signal being blocked, instead of
    ending the process. *)
Variable segv_returns : bool.

Definition sshbuf_insane (buf : option sshbuf) : bool :=
  match buf with
  | None => true
  | Some b =>
      ((sb_readonly b =? 0) && negb (sb_d b =? sb_cd b))
      || (sb_refcount b <? 1) || (sb_refcount b >? SSHBUF_REFS_MAX K)
      || (sb_cd b =? 0)
      || (sb_max_size b >? SSHBUF_SIZE_MAX K)
      || (sb_alloc b >? sb_max_size b)
      || (sb_size b >? sb_alloc b)
      || (sb_off b >? sb_size b)
  end.

Definition sshbuf_check_sanity (buf : option sshbuf) : sbres Z :=
  if sshbuf_insane buf then
    if segv_returns then SbRet (SSH_ERR_INTERNAL_ERROR K) else SbKilled
  else SbRet 0.

(** [force] is a C truth value. *)
Definition sshbuf_maybe_pack (b : sshbuf) (force : bool) : sshbuf :=
  if (sb_off b =? 0) || negb (sb_readonly b =? 0) || (sb_refcount b >? 1) then b
  else if force || ((sb_off b >=? SSHBUF_PACK_MIN K)
                    && (sb_off b >=? sb_size b / 2)) then
    let n := CInt.size_t (sb_size b - sb_off b) in
    set_sb_off 0
      (set_sb_size n
         (set_sb_mem (store (sb_mem b) 0 (load (sb_mem b) (sb_off b) n)) b))
  else b.

(** [sp] and [dp] are the answers of the two [calloc] calls, [0] for a
    failure. *)
Definition sshbuf_new (sp dp : Z) : option sshbuf :=
  if sp =? 0 then None
  else if dp =? 0 then None
  else Some (Sshbuf dp dp (zero_bytes (SSHBUF_SIZE_INIT K)) 0 0 (SSHBUF_SIZE_MAX K)
                    (SSHBUF_SIZE_INIT K) 0 1 0 0).

(** [sshbuf_from(blob, len)] for a blob at address [blob] holding the bytes
    [bytes]; [sp] is the answer of [calloc]. *)
Definition sshbuf_from (blob : Z) (bytes : list u_char) (len : Z) (sp : Z)
    : option sshbuf :=
  if (blob =? 0) || (len >? SSHBUF_SIZE_MAX K) || (sp =? 0) then None
  else Some (Sshbuf 0 blob bytes 0 len len len 1 1 0 0).

Definition sshbuf_reset (b : sshbuf) (dp : Z) : sbres sshbuf :=
  if negb (sb_readonly b =? 0) || (sb_refcount b >? 1) then
    SbRet (set_sb_off (sb_size b) b)
  else
    sb_bind (sshbuf_check_sanity (Some b)) (fun _ =>
      let b1 := set_sb_size 0 (set_sb_off 0 b) in
      let b2 :=
        if negb (sb_alloc b1 =? SSHBUF_SIZE_INIT K) then
          match recallocarray dp (sb_mem b1) (sb_alloc b1) (SSHBUF_SIZE_INIT K) with
          | Some (d, m) => set_sb_store d m (SSHBUF_SIZE_INIT K) b1
          | None => b1
          end
        else b1 in
      match explicit_bzero (sb_mem b2) (SSHBUF_SIZE_INIT K) with
      | Some m => SbRet (set_sb_mem m b2)
      | None => SbOverrun
      end).

Definition sshbuf_max_size (b : sshbuf) : Z := sb_max_size b.
Definition sshbuf_alloc (b : sshbuf) : Z := sb_alloc b.
Definition sshbuf_parent (b : sshbuf) : Z := sb_parent b.
Definition sshbuf_refcount (b : sshbuf) : Z := sb_refcount b.

(** The functions below return the C result and leave the buffer in the
    state given; a [NULL] buffer stays [NULL]. *)
Definition sshbuf_set_max_size (buf : option sshbuf) (max_size : Z) (dp : Z)
    : sbres (Z * option sshbuf) :=
  sb_bind (sshbuf_check_sanity buf) (fun r =>
    match buf with
    | Some b =>
        if negb (r =? 0) then SbRet (r, buf)
        else if max_size =? sb_max_size b then SbRet (0, buf)
        else if negb (sb_readonly b =? 0) || (sb_refcount b >? 1) then
          SbRet (SSH_ERR_BUFFER_READ_ONLY K, buf)
        else if max_size >? SSHBUF_SIZE_MAX K then
          SbRet (SSH_ERR_NO_BUFFER_SPACE K, buf)
        else
          let b1 := sshbuf_maybe_pack b (max_size <? sb_size b) in
          let resized :=
            if (max_size <? sb_alloc b1) && (max_size >? sb_size b1) then
              let rlen0 := if sb_size b1 <? SSHBUF_SIZE_INIT K
                           then SSHBUF_SIZE_INIT K
                           else ROUNDUP K (sb_size b1) (SSHBUF_SIZE_INC K) in
              let rlen := if rlen0 >? max_size then max_size else rlen0 in
              match recallocarray dp (sb_mem b1) (sb_alloc b1) rlen with
              | Some (d, m) => Some (set_sb_store d m rlen b1)
              | None => None
              end
            else Some b1 in
          match resized with
          | None => SbRet (SSH_ERR_ALLOC_FAIL K, Some b1)
          | Some b2 =>
              if max_size <? sb_alloc b2
              then SbRet (SSH_ERR_NO_BUFFER_SPACE K, Some b2)
              else SbRet (0, Some (set_sb_max_size max_size b2))
          end
    | None => SbRet (r, buf)
    end).

Definition sshbuf_len (buf : option sshbuf) : sbres Z :=
  sb_bind (sshbuf_check_sanity buf) (fun r =>
    match buf with
    | Some b => if negb (r =? 0) then SbRet 0
                else SbRet (CInt.size_t (sb_size b - sb_off b))
    | None => SbRet 0
    end).

Definition sshbuf_avail (buf : option sshbuf) : sbres Z :=
  sb_bind (sshbuf_check_sanity buf) (fun r =>
    match buf with
    | Some b =>
        if negb (r =? 0) || negb (sb_readonly b =? 0) || (sb_refcount b >? 1)
        then SbRet 0
        else SbRet (CInt.size_t (sb_max_size b
                                 - CInt.size_t (sb_size b - sb_off b)))
    | None => SbRet 0
    end).

Definition sshbuf_ptr (buf : option sshbuf) : sbres Z :=
  sb_bind (sshbuf_check_sanity buf) (fun r =>
    match buf with
    | Some b => if negb (r =? 0) then SbRet 0 else SbRet (sb_cd b + sb_off b)
    | None => SbRet 0
    end).

Definition sshbuf_mutable_ptr (buf : option sshbuf) : sbres Z :=
  sb_bind (sshbuf_check_sanity buf) (fun r =>
    match buf with
    | Some b =>
        if negb (r =? 0) || negb (sb_readonly b =? 0) || (sb_refcount b >? 1)
        then SbRet 0
        else SbRet (sb_d b + sb_off b)
    | None => SbRet 0
    end).

Definition sshbuf_check_reserve (buf : option sshbuf) (len : Z) : sbres Z :=
  sb_bind (sshbuf_check_sanity buf) (fun r =>
    match buf with
    | Some b =>
        if negb (r =? 0) then SbRet r
        else if negb (sb_readonly b =? 0) || (sb_refcount b >? 1) then
          SbRet (SSH_ERR_BUFFER_READ_ONLY K)
        else if (len >? sb_max_size b)
                || (CInt.size_t (sb_max_size b - len)
                    <? CInt.size_t (sb_size b - sb_off b)) then
          SbRet (SSH_ERR_NO_BUFFER_SPACE K)
        else SbRet 0
    | None => SbRet r
    end).

Definition sshbuf_allocate (buf : option sshbuf) (len : Z) (dp : Z)
    : sbres (Z * option sshbuf) :=
  sb_bind (sshbuf_check_reserve buf len) (fun r =>
    match buf with
    | Some b =>
        if negb (r =? 0) then SbRet (r, buf)
        else
          let b1 := sshbuf_maybe_pack b
                      (CInt.size_t (sb_size b + len) >? sb_max_size b) in
          if CInt.size_t (len + sb_size b1) <=? sb_alloc b1 then SbRet (0, Some b1)
          else
            let need := CInt.size_t (CInt.size_t (len + sb_size b1) - sb_alloc b1) in
            let rlen := ROUNDUP K (CInt.size_t (sb_alloc b1 + need))
                                (SSHBUF_SIZE_INC K) in
            let hint := (rlen >? BUF_WATERSHED) && negb (sb_window_max b1 =? 0)
                        && (sb_alloc b1 <? sb_window_max b1) in
            let need1 := if hint then sb_window_max b1 else need in
            let rlen1 :=
              if hint then
                let r1 := ROUNDUP K (CInt.size_t (sb_alloc b1 + need1))
                                  (SSHBUF_SIZE_INC K) in
                if r1 >? sb_max_size b1 then sb_max_size b1 else r1
              else rlen in
            let rlen2 := if rlen1 >? sb_max_size b1
                         then CInt.size_t (sb_alloc b1 + need1) else rlen1 in
            match recallocarray dp (sb_mem b1) (sb_alloc b1) rlen2 with
            | None => SbRet (SSH_ERR_ALLOC_FAIL K, Some b1)
            | Some (d, m) =>
                let b2 := set_sb_store d m rlen2 b1 in
                sb_bind (sshbuf_check_reserve (Some b2) len) (fun r2 =>
                  if r2 <? 0 then SbRet (r2, Some b2) else SbRet (0, Some b2))
            end
    | None => SbRet (r, buf)
    end).

(** The third component is what is stored through [dpp] when it is not
    [NULL]: the address of the reserved region, or [NULL]. *)
Definition sshbuf_reserve (buf : option sshbuf) (len : Z) (dp : Z)
    : sbres (Z * option sshbuf * Z) :=
  sb_bind (sshbuf_allocate buf len dp) (fun rb =>
    match rb.2 with
    | Some b =>
        if negb (rb.1 =? 0) then SbRet (rb.1, rb.2, 0)
        else SbRet (0, Some (set_sb_size (CInt.size_t (sb_size b + len)) b),
                    sb_d b + sb_size b)
    | None => SbRet (rb.1, rb.2, 0)
    end).

Definition sshbuf_consume (buf : option sshbuf) (len : Z)
    : sbres (Z * option sshbuf) :=
  sb_bind (sshbuf_check_sanity buf) (fun r =>
    match buf with
    | Some b =>
        if negb (r =? 0) then SbRet (r, buf)
        else if len =? 0 then SbRet (0, buf)
        else
          sb_bind (sshbuf_len buf) (fun l =>
            if len >? l then SbRet (SSH_ERR_MESSAGE_INCOMPLETE K, buf)
            else
              let b1 := set_sb_off (CInt.size_t (sb_off b + len)) b in
              if sb_off b1 =? sb_size b1
              then SbRet (0, Some (set_sb_size 0 (set_sb_off 0 b1)))
              else SbRet (0, Some b1))
    | None => SbRet (r, buf)
    end).

Definition sshbuf_consume_end (buf : option sshbuf) (len : Z)
    : sbres (Z * option sshbuf) :=
  sb_bind (sshbuf_check_sanity buf) (fun r =>
    match buf with
    | Some b =>
        if negb (r =? 0) then SbRet (r, buf)
        else if len =? 0 then SbRet (0, buf)
        else
          sb_bind (sshbuf_len buf) (fun l =>
            if len >? l then SbRet (SSH_ERR_MESSAGE_INCOMPLETE K, buf)
            else SbRet (0, Some (set_sb_size (CInt.size_t (sb_size b - len)) b)))
    | None => SbRet (r, buf)
    end).

(** The representation invariant: the checks of [sshbuf_check_sanity] hold,
    the block at [cd] has [alloc] bytes, and the fields are sizes. *)
Definition sshbuf_ok (b : sshbuf) : Prop :=
  sshbuf_insane (Some b) = false
  /\ Z.of_nat (length (sb_mem b)) = sb_alloc b
  /\ 0 <= sb_off b /\ 0 <= sb_window_max b < 2 ^ 62.

(** The bytes that may still be appended under the size limit. *)
Definition sshbuf_room (b : sshbuf) : Z :=
  sb_max_size b - (sb_size b - sb_off b).

(** The growth hint, when it is set, covers the request. *)
Definition hint_covers (b : sshbuf) (len : Z) : Prop :=
  sb_window_max b = 0 \/ len <= sb_window_max b.

(** A buffer that may be written: not read-only, not shared. *)
Definition sshbuf_writable (b : sshbuf) : Prop :=
  sb_readonly b = 0 /\ sb_refcount b <= 1.

End Sshbuf.

(** The calls a client makes on one buffer, each with the answer the
    allocator gives it when it allocates. *)
Inductive sshbuf_call :=
| CallReserve (len dp : Z)
| CallConsume (len : Z)
| CallConsumeEnd (len : Z)
| CallSetMaxSize (max_size dp : Z)
| CallReset (dp : Z).

Section SshbufCalls.

Variable K : sshbuf_consts.
Variable segv_returns : bool.

(** One call on the buffer [b]; the result code of the call is dropped. *)
Definition sshbuf_call_on (c : sshbuf_call) (b : sshbuf) : sbres sshbuf :=
  match c with
  | CallReserve len dp =>
      sb_bind (sshbuf_reserve K segv_returns (Some b) len dp)
              (fun x => SbRet (default b x.1.2))
  | CallConsume len =>
      sb_bind (sshbuf_consume K segv_returns (Some b) len)
              (fun x => SbRet (default b x.2))
  | CallConsumeEnd len =>
      sb_bind (sshbuf_consume_end K segv_returns (Some b) len)
              (fun x => SbRet (default b x.2))
  | CallSetMaxSize max_size dp =>
      sb_bind (sshbuf_set_max_size K segv_returns (Some b) max_size dp)
              (fun x => SbRet (default b x.2))
  | CallReset dp => sshbuf_reset K segv_returns b dp
  end.

(** A sequence of calls, in order. *)
Fixpoint sshbuf_calls (cs : list sshbuf_call) (b : sshbuf) : sbres sshbuf :=
  match cs with
  | [] => SbRet b
  | c :: cs => sb_bind (sshbuf_call_on c b) (sshbuf_calls cs)
  end.

(** The arguments of a call are [size_t] values, and a size limit is not
    set below the initial allocation. *)
Definition sshbuf_call_ok (c : sshbuf_call) : Prop :=
  match c with
  | CallReserve len _ | CallConsume len | CallConsumeEnd len => 0 <= len < 2 ^ 64
  | CallSetMaxSize max_size _ => SSHBUF_SIZE_INIT K <= max_size < 2 ^ 64
  | CallReset _ => True
  end.

(** What holds of a buffer between such calls. *)
Definition sshbuf_steady (b : sshbuf) : Prop :=
  sshbuf_ok K b /\ sshbuf_writable b /\ sb_window_max b = 0
  /\ SSHBUF_SIZE_INIT K <= sb_alloc b.

End SshbufCalls.

(** Buffers for the worked examples: a writable one holding six unread
    bytes behind two consumed ones, a read-only one as [sshbuf_from] builds
    it over a four-byte blob, and an empty one with a growth hint of 1024
    bytes. *)
Definition example_buf : sshbuf :=
  Sshbuf 4096 4096 ([x01; x02; x03; x04; x05; x06; x07; x08] ++ zero_bytes 248)
         2 8 134217728 256 0 1 0 0.
Definition example_ro_buf : sshbuf :=
  Sshbuf 0 8192 [x61; x62; x63; x64] 0 4 4 4 1 1 0 0.
Definition example_hint_buf : sshbuf :=
  Sshbuf 4096 4096 (zero_bytes 256) 0 0 134217728 256 0 1 0 1024.



(** [example_buf] after ten bytes have been reserved at its end. *)
Definition example_reserved : sshbuf := set_sb_size 18 example_buf.

(** A short session on a buffer: write, read a part, shrink the limit,
    write with a failing allocator, drop the tail, reset. *)
Definition example_calls : list sshbuf_call :=
  [CallReserve 300 8192; CallConsume 120; CallSetMaxSize 512 12288;
   CallReserve 400 0; CallConsumeEnd 80; CallReset 16384; CallReserve 8 0].

(** * Brace expansion (scp.c) *)

(** A C string at an address is given by the bytes stored from there on;
    [at_ s i] is [s[i]], and past the bytes given it reads the terminator.
    The characters the code compares with: *)
Definition ch_nul : u_char := x00.
Definition ch_backslash : u_char := x5c.
Definition ch_lbracket : u_char := x5b.
Definition ch_rbracket : u_char := x5d.
Definition ch_lbrace : u_char := x7b.
Definition ch_rbrace : u_char := x7d.
Definition ch_comma : u_char := x2c.
Definition ch_slash : u_char := x2f.

(** The bytes before the first terminator: the string as [strdup] copies it
    and [strlen] measures it. *)
Fixpoint strdup (s : list u_char) : list u_char :=
  match s with
  | [] => []
  | c :: s' => if Byte.eqb c ch_nul then [] else c :: strdup s'
  end.
Definition strlen (s : list u_char) : Z := Z.of_nat (length (strdup s)).

(** [strrchr(s, c)] for a [c] other than the terminator: the index of the
    last [c] of the string, scanning from index [i] with [found] the last
    one seen so far. *)
Fixpoint strrchr_from (s : list u_char) (c : u_char) (i : Z) (found : option Z)
    : option Z :=
  match s with
  | [] => found
  | x :: s' =>
      if Byte.eqb x ch_nul then found
      else strrchr_from s' c (i + 1) (if Byte.eqb x c then Some i else found)
  end.
Definition strrchr (s : list u_char) (c : u_char) : option Z :=
  strrchr_from s c 0 None.

(** The variables of the loop of [find_brace]. *)
Record find_state := Fb {
  fb_i : Z;
  fb_start : Z;            (* *startp *)
  fb_end : Z;              (* *endp *)
  fb_in_bracket : bool;
  fb_level : Z             (* brace_level *)
}.

(** The body of the loop with the [i++] that follows it; [None] is the
    [return -1] inside the loop. *)
Definition find_brace_body (pattern : list u_char) (st : find_state)
    : option find_state :=
  let i := fb_i st in
  let c := at_ pattern i in
  if Byte.eqb c ch_backslash then
    let i1 := if negb (Byte.eqb (at_ pattern (i + 1)) ch_nul) then i + 1 else i in
    Some (Fb (i1 + 1) (fb_start st) (fb_end st) (fb_in_bracket st) (fb_level st))
  else if Byte.eqb c ch_lbracket then
    Some (Fb (i + 1) (fb_start st) (fb_end st) true (fb_level st))
  else if Byte.eqb c ch_rbracket then
    Some (Fb (i + 1) (fb_start st) (fb_end st) false (fb_level st))
  else if Byte.eqb c ch_lbrace then
    if fb_in_bracket st then
      Some (Fb (i + 1) (fb_start st) (fb_end st) (fb_in_bracket st) (fb_level st))
    else if Byte.eqb (at_ pattern (i + 1)) ch_rbrace then
      Some (Fb (i + 1 + 1) (fb_start st) (fb_end st) (fb_in_bracket st) (fb_level st))
    else
      Some (Fb (i + 1) (if fb_start st =? -1 then i else fb_start st) (fb_end st)
               (fb_in_bracket st) (fb_level st + 1))
  else if Byte.eqb c ch_rbrace then
    if fb_in_bracket st then
      Some (Fb (i + 1) (fb_start st) (fb_end st) (fb_in_bracket st) (fb_level st))
    else if fb_start st <? 0 then None
    else
      let level := fb_level st - 1 in
      Some (Fb (i + 1) (fb_start st) (if level <=? 0 then i else fb_end st)
               (fb_in_bracket st) level)
  else
    Some (Fb (i + 1) (fb_start st) (fb_end st) (fb_in_bracket st) (fb_level st)).

(** The loop, at most [fuel] times round, and what follows it.  The result
    is the value returned with [*startp] and [*endp]. *)
Fixpoint find_brace_loop (fuel : nat) (pattern : list u_char) (st : find_state)
    : option (Z * Z * Z) :=
  match fuel with
  | O => None
  | S fuel =>
      if (fb_i st <? CInt.INT_MAX) && (fb_end st <? 0)
         && negb (Byte.eqb (at_ pattern (fb_i st)) ch_nul) then
        match find_brace_body pattern st with
        | None => Some (-1, fb_start st, fb_end st)
        | Some st' => find_brace_loop fuel pattern st'
        end
      else if (fb_end st <? 0) && ((fb_start st >=? 0) || fb_in_bracket st) then
        Some (-1, fb_start st, fb_end st)
      else Some (0, fb_start st, fb_end st)
  end.

Definition find_brace (pattern : list u_char) : option (Z * Z * Z) :=
  find_brace_loop (S (length pattern)) pattern (Fb 0 (-1) (-1) false 0).

(** The variables of the loop of [brace_expand_one], with the array of
    patterns and the count of allocations made so far. *)
Record expand_state := Ex {
  x_i : Z;
  x_sel_start : Z;
  x_in_bracket : bool;
  x_level : Z;             (* brace_level *)
  x_patterns : list (list u_char);
  x_k : nat
}.

Section Brace.

(** Whether the allocation number [k] of the run fails. *)
Variable alloc_fails : nat -> bool.

(** [append(cp, ap, np)], the array and its length as a list. *)
Definition append (cp : list u_char) (ap : list (list u_char)) (k : nat)
    : Z * list (list u_char) * nat :=
  if alloc_fails k then (-1, ap, S k) else (0, ap ++ [cp], S k).

Definition emit_expansion (pattern : list u_char)
    (brace_start brace_end sel_start sel_end : Z)
    (patterns : list (list u_char)) (k : nat) : Z * list (list u_char) * nat :=
  let tail_len := CInt.int (strlen (drop (Z.to_nat (brace_end + 1)) pattern)) in
  if alloc_fails k then (-1, patterns, S k)
  else
    let cp0 := if brace_start >? 0 then load pattern 0 brace_start else [] in
    let cp1 := if sel_end - sel_start >? 0
               then cp0 ++ load pattern sel_start (sel_end - sel_start) else cp0 in
    let cp2 := if tail_len >? 0
               then cp1 ++ load pattern (brace_end + 1) tail_len else cp1 in
    append cp2 patterns (S k).

(** The body of the loop of [brace_expand_one] with the [i++] that follows
    it; [inr] is the [return -1] inside the loop. *)
Definition expand_body (pattern : list u_char) (brace_start brace_end : Z)
    (st : expand_state) : expand_state + list (list u_char) * nat :=
  let c := at_ pattern (x_i st) in
  let i :=
    if Byte.eqb c ch_backslash
    then (if x_i st <? brace_end - 1 then x_i st + 1 else x_i st)
    else x_i st in
  let in_bracket :=
    if Byte.eqb c ch_lbracket then true
    else if Byte.eqb c ch_rbracket then false
    else x_in_bracket st in
  let level :=
    if Byte.eqb c ch_lbrace
    then (if x_in_bracket st then x_level st else x_level st + 1)
    else if Byte.eqb c ch_rbrace
    then (if x_in_bracket st then x_level st else x_level st - 1)
    else x_level st in
  if Byte.eqb (at_ pattern i) ch_comma || (i =? brace_end - 1) then
    if in_bracket || (level >? 0) then
      inl (Ex (i + 1) (x_sel_start st) in_bracket level (x_patterns st) (x_k st))
    else
      let sel_end := if i =? brace_end - 1 then brace_end else i in
      let e := emit_expansion pattern brace_start brace_end (x_sel_start st)
                              sel_end (x_patterns st) (x_k st) in
      if negb (e.1.1 =? 0) then inr (e.1.2, e.2)
      else inl (Ex (i + 1) (i + 1) in_bracket level e.1.2 e.2)
  else
    inl (Ex (i + 1) (x_sel_start st) in_bracket level (x_patterns st) (x_k st)).

Fixpoint expand_loop (fuel : nat) (pattern : list u_char)
    (brace_start brace_end : Z) (st : expand_state)
    : option (expand_state + list (list u_char) * nat) :=
  match fuel with
  | O => None
  | S fuel =>
      if x_i st <? brace_end then
        match expand_body pattern brace_start brace_end st with
        | inl st' => expand_loop fuel pattern brace_start brace_end st'
        | inr f => Some (inr f)
        end
      else Some (inl st)
  end.

(** What [brace_expand_one] returns and stores. *)
Record expand_one := ExOne {
  o_ret : Z;
  o_patterns : list (list u_char);
  o_k : nat;
  o_expanded : bool;
  o_invalid : bool
}.

Definition brace_expand_one (pattern : list u_char)
    (patterns : list (list u_char)) (k : nat) : option expand_one :=
  match find_brace pattern with
  | None => None
  | Some (r, brace_start, brace_end) =>
      if negb (r =? 0) then Some (ExOne 0 patterns k false true)
      else if brace_start =? -1 then Some (ExOne 0 patterns k false false)
      else
        match expand_loop (S (length pattern)) pattern brace_start brace_end
                (Ex (brace_start + 1) (brace_start + 1) false 0 patterns k) with
        | None => None
        | Some (inr f) => Some (ExOne (-1) f.1 f.2 false false)
        | Some (inl st) =>
            if x_in_bracket st || (x_level st >? 0)
            then Some (ExOne 0 (x_patterns st) (x_k st) false true)
            else Some (ExOne 0 (x_patterns st) (x_k st) true false)
        end
  end.

(** How [brace_expand] ends: it returns [r] with the patterns stored
    through [patternsp], or the process ends in [fatal]. *)
Inductive expand_result :=
| ExpRet (r : Z) (patterns : list (list u_char))
| ExpFatalInvalid (cp : list u_char)
| ExpFatalNoMem.

(** The file-name component that goes on the completed list: what follows
    the last slash of [cp], or all of [cp]. *)
Definition last_component (cp : list u_char) : list u_char :=
  match strrchr cp ch_slash with
  | Some i => strdup (drop (Z.to_nat (i + 1)) cp)
  | None => strdup cp
  end.

(** The worklist loop of [brace_expand], at most [fuel] times round;
    [active] is a stack with its top at the end. *)
Fixpoint brace_expand_loop (fuel : nat) (active done : list (list u_char))
    (k : nat) : option expand_result :=
  match fuel with
  | O => None
  | S fuel =>
      match last active with
      | None => Some (ExpRet 0 done)
      | Some cp =>
          match brace_expand_one cp (removelast active) k with
          | None => None
          | Some o =>
              if o_ret o =? -1 then Some (ExpRet (-1) [])
              else if o_invalid o then Some (ExpFatalInvalid cp)
              else if o_expanded o then
                brace_expand_loop fuel (o_patterns o) done (o_k o)
              else if alloc_fails (o_k o) then Some ExpFatalNoMem
              else
                let a := append (last_component cp) done (S (o_k o)) in
                if negb (a.1.1 =? 0) then Some (ExpRet (-1) [])
                else brace_expand_loop fuel (o_patterns o) a.1.2 a.2
          end
      end
  end.

Definition brace_expand (fuel : nat) (pattern : list u_char)
    : option expand_result :=
  if alloc_fails 0 then Some (ExpRet (-1) [])
  else
    let a := append (strdup pattern) [] 1 in
    if negb (a.1.1 =? 0) then Some (ExpRet (-1) [])
    else brace_expand_loop fuel a.1.2 [] a.2.

End Brace.

(** The rounds [brace_expand] needs at most on a pattern of [n] bytes. *)
Fixpoint expand_rounds (n : nat) : nat :=
  match n with
  | O => 1
  | S m => 1 + n * expand_rounds m
  end.

(** What the loop of [find_brace] keeps true of its variables on a pattern
    of [n] bytes. *)
Definition find_inv (pattern : list u_char) (st : find_state) : Prop :=
  0 <= fb_i st <= Z.of_nat (length pattern)
  /\ ((fb_end st = -1
       /\ ((fb_start st = -1 /\ fb_level st = 0)
           \/ (0 <= fb_start st < fb_i st /\ 1 <= fb_level st
               /\ at_ pattern (fb_start st) = ch_lbrace
               /\ at_ pattern (fb_start st + 1) <> ch_rbrace)))
      \/ (0 <= fb_start st /\ fb_start st + 1 < fb_end st
          /\ fb_end st < Z.of_nat (length pattern)
          /\ at_ pattern (fb_start st) = ch_lbrace
          /\ at_ pattern (fb_end st) = ch_rbrace)).

(** What [find_brace] promises of its result. *)
Definition find_post (pattern : list u_char) (res : Z * Z * Z) : Prop :=
  let '(r, s, e) := res in
  (r = 0 \/ r = -1)
  /\ (r = 0 ->
      (s = -1 /\ e = -1)
      \/ (0 <= s /\ s + 1 < e /\ e < Z.of_nat (length pattern)
          /\ at_ pattern s = ch_lbrace /\ at_ pattern e = ch_rbrace)).

(** What the loop of [brace_expand_one] keeps true of its variables, for
    the brace pair at [brace_start] and [brace_end] of [pattern] and the
    array [patterns0] it was given. *)
Definition expand_inv (pattern : list u_char) (brace_start brace_end : Z)
    (patterns0 : list (list u_char)) (st : expand_state) : Prop :=
  brace_start + 1 <= x_sel_start st <= x_i st /\ x_i st <= brace_end
  /\ exists new,
      x_patterns st = patterns0 ++ new
      /\ Forall (fun p => (length p + 2 <= length pattern)%nat) new
      /\ Z.of_nat (length new) <= x_i st - (brace_start + 1)
      /\ (x_i st = brace_end -> x_in_bracket st = false -> x_level st <= 0 ->
          new <> []).

(** The bytes that [find_brace] and [brace_expand_one] single out, with the
    terminator; a string is plain when it has none of them, and a plain
    alternative has no comma either. *)
Definition brace_special (c : u_char) : bool :=
  Byte.eqb c ch_nul || Byte.eqb c ch_backslash || Byte.eqb c ch_lbracket
  || Byte.eqb c ch_rbracket || Byte.eqb c ch_lbrace || Byte.eqb c ch_rbrace.
Definition plain (s : list u_char) : Prop :=
  Forall (fun c => brace_special c = false) s.
Definition plain_alt (s : list u_char) : Prop :=
  Forall (fun c => brace_special c = false /\ c <> ch_comma) s.

(** Alternatives written one after the other, each followed by a comma. *)
Fixpoint with_commas (alts : list (list u_char)) : list u_char :=
  match alts with
  | [] => []
  | a :: alts => a ++ ch_comma :: with_commas alts
  end.

(** Text that leaves an open bracket open: no terminator, no backslash and
    no closing bracket. *)
Definition bracket_text (s : list u_char) : Prop :=
  Forall (fun c => c <> ch_nul /\ c <> ch_backslash /\ c <> ch_rbracket) s.

(** * The user-name check (scp.c) *)

(** The five characters that [okname] refuses besides those with the top
    bit set: quote, double quote, backquote, space and hash. *)
Definition okname_refused : list Z := [39; 34; 96; 32; 35].

Section Okname.

(** [isalpha] and [isdigit] of the C library, as truth values, and whether
    plain [char] is signed. *)
Variable isalpha isdigit : Z -> bool.
Variable char_signed : bool.

(** [(int)*cp] for the byte at [cp]. *)
Definition char_int (c : u_char) : Z :=
  if char_signed then CInt.wraps 8 (Z_of_uchar c) else Z_of_uchar c.

(** The tests of the loop body on [c]: [true] is the jump to [bad]. *)
Definition okname_bad (c : Z) : bool :=
  negb (Z.land c 128 =? 0)
  || (negb (isalpha c) && negb (isdigit (CInt.uint8 c))
      && bool_decide (c ∈ okname_refused)).

(** The loop, at most [fuel] times round, on the bytes [mem] that can be
    read from [cp0] on, with [cp] as an index; [None] is a read outside
    them. *)
Fixpoint okname_loop (fuel : nat) (mem : list u_char) (cp : nat) : option Z :=
  match fuel with
  | O => None
  | S fuel =>
      match mem !! cp with
      | None => None
      | Some ch =>
          if okname_bad (char_int ch) then Some 0
          else
            match mem !! S cp with
            | None => None
            | Some next =>
                if Byte.eqb next ch_nul then Some 1
                else okname_loop fuel mem (S cp)
            end
      end
  end.

(** The value returned, with the name printed in the message when it is
    0. *)
Definition okname (mem : list u_char) : option (Z * option (list u_char)) :=
  match okname_loop (length mem) mem 0 with
  | Some r => Some (r, if r =? 0 then Some (strdup mem) else None)
  | None => None
  end.

End Okname.

(** [isalpha] and [isdigit] in the C locale, for the worked examples. *)
Definition c_isalpha (c : Z) : bool :=
  ((65 <=? c) && (c <=? 90)) || ((97 <=? c) && (c <=? 122)).
Definition c_isdigit (c : Z) : bool := (48 <=? c) && (c <=? 57).



(** Patterns for the worked examples. *)
Definition pat_flat : list u_char :=          (* a{b,c}d *)
  [x61; x7b; x62; x2c; x63; x7d; x64].
Definition pat_path : list u_char :=          (* d/{b,c}.h *)
  [x64; x2f; x7b; x62; x2c; x63; x7d; x2e; x68].
Definition pat_trailing : list u_char :=      (* a{b,c,}d *)
  [x61; x7b; x62; x2c; x63; x2c; x7d; x64].
Definition pat_escaped : list u_char :=       (* a{b\,c}d *)
  [x61; x7b; x62; x5c; x2c; x63; x7d; x64].
Definition pat_plain : list u_char :=         (* d/ab *)
  [x64; x2f; x61; x62].
Definition pat_open : list u_char :=          (* a{b *)
  [x61; x7b; x62].
Definition pat_empty_pair : list u_char :=    (* a{}b *)
  [x61; x7b; x7d; x62].

(** * Properties *)

(** ** Machine integers and bytes *)

Lemma int_small z : - 2 ^ 31 <= z <= CInt.INT_MAX -> CInt.int z = z.
Proof.
  unfold CInt.int, CInt.wraps, CInt.INT_MAX. intros H.
  change (2 ^ (32 - 1)) with 2147483648 in *. change (2 ^ 32) with 4294967296.
  change (2 ^ 31) with 2147483648 in H.
  rewrite Z.mod_small; lia.
Qed.

Lemma size_t_small z : 0 <= z < 2 ^ 64 -> CInt.size_t z = z.
Proof. intros H. unfold CInt.size_t, CInt.wrapu. now rewrite Z.mod_small. Qed.

Lemma uint32_small z : 0 <= z < 2 ^ 32 -> CInt.uint32 z = z.
Proof. intros H. unfold CInt.uint32, CInt.wrapu. now rewrite Z.mod_small. Qed.

Lemma uint16_small z : 0 <= z < 2 ^ 16 -> CInt.uint16 z = z.
Proof. intros H. unfold CInt.uint16, CInt.wrapu. now rewrite Z.mod_small. Qed.

Lemma Z_of_uchar_range b : 0 <= Z_of_uchar b < 256.
Proof.
  unfold Z_of_uchar. pose proof (Byte.to_N_bounded b). lia.
Qed.

Lemma Z_of_uchar_of_Z z : Z_of_uchar (uchar_of_Z z) = z mod 256.
Proof.
  unfold Z_of_uchar, uchar_of_Z.
  assert (Hr : 0 <= z mod 256 < 256) by (apply Z.mod_pos_bound; lia).
  destruct (Byte.of_N (Z.to_N (z mod 256))) as [b|] eqn:E.
  - apply Byte.to_of_N in E. simpl. rewrite E. lia.
  - apply Byte.of_N_None_iff in E. lia.
Qed.

Lemma uchar_of_Z_of_uchar b : uchar_of_Z (Z_of_uchar b) = b.
Proof.
  unfold uchar_of_Z, Z_of_uchar.
  pose proof (Byte.to_N_bounded b).
  rewrite Z.mod_small by lia. rewrite N2Z.id.
  now rewrite Byte.of_to_N.
Qed.

Lemma Z_of_uchar_inj a b : Z_of_uchar a = Z_of_uchar b -> a = b.
Proof.
  intros H. rewrite <- (uchar_of_Z_of_uchar a), <- (uchar_of_Z_of_uchar b).
  now rewrite H.
Qed.

(** ** Big-endian reading of byte arrays *)

Lemma be_value_snoc l b : be_value (l ++ [b]) = be_value l * 256 + Z_of_uchar b.
Proof. unfold be_value. now rewrite fold_left_app. Qed.

Lemma be_value_range l : 0 <= be_value l < 256 ^ Z.of_nat (length l).
Proof.
  induction l as [|b l IH] using rev_ind.
  - simpl. unfold be_value. simpl. lia.
  - rewrite be_value_snoc, length_app. simpl length.
    rewrite Nat2Z.inj_add, Z.pow_add_r by lia.
    pose proof (Z_of_uchar_range b). change (256 ^ Z.of_nat 1) with 256. nia.
Qed.

Lemma be_bytes_length n z : length (be_bytes n z) = n.
Proof.
  revert z. induction n as [|n IH]; intros z; simpl; [done|].
  rewrite length_app, IH. simpl. lia.
Qed.

Lemma be_value_bytes n z : be_value (be_bytes n z) = z mod 256 ^ Z.of_nat n.
Proof.
  revert z. induction n as [|n IH]; intros z.
  - simpl. unfold be_value. simpl. now rewrite Z.mod_1_r.
  - cbn [be_bytes]. rewrite be_value_snoc, IH, Z_of_uchar_of_Z.
    rewrite Nat2Z.inj_succ, Z.pow_succ_r by lia.
    rewrite (Z.rem_mul_r z 256 (256 ^ Z.of_nat n)) by lia. lia.
Qed.

Lemma be_bytes_value l : be_bytes (length l) (be_value l) = l.
Proof.
  induction l as [|b l IH] using rev_ind; [done|].
  rewrite length_app. simpl length. rewrite Nat.add_1_r. cbn [be_bytes].
  rewrite be_value_snoc. pose proof (Z_of_uchar_range b).
  replace ((be_value l * 256 + Z_of_uchar b) / 256) with (be_value l)
    by (apply (Z.div_unique _ 256 _ (Z_of_uchar b)); lia).
  rewrite IH. f_equal. f_equal.
  apply Z_of_uchar_inj. rewrite Z_of_uchar_of_Z.
  rewrite Z.add_comm, Z.mod_add by lia. now rewrite Z.mod_small.
Qed.

Lemma be_value_inj l1 l2 :
  length l1 = length l2 -> be_value l1 = be_value l2 -> l1 = l2.
Proof.
  intros Hl Hv. rewrite <- (be_bytes_value l1), <- (be_bytes_value l2).
  now rewrite Hl, Hv.
Qed.

Lemma be_bytes_mod n z : be_bytes n (z mod 256 ^ Z.of_nat n) = be_bytes n z.
Proof.
  apply be_value_inj; [now rewrite !be_bytes_length|].
  rewrite !be_value_bytes. apply Z.mod_mod. lia.
Qed.

(** ** The counter operations *)

Lemma list_insert_middle {A} (l1 l2 : list A) (x y : A) n :
  n = length l1 -> <[n := y]> (l1 ++ x :: l2) = l1 ++ y :: l2.
Proof.
  intros ->. rewrite insert_app_r_alt by lia. now rewrite Nat.sub_diag.
Qed.

Lemma ssh_ctr_inc_from_length k ctr : length (ssh_ctr_inc_from k ctr) = length ctr.
Proof.
  revert ctr. induction k as [|i IH]; intros ctr; cbn [ssh_ctr_inc_from]; [done|].
  destruct (_ =? 0); [rewrite IH|]; now rewrite length_insert.
Qed.

(** The loop only touches the bytes below its starting index. *)
Lemma ssh_ctr_inc_from_app pre suf :
  ssh_ctr_inc_from (length pre) (pre ++ suf)
  = ssh_ctr_inc_from (length pre) pre ++ suf.
Proof.
  revert suf. induction pre as [|b pre IH] using rev_ind; intros suf; [done|].
  rewrite length_app. simpl length. rewrite Nat.add_1_r. cbn [ssh_ctr_inc_from].
  rewrite <- !app_assoc. cbn [app].
  rewrite !(list_lookup_total_middle pre _ b (length pre)) by done.
  rewrite !(list_insert_middle pre _ b _ (length pre)) by done.
  destruct (_ =? 0).
  - rewrite (IH (_ :: suf)), (IH [_]). now rewrite <- app_assoc.
  - now rewrite <- app_assoc.
Qed.

Lemma ssh_ctr_inc_from_value ctr :
  be_value (ssh_ctr_inc_from (length ctr) ctr)
  = (be_value ctr + 1) mod 256 ^ Z.of_nat (length ctr).
Proof.
  induction ctr as [|b pre IH] using rev_ind.
  - simpl. unfold be_value. simpl. now rewrite Z.mod_1_r.
  - rewrite length_app. simpl length. rewrite Nat.add_1_r. cbn [ssh_ctr_inc_from].
    rewrite (list_lookup_total_middle pre [] b (length pre)) by done.
    rewrite (list_insert_middle pre [] b _ (length pre)) by done.
    rewrite Nat2Z.inj_succ, Z.pow_succ_r by lia.
    pose proof (Z_of_uchar_range b) as Hb. pose proof (be_value_range pre) as Hp.
    unfold CInt.uint8, CInt.wrapu. change (2 ^ 8) with 256.
    rewrite be_value_snoc.
    destruct (_ =? 0) eqn:E.
    + apply Z.eqb_eq in E. rewrite E.
      assert (Z_of_uchar b = 255).
      { destruct (Z.eq_dec (Z_of_uchar b) 255); [done|].
        rewrite Z.mod_small in E; lia. }
      rewrite (ssh_ctr_inc_from_app pre [_]), be_value_snoc, IH, Z_of_uchar_of_Z.
      replace (be_value pre * 256 + Z_of_uchar b + 1) with ((be_value pre + 1) * 256)
        by (clear - H; lia).
      rewrite (Z.mul_comm 256 (256 ^ _)), Z.mul_mod_distr_r by lia.
      rewrite Z.mod_0_l by lia. lia.
    + apply Z.eqb_neq in E.
      assert (Z_of_uchar b < 255).
      { destruct (Z.eq_dec (Z_of_uchar b) 255) as [e|]; [|lia].
        rewrite e in E. now cbn in E. }
      rewrite be_value_snoc, Z_of_uchar_of_Z, Z.mod_mod by lia.
      rewrite (Z.mod_small (Z_of_uchar b + 1)) by lia.
      rewrite Z.mod_small; nia.
Qed.

Lemma ssh_ctr_add_from_length k ctr num n :
  length (ssh_ctr_add_from k ctr num n) = length ctr.
Proof.
  revert ctr num n. induction k as [|i IH]; intros ctr num n;
    cbn [ssh_ctr_add_from]; [done|].
  destruct (_ && _); [done|]. now rewrite IH, length_insert.
Qed.

Lemma ssh_ctr_add_from_app pre suf num n :
  ssh_ctr_add_from (length pre) (pre ++ suf) num n
  = ssh_ctr_add_from (length pre) pre num n ++ suf.
Proof.
  revert suf num n. induction pre as [|b pre IH] using rev_ind; intros suf num n; [done|].
  rewrite length_app. simpl length. rewrite Nat.add_1_r. cbn [ssh_ctr_add_from].
  destruct (_ && _); [done|].
  rewrite <- !app_assoc. cbn [app].
  rewrite !(list_lookup_total_middle pre _ b (length pre)) by done.
  rewrite !(list_insert_middle pre _ b _ (length pre)) by done.
  rewrite (IH (_ :: suf)), (IH [_]). now rewrite <- app_assoc.
Qed.

Lemma ssh_ctr_add_from_value ctr num n :
  0 <= num -> 0 <= n <= 1 ->
  be_value (ssh_ctr_add_from (length ctr) ctr num n)
  = (be_value ctr + num + n) mod 256 ^ Z.of_nat (length ctr).
Proof.
  revert num n. induction ctr as [|b pre IH] using rev_ind; intros num n Hnum Hn.
  - simpl. unfold be_value. simpl. now rewrite Z.mod_1_r.
  - rewrite length_app. simpl length. rewrite Nat.add_1_r. cbn [ssh_ctr_add_from].
    rewrite Nat2Z.inj_succ, Z.pow_succ_r by lia.
    pose proof (Z_of_uchar_range b) as Hb. pose proof (be_value_range pre) as Hp.
    destruct (_ && _) eqn:E.
    + apply andb_true_iff in E as [E1 E2].
      apply Z.eqb_eq in E1, E2. subst num n.
      rewrite be_value_snoc. rewrite Z.mod_small; nia.
    + clear E.
      rewrite (list_lookup_total_middle pre [] b (length pre)) by done.
      rewrite (list_insert_middle pre [] b _ (length pre)) by done.
      change 255 with (Z.ones 8). rewrite !Z.land_ones by lia.
      rewrite !Z.shiftr_div_pow2 by lia. change (2 ^ 8) with 256.
      pose proof (Z.mod_pos_bound num 256 ltac:(lia)) as Hm.
      set (t := Z_of_uchar b + num mod 256 + n).
      assert (Ht : 0 <= t <= 511) by (unfold t; lia).
      rewrite uint16_small by (change (2 ^ 16) with 65536; lia).
      assert (Htd : 0 <= t / 256 <= 1).
      { split; [apply Z.div_pos; lia|].
        pose proof (Z.div_lt_upper_bound t 256 2). lia. }
      assert (Hnd : 0 <= num / 256) by (apply Z.div_pos; lia).
      rewrite (ssh_ctr_add_from_app pre [_]), be_value_snoc, IH, Z_of_uchar_of_Z by lia.
      rewrite Z.mod_mod by lia. rewrite be_value_snoc.
      rewrite (Z.rem_mul_r _ 256 (256 ^ Z.of_nat (length pre))) by lia.
      replace (be_value pre * 256 + Z_of_uchar b + num + n)
        with (t + (be_value pre + num / 256) * 256)
        by (unfold t; pose proof (Z.div_mod num 256 ltac:(lia)); clear - H; lia).
      rewrite Z.mod_add, Z.div_add by lia.
      rewrite (Z.add_comm (t / 256)). lia.
Qed.

Lemma pow_256_16 : 256 ^ Z.of_nat 16 = 2 ^ 128.
Proof. reflexivity. Qed.

Lemma AES_BLOCK_SIZE_int : 1 <= AES_BLOCK_SIZE <= CInt.INT_MAX + 1.
Proof. unfold AES_BLOCK_SIZE, CInt.INT_MAX. change (2 ^ 31) with 2147483648. lia. Qed.

(** The increment, as a byte string. *)
Lemma ssh_ctr_inc_bytes ctr len :
  Z.of_nat (length ctr) = len -> 1 <= len <= CInt.INT_MAX + 1 ->
  ssh_ctr_inc ctr len = be_bytes (length ctr) (be_value ctr + 1).
Proof.
  intros Hlen Hr. unfold ssh_ctr_inc.
  assert (Hi : CInt.int (CInt.size_t (len - 1)) = len - 1).
  { unfold CInt.INT_MAX in Hr. change (2 ^ 31) with 2147483648 in Hr.
    rewrite size_t_small by (change (2 ^ 64) with 18446744073709551616; lia).
    apply int_small. unfold CInt.INT_MAX. change (2 ^ 31) with 2147483648. lia. }
  rewrite Hi. replace (Z.to_nat (len - 1 + 1)) with (length ctr) by lia.
  apply be_value_inj.
  - now rewrite ssh_ctr_inc_from_length, be_bytes_length.
  - now rewrite ssh_ctr_inc_from_value, be_value_bytes.
Qed.

(** The bulk add, as a byte string. *)
Lemma ssh_ctr_add_bytes ctr num len :
  Z.of_nat (length ctr) = len -> 1 <= len <= CInt.INT_MAX + 1 ->
  0 <= num < 2 ^ 32 ->
  ssh_ctr_add ctr num len = be_bytes (length ctr) (be_value ctr + num).
Proof.
  intros Hlen Hr Hnum. unfold ssh_ctr_add.
  assert (Hi : CInt.int (CInt.uint32 (len - 1)) = len - 1).
  { unfold CInt.INT_MAX in Hr. change (2 ^ 31) with 2147483648 in Hr.
    rewrite uint32_small by (change (2 ^ 32) with 4294967296; lia).
    apply int_small. unfold CInt.INT_MAX. change (2 ^ 31) with 2147483648. lia. }
  rewrite Hi. replace (Z.to_nat (len - 1 + 1)) with (length ctr) by lia.
  rewrite uint32_small by done.
  apply be_value_inj.
  - now rewrite ssh_ctr_add_from_length, be_bytes_length.
  - rewrite ssh_ctr_add_from_value, be_value_bytes by lia. f_equal. lia.
Qed.


(** ** The fill pass *)

Section FillPass.

Variable AES_encrypt : list u_char -> list u_char -> list u_char.

Lemma xor_mynull l : xor_bytes mynull l = take 16 l.
Proof.
  unfold mynull, zero_bytes, xor_bytes. change (Z.to_nat AES_BLOCK_SIZE) with 16%nat.
  generalize 16%nat. intros n. revert l.
  induction n as [|n IH]; intros [|b l]; simpl; try done.
  f_equal; [|apply IH]. unfold uchar_xor.
    change (Z_of_uchar "000") with 0. rewrite Z.lxor_0_l.
    apply uchar_of_Z_of_uchar.
Qed.

Lemma be_bytes_16_succ v n : be_bytes 16 (be_value (be_bytes 16 (v + n)) + 1)
                             = be_bytes 16 (v + (n + 1)).
Proof.
  rewrite be_value_bytes. rewrite <- (be_bytes_mod 16 (_ + 1)).
  rewrite Z.add_mod_idemp_l by (rewrite pow_256_16; lia).
  rewrite be_bytes_mod. f_equal. lia.
Qed.

Lemma fill_slots_spec key ivec x (n : nat) :
  length ivec = 16%nat -> length (q_ctr x) = 16%nat ->
  let st := foldl (fill_slot AES_encrypt) (Evp key ivec, x) (seq 0 n) in
  st.1 = Evp key (be_bytes 16 (be_value ivec + Z.of_nat n))
  /\ q_ctr st.2 = be_bytes 16 (be_value (q_ctr x) + Z.of_nat n)
  /\ q_qstate st.2 = q_qstate x
  /\ q_keys st.2
     = foldl (fun l j => <[j := ks AES_encrypt key (be_value ivec) (Z.of_nat j)]> l)
             (q_keys x) (seq 0 n).
Proof.
  intros Hiv Hctr. induction n as [|n IH].
  - cbn [seq foldl fst snd]. change (Z.of_nat 0) with 0. rewrite !Z.add_0_r.
    split; [|split; [|done]].
    + now rewrite <- Hiv, be_bytes_value.
    + now rewrite <- Hctr, be_bytes_value.
  - rewrite seq_S, !foldl_app. cbn [foldl]. simpl Nat.add.
    destruct IH as (IH1 & IH2 & IH3 & IH4).
    destruct (foldl _ _ (seq 0 n)) as [e y]. cbn [fst snd] in *.
    subst e. unfold fill_slot. cbn [fst snd EVP_EncryptUpdate evp_key evp_ivec].
    cbn [set_q_ctr set_q_keys q_ctr q_keys q_qstate].
    rewrite Nat2Z.inj_succ. unfold Z.succ.
    split; [|split; [|split]].
    + unfold ctr128_inc. now rewrite be_bytes_16_succ.
    + rewrite IH2.
      rewrite (ssh_ctr_inc_bytes _ AES_BLOCK_SIZE); rewrite ?be_bytes_length;
        [apply be_bytes_16_succ|done|apply AES_BLOCK_SIZE_int].
    + done.
    + rewrite IH4, xor_mynull. done.
Qed.

Lemma foldl_insert_prefix {A} (f : nat -> A) (l : list A) (n : nat) :
  (n <= length l)%nat ->
  foldl (fun l j => <[j := f j]> l) l (seq 0 n) = map f (seq 0 n) ++ drop n l.
Proof.
  induction n as [|n IH]; intros Hn; [done|].
  rewrite seq_S, foldl_app, IH by lia. cbn [foldl]. simpl Nat.add.
  rewrite map_app. cbn [map]. rewrite <- app_assoc. cbn [app].
  destruct (drop n l) as [|y r] eqn:E.
  { apply (f_equal length) in E. rewrite length_drop in E. simpl in E. lia. }
  rewrite (list_insert_middle _ r y _ n) by (now rewrite length_map, length_seq).
  f_equal. f_equal.
  replace (S n) with (n + 1)%nat by lia. now rewrite <- drop_drop, E.
Qed.

(** What one fill pass leaves in the queue and in the cipher handle. *)
Lemma fill_kq_spec numkq e x :
  length (q_ctr x) = 16%nat -> 1 <= numkq <= MAX_NUMKQ ->
  let v := be_value (q_ctr x) in
  let r := fill_kq AES_encrypt numkq e x in
  evp_key r.1 = evp_key e
  /\ q_ctr r.2 = be_bytes 16 (v + numkq * KQLEN)
  /\ q_qstate r.2 = q_qstate x
  /\ q_keys r.2
     = foldl (fun l j => <[j := ks AES_encrypt (evp_key e) v (Z.of_nat j)]> l)
             (q_keys x) (seq 0 (Z.to_nat KQLEN)).
Proof.
  intros Hctr Hn v r. unfold r, fill_kq, EVP_EncryptInit_iv.
  rewrite (take_ge (q_ctr x)) by lia.
  destruct (fill_slots_spec (evp_key e) (q_ctr x) x (Z.to_nat KQLEN) Hctr Hctr)
    as (H1 & H2 & H3 & H4).
  destruct (foldl _ _ _) as [e' y]. cbn [fst snd] in *. subst e'.
  cbn [evp_key set_q_ctr q_ctr q_qstate q_keys].
  split; [done|]. split; [|split]; [|done|done].
  rewrite H2. unfold MAX_NUMKQ, MAX_THREADS in Hn.
  assert (Hk : 0 <= KQLEN * (numkq - 1) < 2 ^ 31).
  { unfold KQLEN. change (2 ^ 31) with 2147483648. lia. }
  rewrite int_small by (unfold CInt.INT_MAX; lia).
  rewrite (ssh_ctr_add_bytes _ _ AES_BLOCK_SIZE); rewrite ?be_bytes_length;
    [|done|apply AES_BLOCK_SIZE_int|].
  - rewrite be_value_bytes. rewrite <- (be_bytes_mod 16 (_ + _)).
    rewrite Z.add_mod_idemp_l by (rewrite pow_256_16; lia).
    rewrite be_bytes_mod. f_equal. fold v.
    rewrite Z2Nat.id by (unfold KQLEN; lia). lia.
  - change (2 ^ 31) with 2147483648 in Hk. change (2 ^ 32) with 4294967296. lia.
Qed.

End FillPass.

(** ** The counter: statements of the design document *)



(** The [int] index of the two counter loops: for a counter of
    [2^31 + 1] bytes, [len - 1] converted to [int] is [INT_MIN], the loop
    condition [i >= 0] fails at once and the counter is left as it was. *)
Lemma ssh_ctr_inc_int_index (ctr : list u_char) :
  ssh_ctr_inc ctr long_len = ctr.
Proof. reflexivity. Qed.

Lemma ssh_ctr_add_int_index (ctr : list u_char) (num : Z) :
  ssh_ctr_add ctr num long_len = ctr.
Proof. reflexivity. Qed.

Lemma be_value_zero_bytes (n : nat) : be_value (replicate n x00) = 0.
Proof.
  induction n as [|n IH]; [reflexivity|].
  rewrite replicate_S_end, be_value_snoc, IH. reflexivity.
Qed.

Lemma long_counter_shape :
  Z.of_nat (length long_counter) = long_len /\ be_value long_counter = 0
  /\ 1 mod 256 ^ long_len = 1.
Proof.
  unfold long_counter. split; [|split].
  - rewrite length_replicate. apply Z2Nat.id. discriminate.
  - apply be_value_zero_bytes.
  - apply Z.mod_small. split; [discriminate|].
    exact (proj1 (Z.pow_gt_1 256 long_len eq_refl) eq_refl).
Qed.

(** C3 as stated, for every length [len >= 1], fails: on the counter of
    [2^31 + 1] zero bytes [ssh_ctr_inc] changes nothing, so the value stays
    0 where the claim gives 1. *)
Lemma ssh_ctr_inc_long_counter :
  ~ (forall (ctr : list u_char) (len : Z),
       Z.of_nat (length ctr) = len -> 1 <= len ->
       be_value (ssh_ctr_inc ctr len) = (be_value ctr + 1) mod 256 ^ len).
Proof.
  intros H. destruct long_counter_shape as (Hl & Hv & Hp).
  specialize (H long_counter long_len Hl).
  rewrite ssh_ctr_inc_int_index, Hv in H.
  change (0 + 1) with 1 in H. rewrite Hp in H.
  assert (Hfalse : 0 = 1) by (apply H; discriminate).
  discriminate Hfalse.
Qed.



(** C4 as stated, for every length [len >= 1], fails: on the counter of
    [2^31 + 1] zero bytes [ssh_ctr_add] of 1 changes nothing, so the value
    stays 0 where the claim gives 1. *)
Lemma ssh_ctr_add_long_counter :
  ~ (forall (ctr : list u_char) (num len : Z),
       Z.of_nat (length ctr) = len -> 1 <= len -> 0 <= num < 2 ^ 32 ->
       be_value (ssh_ctr_add ctr num len) = (be_value ctr + num) mod 256 ^ len).
Proof.
  intros H. destruct long_counter_shape as (Hl & Hv & Hp).
  specialize (H long_counter 1 long_len Hl).
  rewrite ssh_ctr_add_int_index, Hv in H.
  change (0 + 1) with 1 in H. rewrite Hp in H.
  assert (Hfalse : 0 = 1) by (apply H; [discriminate | split; [discriminate | reflexivity]]).
  discriminate Hfalse.
Qed.

Section FillPassClaims.

Variable AES_encrypt : list u_char -> list u_char -> list u_char.

(** The counter of a queue after a fill pass is [KQLEN] single increments
    followed by one bulk add. *)
Lemma fill_slots_ctr e x (n : nat) :
  q_ctr (foldl (fill_slot AES_encrypt) (e, x) (seq 0 n)).2
  = Nat.iter n (fun c => ssh_ctr_inc c AES_BLOCK_SIZE) (q_ctr x).
Proof.
  induction n as [|n IH]; [done|].
  rewrite seq_S, foldl_app. cbn [foldl]. rewrite Nat.iter_succ, <- IH.
  destruct (foldl _ _ (seq 0 n)) as [e' y]. reflexivity.
Qed.

Lemma fills_ctr nkq es x :
  length (q_ctr x) = 16%nat -> 1 <= nkq <= MAX_NUMKQ ->
  q_ctr (fills AES_encrypt nkq es x)
  = be_bytes 16 (be_value (q_ctr x) + Z.of_nat (length es) * (nkq * KQLEN)).
Proof.
  intros Hl Hn. revert x Hl. induction es as [|e es IH]; intros x Hl.
  - unfold fills. cbn [foldl length]. change (Z.of_nat 0) with 0.
    rewrite Z.mul_0_l, Z.add_0_r, <- Hl. now rewrite be_bytes_value.
  - unfold fills. cbn [foldl]. fold (fills AES_encrypt nkq es (fill_kq AES_encrypt nkq e x).2).
    destruct (fill_kq_spec AES_encrypt nkq e x Hl Hn) as (_ & Hc & _).
    rewrite IH by (now rewrite Hc, be_bytes_length).
    rewrite Hc, be_value_bytes. rewrite <- (be_bytes_mod 16 (_ + _)).
    rewrite Z.add_mod_idemp_l by (rewrite pow_256_16; lia).
    rewrite be_bytes_mod. f_equal. cbn [length]. lia.
Qed.

(** C2.  One fill pass of a ring slot, for a ring of [numkq] queues, is
    [KQLEN] single increments of the 16-byte big-endian counter followed
    by a bulk add of [KQLEN * (numkq - 1)], and leaves the counter
    [numkq * KQLEN] ahead of where the pass found it, modulo [2^128];
    hence after any number of successive passes the counter of the slot
    is ahead by that number times [numkq * KQLEN], modulo [2^128]. *)
Theorem fill_pass_counter (nkq : Z) (e : EVP_CIPHER_CTX) (x : kq) :
  length (q_ctr x) = 16%nat -> 1 <= nkq <= MAX_NUMKQ ->
  q_ctr (fill_kq AES_encrypt nkq e x).2
  = ssh_ctr_add (Nat.iter (Z.to_nat KQLEN) (fun c => ssh_ctr_inc c AES_BLOCK_SIZE)
                          (q_ctr x))
                (KQLEN * (nkq - 1)) AES_BLOCK_SIZE
  /\ length (q_ctr (fill_kq AES_encrypt nkq e x).2) = 16%nat
  /\ be_value (q_ctr (fill_kq AES_encrypt nkq e x).2)
     = (be_value (q_ctr x) + nkq * KQLEN) mod 2 ^ 128
  /\ (forall es : list EVP_CIPHER_CTX,
        be_value (q_ctr (fills AES_encrypt nkq es x))
        = (be_value (q_ctr x) + Z.of_nat (length es) * (nkq * KQLEN)) mod 2 ^ 128).
Proof.
  intros Hl Hn.
  destruct (fill_kq_spec AES_encrypt nkq e x Hl Hn) as (_ & Hc & _).
  split; [|split; [|split]].
  - unfold fill_kq. cbn [snd set_q_ctr q_ctr]. rewrite fill_slots_ctr.
    unfold MAX_NUMKQ, MAX_THREADS in Hn.
    rewrite int_small; [done|].
    unfold KQLEN, CInt.INT_MAX. change (2 ^ 31) with 2147483648. lia.
  - now rewrite Hc, be_bytes_length.
  - now rewrite Hc, be_value_bytes.
  - intros es. now rewrite fills_ctr, be_value_bytes.
Qed.

End FillPassClaims.

Lemma fill_pass_counter_witness :
  (length (q_ctr (Kq [] (replicate 16 xff) KQEMPTY)) = 16%nat /\ 1 <= 8 <= MAX_NUMKQ)
  /\ be_value (q_ctr (fill_kq xor_cipher 8 EVP_CIPHER_CTX_new
                              (Kq [] (replicate 16 xff) KQEMPTY)).2)
     = (be_value (q_ctr (Kq [] (replicate 16 xff) KQEMPTY)) + 8 * KQLEN) mod 2 ^ 128.
Proof.
  assert (H1 : length (q_ctr (Kq [] (replicate 16 xff) KQEMPTY)) = 16%nat)
    by reflexivity.
  assert (H2 : 1 <= 8 <= MAX_NUMKQ) by (vm_compute; split; discriminate).
  split; [split; assumption|].
  exact (proj1 (proj2 (proj2
    (fill_pass_counter xor_cipher 8 EVP_CIPHER_CTX_new
       (Kq [] (replicate 16 xff) KQEMPTY) H1 H2)))).
Defined.

(** ** Seeding the ring *)

Lemma memcpy_all (d s : list u_char) :
  length d = 16%nat -> length s = 16%nat -> memcpy d s AES_BLOCK_SIZE = s.
Proof.
  intros Hd Hs. unfold memcpy. change (Z.to_nat AES_BLOCK_SIZE) with 16%nat.
  rewrite take_ge, drop_ge by lia. apply app_nil_r.
Qed.

Lemma seed_kq_spec iv i x :
  length (q_ctr x) = 16%nat -> length iv = 16%nat -> 0 <= i < MAX_NUMKQ ->
  seed_kq iv i x = Kq (q_keys x) (be_bytes 16 (be_value iv + i * KQLEN)) KQEMPTY.
Proof.
  intros Hx Hiv Hi. unfold seed_kq, set_q_qstate, set_q_ctr. cbn [q_keys q_ctr q_qstate].
  rewrite memcpy_all by done. unfold MAX_NUMKQ, MAX_THREADS in Hi.
  assert (Hk : 0 <= i * KQLEN < 2 ^ 31)
    by (unfold KQLEN; change (2 ^ 31) with 2147483648; lia).
  rewrite int_small by (unfold CInt.INT_MAX; lia).
  rewrite (ssh_ctr_add_bytes iv _ AES_BLOCK_SIZE);
    [now rewrite Hiv | now rewrite Hiv | apply AES_BLOCK_SIZE_int |].
  change (2 ^ 31) with 2147483648 in Hk. change (2 ^ 32) with 4294967296. lia.
Qed.

(** The seeding loop after its first [n] iterations. *)
Lemma seed_loop_spec c0 (n : nat) :
  let c1 := foldl (fun c' i => set_c_q (fun l => upd l i (seed_kq (c_aes_counter c') i)) c')
                  c0 (seqZ 1 (Z.of_nat n)) in
  c1 = set_c_q (fun _ => c_q c1) c0
  /\ length (c_q c1) = length (c_q c0)
  /\ forall j : nat,
       c_q c1 !! j
       = if decide (1 <= j <= n)%nat
         then seed_kq (c_aes_counter c0) (Z.of_nat j) <$> c_q c0 !! j
         else c_q c0 !! j.
Proof.
  induction n as [|n IH].
  - cbn. split; [now destruct c0|]. split; [done|].
    intros j. destruct (decide _); [lia|done].
  - rewrite seqZ_S, foldl_app. cbn [foldl].
    destruct IH as (IH1 & IH2 & IH3).
    set (c1 := foldl _ c0 (seqZ 1 (Z.of_nat n))) in *.
    assert (Hiv : c_aes_counter c1 = c_aes_counter c0) by (now rewrite IH1).
    rewrite Hiv. split; [|split].
    + rewrite IH1. reflexivity.
    + cbn [set_c_q c_q]. unfold upd. now rewrite length_alter.
    + intros j. cbn [set_c_q c_q]. unfold upd.
      replace (Z.to_nat (1 + Z.of_nat n)) with (S n) by lia.
      destruct (decide (j = S n)) as [->|Hne].
      * rewrite list_lookup_alter_eq, IH3.
        destruct (decide (1 <= S n <= n)%nat); [lia|].
        destruct (decide (1 <= S n <= S n)%nat); [|lia].
        do 3 f_equal. lia.
      * rewrite list_lookup_alter_ne by done. rewrite IH3.
        destruct (decide (1 <= j <= n)%nat), (decide (1 <= j <= S n)%nat);
          try lia; done.
Qed.

Lemma wf_ctx_lookup c (j : nat) :
  wf_ctx c -> (j < Z.to_nat MAX_NUMKQ)%nat ->
  exists x, c_q c !! j = Some x /\ wf_kq x.
Proof.
  intros (Hl & Hq & _) Hj.
  destruct (lookup_lt_is_Some_2 (c_q c) j) as [x Hx]; [lia|].
  exists x. split; [done|]. eapply Forall_lookup_1; eauto.
Qed.

(** The ring as [seed_ring] leaves it. *)
Lemma seed_ring_spec nkq c :
  wf_ctx c -> 1 <= nkq <= MAX_NUMKQ ->
  let c' := seed_ring nkq c in
  c' = set_c_ridx 0 (set_c_qidx 0 (set_c_q (fun _ => c_q c') c))
  /\ length (c_q c') = length (c_q c)
  /\ (exists x, c_q c !! 0%nat = Some x
        /\ c_q c' !! 0%nat = Some (Kq (q_keys x) (c_aes_counter c) KQINIT))
  /\ (forall j : nat, (1 <= j)%nat -> Z.of_nat j < nkq ->
        exists x, c_q c !! j = Some x
          /\ c_q c' !! j
             = Some (Kq (q_keys x)
                        (be_bytes 16 (be_value (c_aes_counter c) + Z.of_nat j * KQLEN))
                        KQEMPTY))
  /\ (forall j : nat, nkq <= Z.of_nat j -> c_q c' !! j = c_q c !! j).
Proof.
  intros Hwf Hn c'. unfold c', seed_ring.
  set (c0 := set_c_q _ c).
  replace (nkq - 1) with (Z.of_nat (Z.to_nat (nkq - 1))) by lia.
  destruct (seed_loop_spec c0 (Z.to_nat (nkq - 1))) as (H1 & H2 & H3).
  set (c1 := foldl _ c0 _) in *.
  assert (Hq0 : forall j : nat, c_q c0 !! j
     = if decide (j = 0%nat)
       then (fun x => Kq (q_keys x) (memcpy (q_ctr x) (c_aes_counter c) AES_BLOCK_SIZE) KQINIT)
              <$> c_q c !! j
       else c_q c !! j).
  { intros j. unfold c0, upd. cbn [set_c_q c_q]. change (Z.to_nat 0) with 0%nat.
    destruct (decide (j = 0%nat)) as [->|].
    - now rewrite list_lookup_alter_eq.
    - now rewrite list_lookup_alter_ne. }
  assert (Hiv : c_aes_counter c0 = c_aes_counter c) by reflexivity.
  pose proof Hwf as (Hl & Hq & Hc & _).
  unfold MAX_NUMKQ, MAX_THREADS in *.
  cbn [set_c_ridx set_c_qidx c_q].
  split; [|split; [|split; [|split]]].
  - rewrite H1. now destruct c.
  - rewrite H2. unfold c0, upd. cbn [set_c_q c_q]. now rewrite length_alter.
  - destruct (wf_ctx_lookup c 0 Hwf) as (x & Hx & Hwx);
      [unfold MAX_NUMKQ, MAX_THREADS; lia|].
    exists x. split; [done|]. rewrite H3, Hq0, Hx.
    destruct (decide (1 <= 0 <= _)%nat); [lia|]. cbn.
    rewrite memcpy_all; [done|apply Hwx|done].
  - intros j Hj1 Hj2.
    destruct (wf_ctx_lookup c j Hwf) as (x & Hx & Hwx);
      [unfold MAX_NUMKQ, MAX_THREADS; lia|].
    exists x. split; [done|]. rewrite H3, Hq0, Hx, Hiv.
    destruct (decide (1 <= j <= _)%nat); [|lia].
    destruct (decide (j = 0%nat)); [lia|]. cbn [fmap option_fmap option_map].
    rewrite seed_kq_spec; [done|apply Hwx|done|unfold MAX_NUMKQ, MAX_THREADS; lia].
  - intros j Hj. rewrite H3, Hq0.
    destruct (decide (1 <= j <= _)%nat); [lia|].
    destruct (decide (j = 0%nat)); [lia|done].
Qed.

(** ** Stopping and starting the pool *)

Lemma log_log es1 es2 w : log es2 (log es1 w) = log (es1 ++ es2) w.
Proof. unfold log. cbn. now rewrite app_assoc. Qed.

Lemma log_nil w : log [] w = w.
Proof. destruct w. unfold log. cbn. now rewrite app_nil_r. Qed.

Lemma foldl_join_thread ts w :
  foldl join_thread w ts
  = log (map EvJoin (joined (threads w) ts)) (set_threads (delete_all ts) w).
Proof.
  revert w. induction ts as [|t ts IH]; intros w.
  - cbn. now destruct w; unfold log; cbn; rewrite app_nil_r.
  - cbn [foldl joined]. rewrite IH. unfold join_thread.
    destruct (threads w !! t) as [p|] eqn:E.
    + cbn [map]. destruct w. unfold log, set_threads, delete_all. cbn.
      now rewrite <- app_assoc.
    + destruct w. unfold log, set_threads, delete_all in *. cbn in *.
      now rewrite delete_id.
Qed.

Lemma stop_and_join_spec c w :
  stop_and_join_pregen_threads c w
  = log (map EvCancel (pool_tids c w)
         ++ map EvJoin (joined (threads w) (pool_tids c w)))
        (set_threads (delete_all (pool_tids c w)) w).
Proof.
  unfold stop_and_join_pregen_threads. rewrite foldl_join_thread.
  destruct w. unfold log, set_threads. cbn. now rewrite <- app_assoc.
Qed.

Lemma delete_all_lookup ts (m : gmap Z producer) t :
  delete_all ts m !! t = if decide (t ∈ ts) then None else m !! t.
Proof.
  revert m. induction ts as [|u ts IH]; intros m.
  - cbn. destruct (decide _) as [H|]; [by apply elem_of_nil in H|done].
  - unfold delete_all in *. cbn [foldl]. rewrite IH.
    destruct (decide (t ∈ ts)) as [H|H].
    + rewrite decide_True by (now right). done.
    + destruct (decide (t = u)) as [->|Hne].
      * rewrite decide_True by (now left). apply lookup_delete_eq.
      * rewrite decide_False by (intros [?|?]%elem_of_cons; done).
        now apply lookup_delete_ne.
Qed.

(** When the listed threads are distinct and live, all of them are joined. *)
Lemma joined_all (m : gmap Z producer) ts :
  NoDup ts -> (forall t, t ∈ ts -> is_Some (m !! t)) -> joined m ts = ts.
Proof.
  revert m. induction ts as [|t ts IH]; intros m Hnd Hl; [done|].
  apply NoDup_cons in Hnd as [Hnt Hnd]. cbn [joined].
  destruct (Hl t) as [p ->]; [by left|].
  f_equal. apply IH; [done|]. intros u Hu.
  rewrite lookup_delete_ne by (intros ->; done).
  apply Hl. now right.
Qed.

Lemma spawn_thread_spec env a c w i :
  let st := spawn_thread env a (c, w) i in
  let ts := from_option (fun t => [t]) [] (ie_create env i) in
  st.1 = Ctx (c_struct_id st.1) (c_keylen c) (c_state c) (c_qidx c) (c_ridx c)
             (c_id st.1) (c_aes_key c) (c_orig_key c) (c_aes_counter c)
             (c_tid st.1) (c_q c)
  /\ length (c_id st.1) = length (c_id c)
  /\ length (c_tid st.1) = length (c_tid c)
  /\ st.2 = World (cipher_threads w) (numkq w) (X_counter st.2) (app_data w)
                  (key_length w) (heap w) (bufs w)
                  (insert_all a ts (threads w))
                  (events w ++ map EvCreate ts) (exited w).
Proof.
  unfold spawn_thread. cbn [fst snd].
  destruct (ie_create env i) as [t|]; cbn [from_option].
  - destruct (c_struct_id _ =? 0); destruct c, w; cbn; unfold upd;
      rewrite !length_alter; done.
  - destruct c, w; cbn. now rewrite app_nil_r.
Qed.

Lemma spawn_fold_spec env a l c w :
  let st := foldl (spawn_thread env a) (c, w) l in
  st.1 = Ctx (c_struct_id st.1) (c_keylen c) (c_state c) (c_qidx c) (c_ridx c)
             (c_id st.1) (c_aes_key c) (c_orig_key c) (c_aes_counter c)
             (c_tid st.1) (c_q c)
  /\ length (c_id st.1) = length (c_id c)
  /\ length (c_tid st.1) = length (c_tid c)
  /\ st.2 = World (cipher_threads w) (numkq w) (X_counter st.2) (app_data w)
                  (key_length w) (heap w) (bufs w)
                  (insert_all a (omap (ie_create env) l) (threads w))
                  (events w ++ map EvCreate (omap (ie_create env) l)) (exited w).
Proof.
  revert c w. induction l as [|i l IH]; intros c w.
  - cbn. destruct c, w; cbn. now rewrite app_nil_r.
  - cbn [foldl].
    pose proof (spawn_thread_spec env a c w i) as S1. cbn zeta in S1.
    destruct (spawn_thread env a (c, w) i) as [c1 w1].
    specialize (IH c1 w1). cbn zeta in IH |- *.
    destruct (foldl (spawn_thread env a) (c1, w1) l) as [c5 w5].
    cbn [fst snd] in *.
    destruct S1 as (S1 & S2 & S3 & S4). destruct IH as (I1 & I2 & I3 & I4).
    assert (Hl : omap (ie_create env) (i :: l)
                 = from_option (fun t => [t]) [] (ie_create env i)
                   ++ omap (ie_create env) l).
    { cbn. now destruct (ie_create env i). }
    rewrite Hl. clear Hl.
    split; [rewrite I1, S1; reflexivity|].
    split; [congruence|]. split; [congruence|].
    rewrite I4, S4. cbn. unfold insert_all. rewrite foldl_app, map_app, app_assoc.
    reflexivity.
Qed.

Lemma insert_all_lookup a ts (m : gmap Z producer) t :
  insert_all a ts m !! t = if decide (t ∈ ts) then Some (new_thread a) else m !! t.
Proof.
  revert m. induction ts as [|u ts IH]; intros m.
  - cbn. destruct (decide _) as [H|]; [by apply elem_of_nil in H|done].
  - unfold insert_all in *. cbn [foldl]. rewrite IH.
    destruct (decide (t ∈ ts)) as [H|H].
    + rewrite decide_True by (now right). done.
    + destruct (decide (t = u)) as [->|Hne].
      * rewrite decide_True by (now left). apply lookup_insert_eq.
      * rewrite decide_False by (intros [?|?]%elem_of_cons; done).
        now apply lookup_insert_ne.
Qed.

(** ** Sizing *)

Lemma size_pool_spec cpus w :
  let w' := size_pool cpus w in
  2 <= cipher_threads w' <= MAX_THREADS
  /\ numkq w' = 4 * cipher_threads w'
  /\ w' = set_pool (cipher_threads w') (numkq w') w.
Proof.
  unfold size_pool, MAX_NUMKQ, MAX_THREADS.
  set (t := detect_threads cpus (cipher_threads w)).
  destruct (t <? 2) eqn:E1.
  { cbn. repeat split; lia. }
  destruct (t >? 6) eqn:E2.
  { cbn. repeat split; lia. }
  apply Z.ltb_ge in E1. rewrite Z.gtb_ltb in E2. apply Z.ltb_ge in E2.
  destruct (t * 4 >? 6 * 4) eqn:E3.
  { rewrite Z.gtb_ltb in E3. apply Z.ltb_lt in E3. lia. }
  cbn. repeat split; lia.
Qed.

(** ** The init function *)

Lemma install_key_frame AESK key w c :
  let c' := install_key AESK key w c in
  c_aes_counter c' = c_aes_counter c /\ c_q c' = c_q c
  /\ c_tid c' = c_tid c /\ c_id c' = c_id c
  /\ c_state c' = (if key =? 0 then c_state c else Z.lor (c_state c) HAVE_KEY).
Proof. unfold install_key. destruct (key =? 0); cbn; done. Qed.

Lemma install_iv_frame iv c :
  let c' := install_iv iv c in
  c_q c' = c_q c /\ c_tid c' = c_tid c /\ c_id c' = c_id c
  /\ c_keylen c' = c_keylen c /\ c_orig_key c' = c_orig_key c
  /\ c_aes_key c' = c_aes_key c
  /\ c_state c' = (if bool_decide (iv = None) then c_state c
                  else Z.lor (c_state c) HAVE_IV)
  /\ c_aes_counter c'
     = from_option (fun v => memcpy (c_aes_counter c) v AES_BLOCK_SIZE)
                   (c_aes_counter c) iv.
Proof. unfold install_iv. destruct iv; cbn; done. Qed.

Lemma wf_ctx_fields c c' :
  c_q c' = c_q c -> length (c_aes_counter c') = length (c_aes_counter c) ->
  length (c_tid c') = length (c_tid c) -> length (c_id c') = length (c_id c) ->
  wf_ctx c -> wf_ctx c'.
Proof.
  intros H1 H2 H3 H4 (W1 & W2 & W3 & W4 & W5).
  unfold wf_ctx. rewrite H1, H2, H3, H4. done.
Qed.

Lemma install_wf AESK key iv w c :
  (forall v, iv = Some v -> length v = 16%nat) ->
  wf_ctx c -> wf_ctx (install_iv iv (install_key AESK key w c)).
Proof.
  intros Hiv Hwf.
  destruct (install_key_frame AESK key w c) as (K1 & K2 & K3 & K4 & _).
  destruct (install_iv_frame iv (install_key AESK key w c))
    as (I1 & I2 & I3 & _ & _ & _ & _ & I4).
  apply (wf_ctx_fields c); try congruence.
  rewrite I4, K1. destruct iv as [v|]; cbn; [|done].
  destruct Hwf as (_ & _ & Hc & _).
  rewrite memcpy_all; [rewrite Hc; now apply Hiv|done|now apply Hiv].
Qed.

Lemma at_lookup {A} `{Inhabited A} (l : list A) (i : Z) x :
  l !! Z.to_nat i = Some x -> at_ l i = x.
Proof. intros E. unfold at_. now rewrite list_lookup_total_alt, E. Qed.

(** The context the call operates on: allocated now, or found attached. *)
Lemma init_context_wf env w0 :
  let w1 := size_pool (ie_cpus env) w0 in
  let w2 :=
    if app_data w1 =? 0
    then set_app_data (ie_malloc env)
           (set_heap (<[ie_malloc env := set_c_state HAVE_NONE (ie_uninit env)]>) w1)
    else w1 in
  wf_ctx (ie_uninit env) -> attached_ok (app_data w0) (heap w0) ->
  exists c, heap w2 !! app_data w2 = Some c /\ wf_ctx c
    /\ (app_data w0 = 0 ->
         c = set_c_state HAVE_NONE (ie_uninit env) /\ app_data w2 = ie_malloc env)
    /\ (app_data w0 <> 0 -> heap w0 !! app_data w0 = Some c /\ w2 = w1).
Proof.
  cbn zeta. intros Hu Hh.
  destruct (size_pool_spec (ie_cpus env) w0) as (_ & _ & ->).
  cbn [set_pool app_data heap].
  destruct (app_data w0 =? 0) eqn:E; cbn [set_app_data set_heap app_data heap].
  - apply Z.eqb_eq in E. eexists. split; [apply lookup_insert_eq|].
    split; [apply (wf_ctx_fields (ie_uninit env)); done|]. split; [done|lia].
  - apply Z.eqb_neq in E. destruct Hh as [?|(c & Hc & Hwf)]; [done|].
    exists c. split; [done|]. split; [done|]. split; [lia|done].
Qed.

(** C5.  Whenever a call of the init function leaves the context with both
    key and IV present, which is when it goes on to start the pool, the
    ring is seeded first: the counter of queue 0 is the IV and queue 0 is
    [KQINIT]; for every other index [i] below [numkq], the counter of queue
    [i] is the IV plus [i * KQLEN] as a 16-byte big-endian integer modulo
    [2^128] and queue [i] is [KQEMPTY]; the queue index and the read index
    of the consumer are zero; and every producer the call has created is
    still at the start of its thread function. *)
Theorem ssh_aes_ctr_init_seeds AESK env key iv w0 :
  wf_ctx (ie_uninit env) -> attached_ok (app_data w0) (heap w0) ->
  (forall v, iv = Some v -> length v = 16%nat) ->
  exists st w' c',
    ssh_aes_ctr_init AESK env key iv w0 = Ok st w'
    /\ heap w' !! app_data w' = Some c'
    /\ (st = Waiting <-> c_state c' = Z.lor HAVE_KEY HAVE_IV)
    /\ (forall v, iv = Some v -> c_aes_counter c' = v)
    /\ (st = Waiting ->
        q_ctr (at_ (c_q c') 0) = c_aes_counter c'
        /\ q_qstate (at_ (c_q c') 0) = KQINIT
        /\ (forall i, 1 <= i < numkq w' ->
              length (q_ctr (at_ (c_q c') i)) = 16%nat
              /\ be_value (q_ctr (at_ (c_q c') i))
                 = (be_value (c_aes_counter c') + i * KQLEN) mod 2 ^ 128
              /\ q_qstate (at_ (c_q c') i) = KQEMPTY)
        /\ c_qidx c' = 0 /\ c_ridx c' = 0
        /\ (forall t, t ∈ created env (cipher_threads w') ->
              threads w' !! t = Some (new_thread (app_data w')))).
Proof.
  intros Hu Hh Hiv. unfold ssh_aes_ctr_init.
  pose proof (init_context_wf env w0 Hu Hh) as Hwf. cbn zeta in Hwf.
  destruct (size_pool_spec (ie_cpus env) w0) as (Ht & Hn & _).
  set (w1 := size_pool (ie_cpus env) w0) in *.
  set (w2 := if app_data w1 =? 0 then _ else w1) in *.
  assert (Hw2 : numkq w2 = numkq w1 /\ cipher_threads w2 = cipher_threads w1).
  { unfold w2. destruct (app_data w1 =? 0); done. }
  destruct Hw2 as (Hn2 & Ht2).
  destruct Hwf as (c & Hc & Hwf & _). rewrite Hc.
  set (s := if c_state c =? Z.lor HAVE_KEY HAVE_IV then _ else (c, w2)).
  assert (Hs : wf_ctx s.1 /\ numkq s.2 = numkq w2
               /\ cipher_threads s.2 = cipher_threads w2
               /\ app_data s.2 = app_data w2).
  { unfold s. destruct (c_state c =? _); cbn [fst snd].
    - rewrite stop_and_join_spec. split; [|done].
      apply (wf_ctx_fields c); done.
    - done. }
  destruct Hs as (Hs1 & Hs2 & Hs3 & Hs4).
  pose proof (install_wf AESK key iv s.2 s.1 Hiv Hs1) as Hwf3.
  pose proof (install_iv_frame iv (install_key AESK key s.2 s.1))
    as (_ & _ & _ & _ & _ & _ & _ & Hctr).
  set (c3 := install_iv iv (install_key AESK key s.2 s.1)) in *.
  assert (Hivc : forall v, iv = Some v -> c_aes_counter c3 = v).
  { intros v ->. rewrite Hctr. cbn.
    destruct (install_key_frame AESK key s.2 s.1) as (K1 & _). rewrite K1.
    destruct Hs1 as (_ & _ & Hc1 & _).
    apply memcpy_all; [done|now apply Hiv]. }
  destruct (c_state c3 =? Z.lor HAVE_KEY HAVE_IV) eqn:E.
  - (* both present: seed and start *)
    apply Z.eqb_eq in E.
    assert (Hnk : 1 <= numkq s.2 <= MAX_NUMKQ)
      by (unfold MAX_NUMKQ, MAX_THREADS in *; lia).
    destruct (seed_ring_spec (numkq s.2) c3 Hwf3 Hnk) as (R1 & R2 & R3 & R4 & _).
    set (c4 := seed_ring (numkq s.2) c3) in *.
    destruct (spawn_fold_spec env (app_data w2) (seqZ 0 (cipher_threads s.2)) c4 s.2)
      as (P1 & _ & _ & P4).
    set (s5 := foldl _ (c4, s.2) _) in *.
    eexists _, _, s5.1. split; [reflexivity|].
    rewrite P4. cbn [set_heap heap app_data numkq cipher_threads threads].
    rewrite Hs4. split; [apply lookup_insert_eq|].
    assert (Hq : c_q s5.1 = c_q c4) by (now rewrite P1).
    assert (Hst : c_state s5.1 = c_state c3)
      by (rewrite P1, R1; reflexivity).
    assert (Hac : c_aes_counter s5.1 = c_aes_counter c3)
      by (rewrite P1, R1; reflexivity).
    split; [now rewrite Hst|]. split; [now rewrite Hac|].
    intros _. rewrite Hq, Hac.
    destruct R3 as (x0 & _ & R3).
    split; [now rewrite (at_lookup _ 0 _ R3)|].
    split; [now rewrite (at_lookup _ 0 _ R3)|].
    split; [|split; [now rewrite P1, R1|split; [now rewrite P1, R1|]]].
    + intros i Hi. destruct (R4 (Z.to_nat i)) as (x & _ & Hx); [lia|lia|].
      rewrite (at_lookup _ i _ Hx). cbn [q_ctr q_qstate].
      rewrite be_bytes_length, be_value_bytes, Z2Nat.id by lia. done.
    + intros t Hin. rewrite insert_all_lookup.
      unfold created in Hin. now rewrite decide_True.
  - (* not both: return at once *)
    apply Z.eqb_neq in E.
    eexists _, _, c3. split; [reflexivity|].
    cbn [set_heap heap app_data]. rewrite Hs4.
    split; [apply lookup_insert_eq|]. split; [split; [done|intros; done]|].
    split; [done|]. done.
Qed.

Lemma blank_ctx_wf : wf_ctx blank_ctx.
Proof.
  unfold wf_ctx, blank_ctx. cbn [c_q c_aes_counter c_tid c_id].
  rewrite !length_replicate. split; [done|]. split; [|done].
  apply Forall_replicate. unfold wf_kq, blank_kq. cbn [q_keys q_ctr].
  now rewrite length_replicate.
Qed.

Lemma ssh_aes_ctr_init_seeds_witness :
  (wf_ctx (ie_uninit example_env)
   /\ attached_ok (app_data (example_world 16 example_key))
                  (heap (example_world 16 example_key))
   /\ (forall v, Some example_iv = Some v -> length v = 16%nat))
  /\ exists st w' c',
    ssh_aes_ctr_init (fun _ _ => zero_bytes sizeof_AES_KEY) example_env 64
      (Some example_iv) (example_world 16 example_key) = Ok st w'
    /\ heap w' !! app_data w' = Some c'
    /\ (st = Waiting <-> c_state c' = Z.lor HAVE_KEY HAVE_IV)
    /\ (forall v, Some example_iv = Some v -> c_aes_counter c' = v)
    /\ (st = Waiting ->
        q_ctr (at_ (c_q c') 0) = c_aes_counter c'
        /\ q_qstate (at_ (c_q c') 0) = KQINIT
        /\ (forall i, 1 <= i < numkq w' ->
              length (q_ctr (at_ (c_q c') i)) = 16%nat
              /\ be_value (q_ctr (at_ (c_q c') i))
                 = (be_value (c_aes_counter c') + i * KQLEN) mod 2 ^ 128
              /\ q_qstate (at_ (c_q c') i) = KQEMPTY)
        /\ c_qidx c' = 0 /\ c_ridx c' = 0
        /\ (forall t, t ∈ created example_env (cipher_threads w') ->
              threads w' !! t = Some (new_thread (app_data w')))).
Proof.
  assert (H1 : wf_ctx (ie_uninit example_env)) by exact blank_ctx_wf.
  assert (H2 : attached_ok (app_data (example_world 16 example_key))
                           (heap (example_world 16 example_key)))
    by (left; reflexivity).
  assert (H3 : forall v, Some example_iv = Some v -> length v = 16%nat)
    by (intros v [= <-]; reflexivity).
  split; [split; [exact H1 | split; [exact H2 | exact H3]]|].
  exact (ssh_aes_ctr_init_seeds (fun _ _ => zero_bytes sizeof_AES_KEY) example_env 64
           (Some example_iv) (example_world 16 example_key) H1 H2 H3).
Defined.

(** C6.  On a context whose state flag records both key and IV, whose pool
    is the live pool that [c->tid[0 .. cipher_threads - 1]] records, a
    further call of the init function is a rekey and not an error: it
    returns success, at once or after the wait for queue 0.  The producers
    are cancelled and joined first; the state is reset to [HAVE_NONE]
    before the new key and IV are installed, so the flag afterwards records
    exactly what this call installs; and only when both are installed again
    is the ring seeded from the new IV and a new pool created, after the
    joins.  No producer of the old pool survives the call. *)
Theorem ssh_aes_ctr_init_rekey AESK env key iv w0 c :
  app_data w0 <> 0 -> heap w0 !! app_data w0 = Some c -> wf_ctx c ->
  c_state c = Z.lor HAVE_KEY HAVE_IV ->
  (forall v, iv = Some v -> length v = 16%nat) ->
  NoDup (pool_tids c (size_pool (ie_cpus env) w0)) ->
  (forall t, t ∈ pool_tids c (size_pool (ie_cpus env) w0) ->
     is_Some (threads w0 !! t)) ->
  (forall t p, threads w0 !! t = Some p -> p_c p = app_data w0 ->
     t ∈ pool_tids c (size_pool (ie_cpus env) w0)) ->
  exists st w' c',
    ssh_aes_ctr_init AESK env key iv w0 = Ok st w'
    /\ (st = Waiting \/ st = Returned 1)
    /\ app_data w' = app_data w0
    /\ heap w' !! app_data w' = Some c'
    /\ events w'
       = events w0
         ++ map EvCancel (pool_tids c (size_pool (ie_cpus env) w0))
         ++ map EvJoin (pool_tids c (size_pool (ie_cpus env) w0))
         ++ (if bool_decide (st = Waiting)
             then map EvCreate (created env (cipher_threads w')) else [])
    /\ c_state c'
       = Z.lor (if key =? 0 then HAVE_NONE else HAVE_KEY)
               (if bool_decide (iv = None) then HAVE_NONE else HAVE_IV)
    /\ (st = Waiting <-> key <> 0 /\ iv <> None)
    /\ (key <> 0 ->
        c_orig_key c' = key /\ c_keylen c' = CInt.int (key_length w0 * 8)
        /\ c_aes_key c' = AESK (deref w0 key) (CInt.int (key_length w0 * 8)))
    /\ (forall v, iv = Some v -> c_aes_counter c' = v)
    /\ (st = Waiting ->
        q_ctr (at_ (c_q c') 0) = c_aes_counter c'
        /\ q_qstate (at_ (c_q c') 0) = KQINIT
        /\ c_qidx c' = 0 /\ c_ridx c' = 0)
    /\ (forall t p, threads w' !! t = Some p -> p_c p = app_data w' ->
        st = Waiting /\ t ∈ created env (cipher_threads w')
        /\ p = new_thread (app_data w')).
Proof.
  intros Ha Hc Hwf Hst Hiv Hnd Hlive Hpool. unfold ssh_aes_ctr_init.
  destruct (size_pool_spec (ie_cpus env) w0) as (Ht & Hn & Hw1).
  set (w1 := size_pool (ie_cpus env) w0) in *.
  assert (E0 : (app_data w1 =? 0) = false)
    by (rewrite Hw1; cbn; now apply Z.eqb_neq).
  rewrite E0.
  assert (Hh1 : heap w1 !! app_data w1 = Some c) by (rewrite Hw1; exact Hc).
  rewrite Hh1, Hst, Z.eqb_refl. cbn [fst snd].
  rewrite stop_and_join_spec, (joined_all _ _ Hnd) by (rewrite Hw1; exact Hlive).
  set (ts := pool_tids c w1) in *.
  set (w3 := log _ (set_threads (delete_all ts) w1)).
  assert (F3 : app_data w3 = app_data w0 /\ numkq w3 = numkq w1
               /\ cipher_threads w3 = cipher_threads w1
               /\ key_length w3 = key_length w0 /\ bufs w3 = bufs w0
               /\ heap w3 = heap w0
               /\ events w3 = events w0 ++ map EvCancel ts ++ map EvJoin ts
               /\ threads w3 = delete_all ts (threads w0)).
  { unfold w3. rewrite Hw1. cbn. done. }
  destruct F3 as (F1 & F2 & F3 & F4 & F5 & F6 & F7 & F8).
  assert (Hwf0 : wf_ctx (set_c_state HAVE_NONE c))
    by (apply (wf_ctx_fields c); done).
  pose proof (install_wf AESK key iv w3 _ Hiv Hwf0) as Hwf3.
  destruct (install_key_frame AESK key w3 (set_c_state HAVE_NONE c))
    as (K1 & K2 & K3 & K4 & K5).
  destruct (install_iv_frame iv (install_key AESK key w3 (set_c_state HAVE_NONE c)))
    as (I1 & I2 & I3 & I4 & I5 & I6 & I7 & I8).
  set (c2 := install_key AESK key w3 (set_c_state HAVE_NONE c)) in *.
  set (c3 := install_iv iv c2) in *.
  assert (Hs3 : c_state c3
     = Z.lor (if key =? 0 then HAVE_NONE else HAVE_KEY)
             (if bool_decide (iv = None) then HAVE_NONE else HAVE_IV)).
  { rewrite I7, K5. cbn [set_c_state c_state].
    destruct (key =? 0), (bool_decide (iv = None)); reflexivity. }
  assert (Hboth : c_state c3 = Z.lor HAVE_KEY HAVE_IV <-> key <> 0 /\ iv <> None).
  { rewrite Hs3. destruct (key =? 0) eqn:Ek, (bool_decide (iv = None)) eqn:Ei;
      [apply Z.eqb_eq in Ek | apply Z.eqb_eq in Ek
       | apply Z.eqb_neq in Ek | apply Z.eqb_neq in Ek];
      [apply bool_decide_eq_true in Ei | apply bool_decide_eq_false in Ei
       | apply bool_decide_eq_true in Ei | apply bool_decide_eq_false in Ei];
      cbn; split; try done; intros [? ?]; done. }
  assert (Hkey : key <> 0 ->
     c_orig_key c3 = key /\ c_keylen c3 = CInt.int (key_length w0 * 8)
     /\ c_aes_key c3 = AESK (deref w0 key) (CInt.int (key_length w0 * 8))).
  { intros Hk. rewrite I4, I5, I6. unfold c2, install_key.
    apply Z.eqb_neq in Hk. rewrite Hk. cbn. unfold deref. now rewrite F5. }
  assert (Hivc : forall v, iv = Some v -> c_aes_counter c3 = v).
  { intros v ->. rewrite I8, K1. cbn.
    destruct Hwf as (_ & _ & Hc1 & _). apply memcpy_all; [done|now apply Hiv]. }
  assert (Hold : forall t p, delete_all ts (threads w0) !! t = Some p ->
                   p_c p <> app_data w0).
  { intros t p. rewrite delete_all_lookup. destruct (decide (t ∈ ts)); [done|].
    intros Hp Hpc. eauto. }
  destruct (c_state c3 =? Z.lor HAVE_KEY HAVE_IV) eqn:E.
  - apply Z.eqb_eq in E.
    assert (Hnk : 1 <= numkq w3 <= MAX_NUMKQ)
      by (unfold MAX_NUMKQ, MAX_THREADS in *; lia).
    destruct (seed_ring_spec (numkq w3) c3 Hwf3 Hnk) as (R1 & R2 & R3 & _).
    set (c4 := seed_ring (numkq w3) c3) in *.
    destruct (spawn_fold_spec env (app_data w1) (seqZ 0 (cipher_threads w3)) c4 w3)
      as (P1 & _ & _ & P4).
    set (s5 := foldl _ (c4, w3) _) in *.
    assert (Hq : c_q s5.1 = c_q c4) by (now rewrite P1).
    assert (Q1 : c_state s5.1 = c_state c3 /\ c_aes_counter s5.1 = c_aes_counter c3
                 /\ c_orig_key s5.1 = c_orig_key c3 /\ c_keylen s5.1 = c_keylen c3
                 /\ c_aes_key s5.1 = c_aes_key c3
                 /\ c_qidx s5.1 = 0 /\ c_ridx s5.1 = 0)
      by (rewrite P1, R1; done).
    destruct Q1 as (Q1 & Q2 & Q3 & Q4 & Q5 & Q6 & Q7).
    eexists Waiting, _, s5.1. split; [reflexivity|].
    rewrite P4. cbn [set_heap heap app_data numkq cipher_threads threads events].
    rewrite F1, F3, F7, F8. rewrite Hw1 at 1. cbn [set_pool app_data].
    split; [now left|]. split; [done|].
    split; [apply lookup_insert_eq|].
    split; [rewrite bool_decide_eq_true_2 by done; now rewrite <- !app_assoc|].
    split; [now rewrite Q1|]. split; [split; [intros _; now apply Hboth|done]|].
    split; [rewrite Q3, Q4, Q5; exact Hkey|].
    split; [rewrite Q2; exact Hivc|].
    split.
    { intros _. rewrite Hq, Q2. destruct R3 as (x0 & _ & R3).
      rewrite (at_lookup _ 0 _ R3). done. }
    intros t p. rewrite insert_all_lookup. fold (created env (cipher_threads w1)).
    destruct (decide (t ∈ created env (cipher_threads w1))) as [Hin|Hnin].
    + intros [= <-] _. done.
    + intros Hp Hpc. now apply Hold in Hp.
  - apply Z.eqb_neq in E.
    eexists (Returned 1), _, c3. split; [reflexivity|].
    cbn [set_heap heap app_data events threads].
    rewrite F1, F7, F8. rewrite Hw1 at 1. cbn [set_pool app_data].
    split; [now right|]. split; [done|].
    split; [apply lookup_insert_eq|].
    split; [rewrite bool_decide_eq_false_2 by done; now rewrite app_nil_r|].
    split; [done|].
    split; [split; [done|intros H; now apply Hboth in H]|].
    split; [exact Hkey|]. split; [exact Hivc|]. split; [done|].
    intros t p Hp Hpc. now apply Hold in Hp.
Qed.

Lemma keyed_pool key :
  pool_tids keyed_ctx (size_pool (ie_cpus smt_env) (keyed_world key)) = [100; 101].
Proof. reflexivity. Qed.

Lemma keyed_ctx_wf : wf_ctx keyed_ctx.
Proof. apply (wf_ctx_fields blank_ctx); try reflexivity. apply blank_ctx_wf. Qed.

Lemma ssh_aes_ctr_init_rekey_witness :
  exists st w' c',
    ssh_aes_ctr_init (fun _ _ => zero_bytes sizeof_AES_KEY) smt_env 64
      (Some example_iv) (keyed_world example_key) = Ok st w'
    /\ (st = Waiting \/ st = Returned 1)
    /\ app_data w' = 4096
    /\ heap w' !! app_data w' = Some c'.
Proof.
  assert (H1 : app_data (keyed_world example_key) <> 0) by (cbn; lia).
  assert (H2 : heap (keyed_world example_key) !! app_data (keyed_world example_key)
               = Some keyed_ctx) by apply lookup_singleton_eq.
  assert (H3 : c_state keyed_ctx = Z.lor HAVE_KEY HAVE_IV) by reflexivity.
  assert (H4 : forall v, Some example_iv = Some v -> length v = 16%nat)
    by (intros v [= <-]; reflexivity).
  assert (H5 : NoDup (pool_tids keyed_ctx
                        (size_pool (ie_cpus smt_env) (keyed_world example_key)))).
  { rewrite keyed_pool. apply NoDup_cons. split; [|apply NoDup_singleton].
    intros H%list_elem_of_singleton. lia. }
  assert (H6 : forall t, t ∈ pool_tids keyed_ctx
                   (size_pool (ie_cpus smt_env) (keyed_world example_key)) ->
                 is_Some (threads (keyed_world example_key) !! t)).
  { rewrite keyed_pool. intros t Ht. cbn [keyed_world threads].
    apply elem_of_cons in Ht as [->|Ht].
    - rewrite lookup_insert_eq. eauto.
    - apply list_elem_of_singleton in Ht as ->.
      rewrite lookup_insert_ne by lia. rewrite lookup_singleton_eq. eauto. }
  assert (H7 : forall t p, threads (keyed_world example_key) !! t = Some p ->
                 p_c p = app_data (keyed_world example_key) ->
                 t ∈ pool_tids keyed_ctx
                   (size_pool (ie_cpus smt_env) (keyed_world example_key))).
  { rewrite keyed_pool. intros t p Hp _. cbn [keyed_world threads] in Hp.
    destruct (decide (t = 100)) as [->|N1]; [by left|].
    rewrite lookup_insert_ne in Hp by done.
    destruct (decide (t = 101)) as [->|N2]; [right; by left|].
    rewrite lookup_singleton_ne in Hp by done. done. }
  destruct (ssh_aes_ctr_init_rekey (fun _ _ => zero_bytes sizeof_AES_KEY) smt_env 64
              (Some example_iv) (keyed_world example_key) keyed_ctx
              H1 H2 keyed_ctx_wf H3 H4 H5 H6 H7)
    as (st & w' & c' & E1 & E2 & E3 & E4 & _).
  exists st, w', c'. repeat split; assumption.
Defined.

(** ** The cleanup function *)

Lemma cleanup_detached w :
  app_data w = 0 -> ssh_aes_ctr_cleanup w = Ok 1 w.
Proof. intros H. unfold ssh_aes_ctr_cleanup. now rewrite H. Qed.

Lemma cleanup_attached w c :
  app_data w <> 0 -> heap w !! app_data w = Some c ->
  ssh_aes_ctr_cleanup w
  = Ok 1 (World (cipher_threads w) (numkq w) (X_counter w) 0 (key_length w)
                (delete (app_data w) (heap w)) (bufs w)
                (delete_all (pool_tids c w) (threads w))
                (events w ++ map EvCancel (pool_tids c w)
                 ++ map EvJoin (joined (threads w) (pool_tids c w))
                 ++ [EvFree (app_data w) (memset_zero c)])
                (exited w)).
Proof.
  intros Ha Hc. unfold ssh_aes_ctr_cleanup.
  apply Z.eqb_neq in Ha. rewrite Ha, Hc, stop_and_join_spec.
  destruct w. unfold log, set_heap, set_app_data, set_threads. cbn.
  now rewrite <- !app_assoc.
Qed.

Lemma zero_uchars_zero l : Forall (eq x00) (zero_uchars l).
Proof. unfold zero_uchars. induction l; cbn; constructor; done. Qed.

Lemma secret_bytes_wiped c : Forall (eq x00) (secret_bytes (memset_zero c)).
Proof.
  unfold secret_bytes, memset_zero. cbn [c_aes_key c_aes_counter c_q].
  rewrite !Forall_app. split; [apply zero_uchars_zero|].
  split; [apply zero_uchars_zero|].
  rewrite map_map. apply Forall_concat, Forall_map, Forall_forall. intros x _.
  cbn [zero_kq q_keys q_ctr].
  rewrite Forall_app. split; [|apply zero_uchars_zero].
  apply Forall_concat, Forall_map, Forall_forall. intros b _.
  apply zero_uchars_zero.
Qed.

(** C7.  The cleanup function returns success whenever the pointer attached
    to the cipher context is null or points to a live context struct, and
    it is idempotent: with nothing attached it changes nothing; with a
    context attached it releases that one block once and detaches the
    pointer, so that a second call finds nothing attached, frees nothing
    and returns success again. *)
Theorem ssh_aes_ctr_cleanup_idempotent (w : world) :
  (app_data w <> 0 -> is_Some (heap w !! app_data w)) ->
  exists w1,
    ssh_aes_ctr_cleanup w = Ok 1 w1
    /\ app_data w1 = 0
    /\ (app_data w = 0 -> w1 = w)
    /\ (forall c, app_data w <> 0 -> heap w !! app_data w = Some c ->
          heap w1 = delete (app_data w) (heap w)
          /\ events w1
             = events w ++ map EvCancel (pool_tids c w)
               ++ map EvJoin (joined (threads w) (pool_tids c w))
               ++ [EvFree (app_data w) (memset_zero c)])
    /\ ssh_aes_ctr_cleanup w1 = Ok 1 w1.
Proof.
  intros Hok. destruct (decide (app_data w = 0)) as [E|E].
  - exists w. rewrite (cleanup_detached w E). repeat split; try done.
  - destruct (Hok E) as [c Hc]. rewrite (cleanup_attached w c E Hc).
    eexists. split; [reflexivity|]. cbn [app_data heap events].
    split; [done|]. split; [done|]. split.
    + intros c' _ Hc'. rewrite Hc in Hc'. injection Hc' as <-. done.
    + now apply cleanup_detached.
Qed.

Lemma ssh_aes_ctr_cleanup_idempotent_witness :
  (app_data (keyed_world example_key) <> 0 ->
   is_Some (heap (keyed_world example_key) !! app_data (keyed_world example_key)))
  /\ exists w1,
    ssh_aes_ctr_cleanup (keyed_world example_key) = Ok 1 w1
    /\ app_data w1 = 0
    /\ ssh_aes_ctr_cleanup w1 = Ok 1 w1.
Proof.
  assert (H : app_data (keyed_world example_key) <> 0 ->
              is_Some (heap (keyed_world example_key)
                         !! app_data (keyed_world example_key))).
  { intros _. exists keyed_ctx. apply lookup_singleton_eq. }
  split; [exact H|].
  destruct (ssh_aes_ctr_cleanup_idempotent (keyed_world example_key) H)
    as (w1 & E1 & E2 & _ & _ & E3).
  exists w1. repeat split; assumption.
Defined.

(** C8, as the code has it.  With a context attached, the cleanup function
    cancels and joins the producers, then sets every byte of the context
    struct to zero, and only then releases it: at the release the expanded
    key schedule, the counter and every keystream block and counter of
    every queue are zero, and so is the pointer to the caller's key.  The
    key bytes that pointer referred to are memory of the caller, reached
    through a pointer to [const]: the cleanup does not touch them. *)
Theorem ssh_aes_ctr_cleanup_wipes (w : world) (c : ssh_aes_ctr_ctx_mt) :
  app_data w <> 0 -> heap w !! app_data w = Some c ->
  exists w1,
    ssh_aes_ctr_cleanup w = Ok 1 w1
    /\ events w1
       = events w ++ map EvCancel (pool_tids c w)
         ++ map EvJoin (joined (threads w) (pool_tids c w))
         ++ [EvFree (app_data w) (memset_zero c)]
    /\ (forall t, t ∈ pool_tids c w -> threads w1 !! t = None)
    /\ Forall (eq x00) (secret_bytes (memset_zero c))
    /\ c_orig_key (memset_zero c) = 0
    /\ heap w1 !! app_data w = None
    /\ bufs w1 = bufs w.
Proof.
  intros Ha Hc. rewrite (cleanup_attached w c Ha Hc).
  eexists. split; [reflexivity|]. cbn [events threads heap bufs].
  split; [done|]. split.
  { intros t Ht. rewrite delete_all_lookup. now rewrite decide_True. }
  split; [apply secret_bytes_wiped|]. split; [done|].
  split; [apply lookup_delete_eq|done].
Qed.

Lemma ssh_aes_ctr_cleanup_wipes_witness :
  (app_data (keyed_world example_key) <> 0
   /\ heap (keyed_world example_key) !! app_data (keyed_world example_key)
      = Some keyed_ctx)
  /\ exists w1,
    ssh_aes_ctr_cleanup (keyed_world example_key) = Ok 1 w1
    /\ Forall (eq x00) (secret_bytes (memset_zero keyed_ctx))
    /\ heap w1 !! app_data (keyed_world example_key) = None
    /\ bufs w1 = bufs (keyed_world example_key).
Proof.
  assert (H1 : app_data (keyed_world example_key) <> 0) by (cbn; lia).
  assert (H2 : heap (keyed_world example_key) !! app_data (keyed_world example_key)
               = Some keyed_ctx) by apply lookup_singleton_eq.
  split; [split; assumption|].
  destruct (ssh_aes_ctr_cleanup_wipes (keyed_world example_key) keyed_ctx H1 H2)
    as (w1 & E1 & _ & _ & E2 & _ & E3 & E4).
  exists w1. repeat split; assumption.
Defined.

(** C8, as stated, fails: after the cleanup of a context whose key pointer
    refers to the sixteen key bytes 01 .. 01 at address 64, those bytes are
    still there. *)
Lemma ssh_aes_ctr_cleanup_keeps_key_bytes :
  exists w1,
    ssh_aes_ctr_cleanup (keyed_world example_key) = Ok 1 w1
    /\ c_orig_key keyed_ctx = 64
    /\ deref w1 64 = replicate 16 x01
    /\ ~ Forall (eq x00) (deref w1 (c_orig_key keyed_ctx)).
Proof.
  assert (H1 : app_data (keyed_world example_key) <> 0) by (cbn; lia).
  assert (H2 : heap (keyed_world example_key) !! app_data (keyed_world example_key)
               = Some keyed_ctx) by apply lookup_singleton_eq.
  rewrite (cleanup_attached _ _ H1 H2). eexists. split; [reflexivity|].
  split; [reflexivity|].
  assert (E : deref (World (cipher_threads (keyed_world example_key))
                 (numkq (keyed_world example_key))
                 (X_counter (keyed_world example_key)) 0
                 (key_length (keyed_world example_key))
                 (delete (app_data (keyed_world example_key))
                         (heap (keyed_world example_key)))
                 (bufs (keyed_world example_key))
                 (delete_all (pool_tids keyed_ctx (keyed_world example_key))
                             (threads (keyed_world example_key)))
                 (events (keyed_world example_key)
                  ++ map EvCancel (pool_tids keyed_ctx (keyed_world example_key))
                  ++ map EvJoin (joined (threads (keyed_world example_key))
                                   (pool_tids keyed_ctx (keyed_world example_key)))
                  ++ [EvFree (app_data (keyed_world example_key))
                             (memset_zero keyed_ctx)])
                 (exited (keyed_world example_key))) 64 = replicate 16 x01).
  { unfold deref. cbn [bufs keyed_world]. now rewrite lookup_singleton_eq. }
  split; [exact E|].
  change (c_orig_key keyed_ctx) with 64. rewrite E.
  intros H. apply Forall_cons in H as [H _]. discriminate H.
Qed.

(** ** Steps of the producers *)

Section Steps.

Variable AES_encrypt : list u_char -> list u_char -> list u_char.
Variable pf : platform.

(** What a step of a producer can change: the context it works on, its own
    registers, and the exit status of the process. *)
Lemma thread_step_frame t w w' :
  thread_loop_step AES_encrypt t w = Some w' ->
  exited w = None
  /\ exists p, threads w !! t = Some p
     /\ is_Some (heap w !! p_c p)
     /\ (forall a, a <> p_c p -> heap w' !! a = heap w !! a)
     /\ (forall u, u <> t -> threads w' !! u = threads w !! u)
     /\ (threads w' !! t = Some p \/ exists p', threads w' !! t = Some p' /\ p_c p' = p_c p)
     /\ cipher_threads w' = cipher_threads w /\ numkq w' = numkq w
     /\ app_data w' = app_data w /\ bufs w' = bufs w
     /\ (exited w' = None \/ exited w' = Some 1).
Proof.
  unfold thread_loop_step. intros H.
  destruct (exited w) eqn:Ex; [done|]. split; [done|].
  destruct (threads w !! t) as [p|] eqn:Et; [|done]. exists p. split; [done|].
  destruct (heap w !! p_c p) as [c|] eqn:Ec; [|done]. split; [eauto|].
  destruct (p_pc p).
  - destruct (keylen_supported _).
    + apply (inj Some) in H; subst w'. cbn [set_threads set_heap heap threads cipher_threads numkq
                               app_data bufs exited].
      split; [intros a Ha; now rewrite lookup_insert_ne|].
      split; [intros u Hu; now rewrite lookup_insert_ne|].
      split; [right; eexists; split; [apply lookup_insert_eq|done]|].
      rewrite Ex. repeat split; try done. now left.
    + apply (inj Some) in H; subst w'. cbn. split; [done|]. split; [done|].
      split; [now left|]. repeat split; try done. now right.
  - destruct (_ || _); [done|]. destruct (negb _).
    + apply (inj Some) in H; subst w'. cbn [set_threads set_heap heap threads cipher_threads numkq
                               app_data bufs exited].
      split; [done|].
      split; [intros u Hu; now rewrite lookup_insert_ne|].
      split; [right; eexists; split; [apply lookup_insert_eq|done]|].
      rewrite Ex. repeat split; try done. now left.
    + apply (inj Some) in H; subst w'. cbn [set_threads set_heap heap threads cipher_threads numkq
                               app_data bufs exited].
      split; [intros a Ha; now rewrite lookup_insert_ne|].
      split; [intros u Hu; now rewrite lookup_insert_ne|].
      split; [right; eexists; split; [apply lookup_insert_eq|done]|].
      rewrite Ex. repeat split; try done. now left.
  - apply (inj Some) in H; subst w'. cbn [set_threads set_heap heap threads cipher_threads numkq
                             app_data bufs exited].
    split; [intros a Ha; now rewrite lookup_insert_ne|].
    split; [intros u Hu; now rewrite lookup_insert_ne|].
    split; [right; eexists; split; [apply lookup_insert_eq|done]|].
    rewrite Ex. repeat split; try done. now left.
Qed.

(** A producer that finds an unsupported key length exits the process. *)
Lemma thread_start_bad_keylen t w p c :
  exited w = None -> threads w !! t = Some p -> heap w !! p_c p = Some c ->
  p_pc p = PStart -> keylen_supported (c_keylen c) = false ->
  thread_loop_step AES_encrypt t w = Some (set_exited (Some 1) w).
Proof.
  intros Ex Et Ec Epc Ek. unfold thread_loop_step.
  now rewrite Ex, Et, Ec, Epc, Ek.
Qed.

Lemma stuck_in_init_step a s s' :
  stuck_in_init a s -> step AES_encrypt pf s s' -> stuck_in_init a s'.
Proof.
  intros (K1 & K2 & K3 & Kx & c & Hc & Hk & Hq & Hth) Hstep.
  destruct Hstep as [t w w' k Hs | w k w' k' Hs]; cbn [fst snd] in *.
  - pose proof Hs as Hs'.
    apply thread_step_frame in Hs
      as (Ex & p & Et & _ & Hheap & Hothers & Hself & _ & _ & _ & _ & Hex).
    destruct (decide (p_c p = a)) as [Epa|Npa].
    + (* a producer of this context: it is at its start and exits *)
      pose proof (Hth t p Et Epa) as Epc.
      assert (Hc' : heap w !! p_c p = Some c) by (now rewrite Epa).
      rewrite (thread_start_bad_keylen t w p c Ex Et Hc' Epc Hk) in Hs'.
      apply (inj Some) in Hs'; subst w'. cbn [set_exited heap threads exited fst snd].
      unfold stuck_in_init. cbn [fst snd set_exited heap threads exited].
      split; [done|]. split; [done|]. split; [done|]. split; [now right|].
      exists c. repeat split; done.
    + unfold stuck_in_init. cbn [fst snd].
      split; [done|]. split; [done|]. split; [done|]. split; [done|].
      exists c. rewrite Hheap by done. repeat split; try done.
      intros u pu Hu Hpu. destruct (decide (u = t)) as [->|Nut].
      * destruct Hself as [Hself|(p' & Hself & Hp')]; rewrite Hself in Hu;
          injection Hu as <-; congruence.
      * rewrite Hothers in Hu by done. eauto.
  - unfold ssh_aes_ctr_step in Hs.
    destruct (exited w); [done|]. rewrite K3, Hc, K1 in Hs.
    apply Z.eqb_eq in Hq. now rewrite Hq in Hs.
Qed.

Lemma stuck_in_init_steps a s s' :
  stuck_in_init a s -> steps AES_encrypt pf s s' -> stuck_in_init a s'.
Proof.
  intros H Hs. induction Hs as [|s1 s2 s3 H12 _ IH]; [done|].
  apply IH. eapply stuck_in_init_step; eauto.
Qed.

End Steps.

(** * The growable byte buffer *)

Section SshbufProps.

Variable K : sshbuf_consts.
Variable segv_returns : bool.
Hypothesis HK : consts_ok K.

Lemma sshbuf_insane_false b :
  sshbuf_insane K (Some b) = false <->
  (sb_readonly b = 0 -> sb_d b = sb_cd b)
  /\ 1 <= sb_refcount b <= SSHBUF_REFS_MAX K
  /\ sb_cd b <> 0
  /\ sb_max_size b <= SSHBUF_SIZE_MAX K
  /\ sb_alloc b <= sb_max_size b
  /\ sb_size b <= sb_alloc b
  /\ sb_off b <= sb_size b.
Proof.
  unfold sshbuf_insane. rewrite !orb_false_iff, andb_false_iff, negb_false_iff.
  rewrite !Z.gtb_ltb, !Z.ltb_ge, !Z.eqb_neq, Z.eqb_eq.
  split.
  - intros (((((((H1 & H2) & H3) & H4) & H5) & H6) & H7) & H8).
    repeat split; lia.
  - intros (H1 & H2 & H3 & H4 & H5 & H6 & H7).
    repeat split; lia.
Qed.

Lemma sshbuf_ok_sane b :
  sshbuf_ok K b -> sshbuf_check_sanity K segv_returns (Some b) = SbRet 0.
Proof. intros (H & _). unfold sshbuf_check_sanity. now rewrite H. Qed.

(** The sizes of a buffer that satisfies the invariant. *)
Lemma sshbuf_ok_bounds b :
  sshbuf_ok K b ->
  0 <= sb_off b <= sb_size b /\ sb_size b <= sb_alloc b
  /\ sb_alloc b <= sb_max_size b /\ sb_max_size b <= SSHBUF_SIZE_MAX K
  /\ SSHBUF_SIZE_MAX K < 4611686018427387904
  /\ Z.of_nat (length (sb_mem b)) = sb_alloc b
  /\ 1 <= sb_refcount b
  /\ 0 <= sb_window_max b < 4611686018427387904.
Proof.
  intros (H & Hm & Ho & Hw). apply sshbuf_insane_false in H.
  destruct HK as (_ & Hmax & _).
  change (2 ^ 62) with 4611686018427387904 in *. lia.
Qed.

Lemma size_t_id z : 0 <= z < 18446744073709551616 -> CInt.size_t z = z.
Proof. intros H. apply size_t_small. change (2 ^ 64) with 18446744073709551616. lia. Qed.

Lemma load_length m off n :
  0 <= off -> 0 <= n -> off + n <= Z.of_nat (length m) ->
  length (load m off n) = Z.to_nat n.
Proof. intros. unfold load. rewrite length_take, length_drop. lia. Qed.

Lemma sshbuf_data_length b :
  sshbuf_ok K b -> Z.of_nat (length (sshbuf_data b)) = sb_size b - sb_off b.
Proof.
  intros H. pose proof (sshbuf_ok_bounds b H). unfold sshbuf_data.
  rewrite load_length; lia.
Qed.

(** [sshbuf_len] of a buffer that satisfies the invariant is the number of
    visible bytes. *)
Lemma sshbuf_len_ok b :
  sshbuf_ok K b ->
  sshbuf_len K segv_returns (Some b) = SbRet (Z.of_nat (length (sshbuf_data b))).
Proof.
  intros H. pose proof (sshbuf_ok_bounds b H). unfold sshbuf_len.
  rewrite (sshbuf_ok_sane b H). cbn. rewrite size_t_id by lia.
  now rewrite sshbuf_data_length.
Qed.

(** Packing moves the visible bytes to the start of the block and changes
    nothing a reader sees. *)
Lemma sshbuf_maybe_pack_ok b force :
  sshbuf_ok K b ->
  let b' := sshbuf_maybe_pack K b force in
  sshbuf_ok K b'
  /\ sshbuf_data b' = sshbuf_data b
  /\ sb_size b' - sb_off b' = sb_size b - sb_off b
  /\ sb_size b' <= sb_size b
  /\ sb_alloc b' = sb_alloc b /\ sb_max_size b' = sb_max_size b
  /\ sb_readonly b' = sb_readonly b /\ sb_refcount b' = sb_refcount b
  /\ sb_window_max b' = sb_window_max b
  /\ sb_d b' = sb_d b /\ sb_cd b' = sb_cd b
  /\ (force = true -> sb_readonly b = 0 -> sb_refcount b <= 1 -> sb_off b' = 0).
Proof.
  intros H. pose proof (sshbuf_ok_bounds b H) as Hb. cbn zeta.
  unfold sshbuf_maybe_pack.
  destruct ((sb_off b =? 0) || negb (sb_readonly b =? 0) || (sb_refcount b >? 1)) eqn:E.
  { split; [done|]. split; [done|]. do 9 (split; [first [done|lia]|]).
    intros _ Hr Hc.
    apply orb_true_iff in E as [E|E]; [apply orb_true_iff in E as [E|E]|].
    - now apply Z.eqb_eq in E.
    - apply negb_true_iff, Z.eqb_neq in E. done.
    - rewrite Z.gtb_ltb in E. apply Z.ltb_lt in E. lia. }
  destruct (force || _) eqn:F.
  2:{ split; [done|]. split; [done|]. do 9 (split; [first [done|lia]|]).
      intros ->. done. }
  rewrite size_t_id by lia.
  cbn [set_sb_off set_sb_size set_sb_mem sb_off sb_size sb_mem sb_alloc sb_max_size
       sb_readonly sb_refcount sb_window_max sb_d sb_cd].
  assert (Hlen : length (load (sb_mem b) (sb_off b) (sb_size b - sb_off b))
                 = Z.to_nat (sb_size b - sb_off b)) by (apply load_length; lia).
  assert (Hst : length (store (sb_mem b) 0
                   (load (sb_mem b) (sb_off b) (sb_size b - sb_off b)))
                = length (sb_mem b)).
  { unfold store. rewrite !length_app, length_take, length_drop, Hlen. lia. }
  split; [|split; [|repeat split; try done; lia]].
  - destruct H as (Hs & Hm & Ho & Hw). split; [|split; [|split]].
    + apply sshbuf_insane_false. apply sshbuf_insane_false in Hs. cbn. lia.
    + cbn. rewrite Hst. lia.
    + cbn. lia.
    + cbn. lia.
  - unfold sshbuf_data.
    cbn [set_sb_off set_sb_size set_sb_mem sb_mem sb_off sb_size].
    rewrite Z.sub_0_r.
    unfold load at 1. unfold store. change (Z.to_nat 0) with 0%nat.
    rewrite take_0, drop_0. cbn [app].
    rewrite take_app_le by lia. rewrite take_ge by lia. done.
Qed.

Lemma load_drop m off n k :
  0 <= off -> 0 <= k <= n ->
  drop (Z.to_nat k) (load m off n) = load m (off + k) (n - k).
Proof.
  intros Ho Hk. unfold load.
  rewrite skipn_firstn_comm, drop_drop. f_equal; [lia|f_equal; lia].
Qed.

Lemma load_take m off n k :
  0 <= k <= n -> take (Z.to_nat k) (load m off n) = load m off k.
Proof.
  intros Hk. unfold load. rewrite take_take. f_equal. lia.
Qed.

Lemma load_nil m off : load m off 0 = [].
Proof. unfold load. now rewrite take_0. Qed.

(** What [sshbuf_consume] returns and leaves on a buffer that satisfies
    the invariant. *)
Lemma sshbuf_consume_result (b : sshbuf) (len : Z) :
  sshbuf_ok K b -> 0 <= len < 2 ^ 64 ->
  exists r b',
    sshbuf_consume K segv_returns (Some b) len = SbRet (r, Some b')
    /\ (len <= Z.of_nat (length (sshbuf_data b)) ->
        r = 0 /\ sshbuf_data b' = drop (Z.to_nat len) (sshbuf_data b)
        /\ sshbuf_ok K b' /\ sb_max_size b' = sb_max_size b)
    /\ (Z.of_nat (length (sshbuf_data b)) < len ->
        r = SSH_ERR_MESSAGE_INCOMPLETE K /\ b' = b).
Proof.
  intros Hok Hlen. change (2 ^ 64) with 18446744073709551616 in Hlen.
  pose proof (sshbuf_ok_bounds b Hok) as Hb.
  pose proof (sshbuf_data_length b Hok) as Hd.
  unfold sshbuf_consume. rewrite (sshbuf_ok_sane b Hok). cbn [sb_bind Z.eqb negb].
  destruct (len =? 0) eqn:E0.
  { apply Z.eqb_eq in E0. subst len. exists 0, b. split; [done|]. split; [|lia].
    intros _. change (Z.to_nat 0) with 0%nat. now rewrite drop_0. }
  apply Z.eqb_neq in E0. rewrite (sshbuf_len_ok b Hok). cbn [sb_bind].
  rewrite Z.gtb_ltb. destruct (_ <? len) eqn:El.
  { apply Z.ltb_lt in El. exists (SSH_ERR_MESSAGE_INCOMPLETE K), b.
    split; [done|]. split; [lia|done]. }
  apply Z.ltb_ge in El. rewrite size_t_id by lia.
  cbn [set_sb_off sb_off sb_size].
  destruct Hok as (Hs & Hm & Ho & Hw). pose proof Hs as Hs'.
  apply sshbuf_insane_false in Hs'.
  destruct (sb_off b + len =? sb_size b) eqn:Ee.
  - apply Z.eqb_eq in Ee. eexists 0, _. split; [reflexivity|]. split; [|lia].
    intros _. split; [done|]. split; [|split; [|done]].
    + unfold sshbuf_data at 1. cbn. rewrite load_nil.
      rewrite drop_ge; [done|lia].
    + split; [|cbn; lia]. apply sshbuf_insane_false. cbn. lia.
  - apply Z.eqb_neq in Ee. eexists 0, _. split; [reflexivity|]. split; [|lia].
    intros _. split; [done|]. split; [|split; [|done]].
    + unfold sshbuf_data. cbn. rewrite load_drop by lia. f_equal; lia.
    + split; [|cbn; lia]. apply sshbuf_insane_false. cbn. lia.
Qed.

(** X1.  Consuming [len] bytes from the front of a buffer that satisfies
    the invariant: when at least [len] bytes are visible the call returns 0,
    the reader now sees the former bytes without their first [len], and the
    invariant still holds; otherwise the call returns
    [SSH_ERR_MESSAGE_INCOMPLETE] and leaves the buffer as it was.  The
    process is not killed. *)
Theorem sshbuf_consume_spec (b : sshbuf) (len : Z) :
  sshbuf_ok K b -> 0 <= len < 2 ^ 64 ->
  exists r b',
    sshbuf_consume K segv_returns (Some b) len = SbRet (r, Some b')
    /\ (len <= Z.of_nat (length (sshbuf_data b)) ->
        r = 0 /\ sshbuf_data b' = drop (Z.to_nat len) (sshbuf_data b)
        /\ sshbuf_ok K b' /\ sb_max_size b' = sb_max_size b)
    /\ (Z.of_nat (length (sshbuf_data b)) < len ->
        r = SSH_ERR_MESSAGE_INCOMPLETE K /\ b' = b).
Proof. exact (sshbuf_consume_result b len). Qed.

(** What [sshbuf_consume_end] returns and leaves on a buffer that satisfies
    the invariant. *)
Lemma sshbuf_consume_end_result (b : sshbuf) (len : Z) :
  sshbuf_ok K b -> 0 <= len < 2 ^ 64 ->
  exists r b',
    sshbuf_consume_end K segv_returns (Some b) len = SbRet (r, Some b')
    /\ (len <= Z.of_nat (length (sshbuf_data b)) ->
        r = 0
        /\ sshbuf_data b'
           = take (length (sshbuf_data b) - Z.to_nat len) (sshbuf_data b)
        /\ sshbuf_ok K b' /\ sb_max_size b' = sb_max_size b)
    /\ (Z.of_nat (length (sshbuf_data b)) < len ->
        r = SSH_ERR_MESSAGE_INCOMPLETE K /\ b' = b).
Proof.
  intros Hok Hlen. change (2 ^ 64) with 18446744073709551616 in Hlen.
  pose proof (sshbuf_ok_bounds b Hok) as Hb.
  pose proof (sshbuf_data_length b Hok) as Hd.
  unfold sshbuf_consume_end. rewrite (sshbuf_ok_sane b Hok). cbn [sb_bind Z.eqb negb].
  destruct (len =? 0) eqn:E0.
  { apply Z.eqb_eq in E0. subst len. exists 0, b. split; [done|]. split; [|lia].
    intros _. change (Z.to_nat 0) with 0%nat.
    rewrite Nat.sub_0_r, firstn_all. done. }
  apply Z.eqb_neq in E0. rewrite (sshbuf_len_ok b Hok). cbn [sb_bind].
  rewrite Z.gtb_ltb. destruct (_ <? len) eqn:El.
  { apply Z.ltb_lt in El. exists (SSH_ERR_MESSAGE_INCOMPLETE K), b.
    split; [done|]. split; [lia|done]. }
  apply Z.ltb_ge in El. rewrite size_t_id by lia.
  destruct Hok as (Hs & Hm & Ho & Hw). pose proof Hs as Hs'.
  apply sshbuf_insane_false in Hs'.
  eexists 0, _. split; [reflexivity|]. split; [|lia].
  intros _. split; [done|]. split; [|split; [|done]].
  - unfold sshbuf_data. cbn.
    replace (length (load (sb_mem b) (sb_off b) (sb_size b - sb_off b)) - Z.to_nat len)%nat
      with (Z.to_nat (sb_size b - len - sb_off b))
      by (unfold sshbuf_data in Hd; lia).
    rewrite load_take by lia. done.
  - split; [|cbn; lia]. apply sshbuf_insane_false. cbn. lia.
Qed.

(** X2.  Consuming [len] bytes from the end: with at least [len] bytes
    visible the call returns 0 and the reader sees the former bytes without
    their last [len]; otherwise it returns [SSH_ERR_MESSAGE_INCOMPLETE] and
    leaves the buffer as it was. *)
Theorem sshbuf_consume_end_spec (b : sshbuf) (len : Z) :
  sshbuf_ok K b -> 0 <= len < 2 ^ 64 ->
  exists r b',
    sshbuf_consume_end K segv_returns (Some b) len = SbRet (r, Some b')
    /\ (len <= Z.of_nat (length (sshbuf_data b)) ->
        r = 0
        /\ sshbuf_data b'
           = take (length (sshbuf_data b) - Z.to_nat len) (sshbuf_data b)
        /\ sshbuf_ok K b' /\ sb_max_size b' = sb_max_size b)
    /\ (Z.of_nat (length (sshbuf_data b)) < len ->
        r = SSH_ERR_MESSAGE_INCOMPLETE K /\ b' = b).
Proof. exact (sshbuf_consume_end_result b len). Qed.

Lemma load_app m off n k :
  0 <= n -> 0 <= k -> 0 <= off ->
  load m off (n + k) = load m off n ++ load m (off + n) k.
Proof.
  intros Hn Hk Ho. unfold load.
  replace (Z.to_nat (n + k)) with (Z.to_nat n + Z.to_nat k)%nat by lia.
  rewrite <- (take_drop (Z.to_nat n) (take (Z.to_nat n + Z.to_nat k) _)).
  rewrite take_take, Nat.min_l by lia. f_equal.
  rewrite skipn_firstn_comm, drop_drop.
  f_equal; [lia|f_equal; lia].
Qed.

Lemma load_app_l m1 m2 off n :
  0 <= off -> 0 <= n -> off + n <= Z.of_nat (length m1) ->
  load (m1 ++ m2) off n = load m1 off n.
Proof.
  intros Ho Hn Hl. unfold load. rewrite drop_app_le by lia.
  rewrite take_app_le; [done|]. rewrite length_drop. lia.
Qed.

Lemma sshbuf_check_reserve_ok b len :
  sshbuf_ok K b -> 0 <= len < 2 ^ 64 ->
  sshbuf_check_reserve K segv_returns (Some b) len
  = SbRet (if negb (sb_readonly b =? 0) || (sb_refcount b >? 1)
           then SSH_ERR_BUFFER_READ_ONLY K
           else if len >? sshbuf_room b then SSH_ERR_NO_BUFFER_SPACE K else 0).
Proof.
  intros Hok Hlen. change (2 ^ 64) with 18446744073709551616 in Hlen.
  pose proof (sshbuf_ok_bounds b Hok) as Hb.
  unfold sshbuf_check_reserve, sshbuf_room.
  rewrite (sshbuf_ok_sane b Hok). cbn [sb_bind Z.eqb negb].
  destruct (negb _ || _); [done|]. f_equal.
  rewrite (size_t_id (sb_size b - sb_off b)) by lia.
  destruct (len >? sb_max_size b) eqn:E1.
  - rewrite Z.gtb_ltb in E1. apply Z.ltb_lt in E1. cbn [orb].
    destruct (len >? _) eqn:E2; [done|].
    rewrite Z.gtb_ltb in E2. apply Z.ltb_ge in E2. lia.
  - rewrite Z.gtb_ltb in E1. apply Z.ltb_ge in E1. cbn [orb].
    rewrite size_t_id by lia.
    destruct (_ <? _) eqn:E2, (len >? _) eqn:E3; try done;
      rewrite Z.gtb_ltb in E3;
      [apply Z.ltb_lt in E2; apply Z.ltb_ge in E3
      |apply Z.ltb_ge in E2; apply Z.ltb_lt in E3]; lia.
Qed.

Lemma writable_flags b :
  sshbuf_ok K b -> sshbuf_writable b ->
  negb (sb_readonly b =? 0) || (sb_refcount b >? 1) = false.
Proof.
  intros Hok (Hr & Hc). rewrite Hr, Z.gtb_ltb. cbn.
  apply Z.ltb_ge. lia.
Qed.

Lemma not_writable_flags b :
  sshbuf_ok K b -> ~ sshbuf_writable b ->
  negb (sb_readonly b =? 0) || (sb_refcount b >? 1) = true.
Proof.
  intros Hok Hn. destruct (negb _ || _) eqn:E; [done|].
  apply orb_false_iff in E as (E1 & E2).
  apply negb_false_iff, Z.eqb_eq in E1.
  rewrite Z.gtb_ltb in E2. apply Z.ltb_ge in E2.
  destruct Hn. split; done.
Qed.

(** What [sshbuf_allocate] does to a writable buffer when the request fits
    under the size limit. *)
Lemma sshbuf_allocate_fits b len dp :
  sshbuf_ok K b -> sshbuf_writable b -> 0 <= len <= sshbuf_room b ->
  hint_covers b len ->
  exists r b',
    sshbuf_allocate K segv_returns (Some b) len dp = SbRet (r, Some b')
    /\ sshbuf_ok K b' /\ sshbuf_writable b'
    /\ sshbuf_data b' = sshbuf_data b
    /\ sb_size b' - sb_off b' = sb_size b - sb_off b
    /\ sb_max_size b' = sb_max_size b
    /\ sb_window_max b' = sb_window_max b
    /\ sb_alloc b <= sb_alloc b'
    /\ ((r = 0 /\ sb_size b' + len <= sb_alloc b')
        \/ (r = SSH_ERR_ALLOC_FAIL K /\ dp = 0))
    /\ (dp <> 0 -> r = 0).
Proof.
  intros Hok Hw Hlen Hint.
  pose proof (sshbuf_ok_bounds b Hok) as Hb. unfold sshbuf_room in Hlen.
  assert (Hlen64 : 0 <= len < 2 ^ 64)
    by (change (2 ^ 64) with 18446744073709551616; lia).
  unfold sshbuf_allocate. rewrite (sshbuf_check_reserve_ok b len Hok Hlen64).
  rewrite (writable_flags b Hok Hw).
  assert (E : (len >? sshbuf_room b) = false)
    by (rewrite Z.gtb_ltb; apply Z.ltb_ge; unfold sshbuf_room; lia).
  rewrite E. cbn [sb_bind Z.eqb negb].
  rewrite (size_t_id (sb_size b + len)) by lia.
  set (force := sb_size b + len >? sb_max_size b).
  destruct (sshbuf_maybe_pack_ok b force Hok)
    as (Hok1 & Hd1 & Hl1 & Hs1 & Ha1 & Hm1 & Hr1 & Hc1 & Hw1 & Hdd & Hcd & Hf1).
  set (b1 := sshbuf_maybe_pack K b force) in *.
  pose proof (sshbuf_ok_bounds b1 Hok1) as Hb1.
  assert (Hwr1 : sshbuf_writable b1) by (unfold sshbuf_writable; rewrite Hr1, Hc1; exact Hw).
  assert (HT : len + sb_size b1 <= sb_max_size b1).
  { destruct force eqn:F.
    - rewrite (Hf1 eq_refl (proj1 Hw) (proj2 Hw)) in Hl1. lia.
    - unfold force in F. rewrite Z.gtb_ltb in F. apply Z.ltb_ge in F. lia. }
  rewrite (size_t_id (len + sb_size b1)) by lia.
  destruct (len + sb_size b1 <=? sb_alloc b1) eqn:Efit.
  { apply Z.leb_le in Efit. exists 0, b1.
    do 8 (split; [first [done|lia]|]). split; [left; split; [done|lia]|done]. }
  apply Z.leb_gt in Efit.
  rewrite (size_t_id (len + sb_size b1 - sb_alloc b1)) by lia.
  replace (sb_alloc b1 + (len + sb_size b1 - sb_alloc b1)) with (len + sb_size b1) by lia.
  rewrite (size_t_id (len + sb_size b1)) by lia.
  destruct HK as (HI & HM & HINC & _ & _ & HR & _ & HAF & _ & _ & _).
  change (2 ^ 62) with 4611686018427387904 in *.
  pose proof (HR (len + sb_size b1) (SSHBUF_SIZE_INC K) ltac:(lia) ltac:(lia)) as Hr0.
  set (rlen := ROUNDUP K (len + sb_size b1) (SSHBUF_SIZE_INC K)) in *.
  set (hint := (rlen >? BUF_WATERSHED) && negb (sb_window_max b1 =? 0)
               && (sb_alloc b1 <? sb_window_max b1)).
  set (need1 := if hint then sb_window_max b1 else len + sb_size b1 - sb_alloc b1).
  assert (Hn1 : 0 <= sb_alloc b1 + need1 < 9223372036854775808
                /\ (hint = true -> len + sb_size b1 <= sb_alloc b1 + need1)
                /\ (hint = false -> sb_alloc b1 + need1 = len + sb_size b1)).
  { unfold need1. destruct hint eqn:Eh.
    - split; [lia|]. split; [|done]. intros _.
      unfold hint in Eh. apply andb_true_iff in Eh as (Eh & _).
      apply andb_true_iff in Eh as (_ & Eh).
      apply negb_true_iff, Z.eqb_neq in Eh.
      destruct Hint as [Hz|Hle]; [rewrite Hw1 in Eh; done|].
      rewrite Hw1. lia.
    - split; [lia|]. split; [done|]. intros _. lia. }
  destruct Hn1 as (Hn1 & Hn2 & Hn3).
  rewrite (size_t_id (sb_alloc b1 + need1)) by lia.
  pose proof (HR (sb_alloc b1 + need1) (SSHBUF_SIZE_INC K) ltac:(lia) ltac:(lia)) as Hr1'.
  set (r1 := ROUNDUP K (sb_alloc b1 + need1) (SSHBUF_SIZE_INC K)) in *.
  set (rlen1 := if hint then if r1 >? sb_max_size b1 then sb_max_size b1 else r1
                else rlen).
  set (rlen2 := if rlen1 >? sb_max_size b1 then sb_alloc b1 + need1 else rlen1).
  assert (Hrl : len + sb_size b1 <= rlen2 <= sb_max_size b1).
  { unfold rlen2, rlen1. destruct hint eqn:Eh.
    - specialize (Hn2 eq_refl).
      destruct (r1 >? sb_max_size b1) eqn:E1; rewrite Z.gtb_ltb in E1.
      + apply Z.ltb_lt in E1.
        destruct (sb_max_size b1 >? sb_max_size b1) eqn:E2;
          rewrite Z.gtb_ltb in E2; [apply Z.ltb_lt in E2; lia|lia].
      + apply Z.ltb_ge in E1.
        destruct (r1 >? sb_max_size b1) eqn:E2;
          rewrite Z.gtb_ltb in E2; [apply Z.ltb_lt in E2; lia|lia].
    - specialize (Hn3 eq_refl).
      destruct (rlen >? sb_max_size b1) eqn:E1; rewrite Z.gtb_ltb in E1;
        [apply Z.ltb_lt in E1|apply Z.ltb_ge in E1]; lia. }
  unfold recallocarray. destruct (dp =? 0) eqn:Edp.
  { apply Z.eqb_eq in Edp. exists (SSH_ERR_ALLOC_FAIL K), b1.
    do 8 (split; [first [done|lia]|]). split; [right; done|done]. }
  apply Z.eqb_neq in Edp.
  set (b2 := set_sb_store dp _ rlen2 b1).
  assert (Hmem2 : sb_mem b2 = sb_mem b1 ++ zero_bytes (rlen2 - sb_alloc b1)).
  { unfold b2. cbn. rewrite take_ge by lia. done. }
  assert (Hok2 : sshbuf_ok K b2).
  { destruct Hok1 as (Hs & Hm & Ho & Hww). apply sshbuf_insane_false in Hs.
    split; [|split; [|split]].
    - apply sshbuf_insane_false. unfold b2. cbn. lia.
    - rewrite Hmem2, length_app. unfold zero_bytes. rewrite length_replicate.
      unfold b2. cbn. lia.
    - unfold b2. cbn. lia.
    - unfold b2. cbn. change (2 ^ 62) with 4611686018427387904 in Hww. lia. }
  assert (Hwr2 : sshbuf_writable b2) by exact Hwr1.
  rewrite (sshbuf_check_reserve_ok b2 len Hok2 Hlen64).
  rewrite (writable_flags b2 Hok2 Hwr2).
  assert (E2 : (len >? sshbuf_room b2) = false).
  { rewrite Z.gtb_ltb. apply Z.ltb_ge. unfold sshbuf_room, b2. cbn. lia. }
  rewrite E2. cbn [sb_bind Z.ltb Z.compare].
  exists 0, b2. split; [done|]. split; [done|]. split; [done|].
  split.
  { rewrite <- Hd1. unfold sshbuf_data. rewrite Hmem2.
    unfold b2. cbn [set_sb_store sb_off sb_size]. apply load_app_l; lia. }
  unfold b2. cbn [set_sb_store sb_off sb_size sb_max_size sb_window_max sb_alloc].
  do 4 (split; [first [done|lia]|]). split; [left; split; [done|lia]|done].
Qed.

(** What [sshbuf_reserve] returns and leaves on a writable buffer. *)
Lemma sshbuf_reserve_result (b : sshbuf) (len dp : Z) :
  sshbuf_ok K b -> sshbuf_writable b -> 0 <= len < 2 ^ 64 -> hint_covers b len ->
  (sshbuf_room b < len ->
   sshbuf_reserve K segv_returns (Some b) len dp
   = SbRet (SSH_ERR_NO_BUFFER_SPACE K, Some b, 0))
  /\ (len <= sshbuf_room b ->
      exists r b' p,
        sshbuf_reserve K segv_returns (Some b) len dp = SbRet (r, Some b', p)
        /\ sshbuf_ok K b' /\ sb_max_size b' = sb_max_size b
        /\ (dp <> 0 -> r = 0)
        /\ (r = 0 ->
            exists fresh,
              sshbuf_data b' = sshbuf_data b ++ fresh
              /\ Z.of_nat (length fresh) = len
              /\ p = sb_d b' + sb_size b' - len)
        /\ (r <> 0 ->
            r = SSH_ERR_ALLOC_FAIL K /\ dp = 0 /\ p = 0
            /\ sshbuf_data b' = sshbuf_data b)).
Proof.
  intros Hok Hw Hlen Hint. split.
  - intros Hroom. unfold sshbuf_reserve, sshbuf_allocate.
    rewrite (sshbuf_check_reserve_ok b len Hok Hlen), (writable_flags b Hok Hw).
    assert (E : (len >? sshbuf_room b) = true)
      by (rewrite Z.gtb_ltb; apply Z.ltb_lt; lia).
    rewrite E. cbn [sb_bind].
    destruct HK as (_ & _ & _ & _ & _ & _ & _ & _ & _ & HNS & _).
    destruct (SSH_ERR_NO_BUFFER_SPACE K =? 0) eqn:E0;
      [apply Z.eqb_eq in E0; lia|]. cbn. now rewrite E0.
  - intros Hroom.
    destruct (sshbuf_allocate_fits b len dp Hok Hw ltac:(lia) Hint)
      as (r & b1 & Ha & Hok1 & Hw1 & Hd1 & Hl1 & Hm1 & Hwm1 & Hal1 & Hr & Hdp).
    pose proof (sshbuf_ok_bounds b1 Hok1) as Hb1.
    unfold sshbuf_reserve. rewrite Ha. cbn [sb_bind fst snd].
    destruct HK as (_ & _ & _ & _ & _ & _ & _ & HAF & _).
    destruct Hr as [(-> & Hfit)|(-> & ->)].
    + cbn [Z.eqb negb]. rewrite size_t_id by lia.
      eexists 0, _, _. split; [reflexivity|].
      destruct Hok1 as (Hs & Hmm & Ho & Hww). pose proof Hs as Hs'.
      apply sshbuf_insane_false in Hs'.
      split; [|split; [done|split; [done|split; [|done]]]].
      * split; [|cbn; lia]. apply sshbuf_insane_false. cbn. lia.
      * intros _. exists (load (sb_mem b1) (sb_size b1) len).
        split; [|split].
        -- rewrite <- Hd1. unfold sshbuf_data. cbn [set_sb_size sb_mem sb_off sb_size].
           replace (sb_size b1 + len - sb_off b1) with (sb_size b1 - sb_off b1 + len) by lia.
           rewrite load_app by lia. do 2 f_equal. lia.
        -- rewrite load_length; lia.
        -- cbn. lia.
    + destruct (SSH_ERR_ALLOC_FAIL K =? 0) eqn:E0;
        [apply Z.eqb_eq in E0; lia|]. cbn [negb].
      eexists _, _, _. split; [reflexivity|].
      split; [done|]. split; [done|]. split; [done|].
      split; [intros; lia|]. intros _. done.
Qed.


(** X4.  A read-only buffer, or one that other buffers refer to, is never
    grown or resized: on such a buffer that satisfies the invariant,
    reserving, allocating and changing the size limit all return
    [SSH_ERR_BUFFER_READ_ONLY] and leave it as it was, and it offers neither
    room nor a pointer for writing. *)
Theorem sshbuf_read_only_refused (b : sshbuf) (len dp max_size : Z) :
  sshbuf_ok K b -> ~ sshbuf_writable b -> 0 <= len < 2 ^ 64 ->
  max_size <> sb_max_size b ->
  sshbuf_reserve K segv_returns (Some b) len dp
  = SbRet (SSH_ERR_BUFFER_READ_ONLY K, Some b, 0)
  /\ sshbuf_allocate K segv_returns (Some b) len dp
     = SbRet (SSH_ERR_BUFFER_READ_ONLY K, Some b)
  /\ sshbuf_set_max_size K segv_returns (Some b) max_size dp
     = SbRet (SSH_ERR_BUFFER_READ_ONLY K, Some b)
  /\ sshbuf_avail K segv_returns (Some b) = SbRet 0
  /\ sshbuf_mutable_ptr K segv_returns (Some b) = SbRet 0.
Proof.
  intros Hok Hnw Hlen Hmax.
  pose proof (not_writable_flags b Hok Hnw) as Hf.
  destruct HK as (_ & _ & _ & _ & _ & _ & _ & _ & _ & _ & HRO).
  assert (E0 : (SSH_ERR_BUFFER_READ_ONLY K =? 0) = false)
    by (apply Z.eqb_neq; lia).
  assert (Ha : sshbuf_allocate K segv_returns (Some b) len dp
               = SbRet (SSH_ERR_BUFFER_READ_ONLY K, Some b)).
  { unfold sshbuf_allocate.
    rewrite (sshbuf_check_reserve_ok b len Hok Hlen), Hf. cbn. now rewrite E0. }
  split; [|split; [done|split; [|split]]].
  - unfold sshbuf_reserve. rewrite Ha. cbn. now rewrite E0.
  - unfold sshbuf_set_max_size. rewrite (sshbuf_ok_sane b Hok).
    cbn [sb_bind Z.eqb negb]. apply Z.eqb_neq in Hmax. now rewrite Hmax, Hf.
  - unfold sshbuf_avail. rewrite (sshbuf_ok_sane b Hok). cbn [sb_bind Z.eqb negb].
    cbn [orb]. now rewrite Hf.
  - unfold sshbuf_mutable_ptr. rewrite (sshbuf_ok_sane b Hok).
    cbn [sb_bind Z.eqb negb]. cbn [orb]. now rewrite Hf.
Qed.


(** X6.  The growth hint can make [sshbuf_allocate] report success on a
    block that is too small.  For a writable buffer that satisfies the
    invariant and a request of [len] bytes that fits under the size limit:
    if the buffer has to grow past [BUF_WATERSHED], the hint [window_max]
    is above the current allocation, and the allocation grown by the hint
    and rounded up is still below what the data and the request need, then
    [sshbuf_reserve] returns 0 with [size] above [alloc]; the buffer it
    leaves fails the sanity check, and the next call on it raises
    [SIGSEGV]. *)
Theorem sshbuf_reserve_short_hint (b : sshbuf) (len dp : Z) :
  sshbuf_ok K b -> sshbuf_writable b -> dp <> 0 ->
  0 <= len <= sshbuf_room b ->
  BUF_WATERSHED < sb_size b - sb_off b + len ->
  sb_alloc b < sb_window_max b ->
  ROUNDUP K (sb_alloc b + sb_window_max b) (SSHBUF_SIZE_INC K)
  < sb_size b - sb_off b + len ->
  exists b' p,
    sshbuf_reserve K segv_returns (Some b) len dp = SbRet (0, Some b', p)
    /\ sb_alloc b' < sb_size b'
    /\ sshbuf_insane K (Some b') = true
    /\ sshbuf_len K segv_returns (Some b')
       = (if segv_returns then SbRet 0 else SbKilled).
Proof.
  intros Hok Hw Hdp Hlen Hws Hwm Hshort.
  pose proof (sshbuf_ok_bounds b Hok) as Hb. unfold sshbuf_room in Hlen.
  assert (Hlen64 : 0 <= len < 2 ^ 64)
    by (change (2 ^ 64) with 18446744073709551616; lia).
  unfold sshbuf_reserve, sshbuf_allocate.
  rewrite (sshbuf_check_reserve_ok b len Hok Hlen64).
  rewrite (writable_flags b Hok Hw).
  assert (E : (len >? sshbuf_room b) = false)
    by (rewrite Z.gtb_ltb; apply Z.ltb_ge; unfold sshbuf_room; lia).
  rewrite E. cbn [sb_bind Z.eqb negb].
  rewrite (size_t_id (sb_size b + len)) by lia.
  set (force := sb_size b + len >? sb_max_size b).
  destruct (sshbuf_maybe_pack_ok b force Hok)
    as (Hok1 & Hd1 & Hl1 & Hs1 & Ha1 & Hm1 & Hr1 & Hc1 & Hw1 & Hdd & Hcd & Hf1).
  set (b1 := sshbuf_maybe_pack K b force) in *.
  pose proof (sshbuf_ok_bounds b1 Hok1) as Hb1.
  assert (Hwr1 : sshbuf_writable b1)
    by (unfold sshbuf_writable; rewrite Hr1, Hc1; exact Hw).
  assert (HT : len + sb_size b1 <= sb_max_size b1).
  { destruct force eqn:F.
    - rewrite (Hf1 eq_refl (proj1 Hw) (proj2 Hw)) in Hl1. lia.
    - unfold force in F. rewrite Z.gtb_ltb in F. apply Z.ltb_ge in F. lia. }
  destruct HK as (HI & HM & HINC & _ & _ & HR & HIE & HAF & _ & _ & _).
  change (2 ^ 62) with 4611686018427387904 in *.
  pose proof (HR (sb_alloc b + sb_window_max b) (SSHBUF_SIZE_INC K)
                 ltac:(lia) ltac:(lia)) as Hr1'.
  rewrite (size_t_id (len + sb_size b1)) by lia.
  destruct (len + sb_size b1 <=? sb_alloc b1) eqn:Efit;
    [apply Z.leb_le in Efit; lia|]. clear Efit.
  rewrite (size_t_id (len + sb_size b1 - sb_alloc b1)) by lia.
  replace (sb_alloc b1 + (len + sb_size b1 - sb_alloc b1))
    with (len + sb_size b1) by lia.
  rewrite (size_t_id (len + sb_size b1)) by lia.
  pose proof (HR (len + sb_size b1) (SSHBUF_SIZE_INC K) ltac:(lia) ltac:(lia)) as Hr0.
  assert (Eh : (ROUNDUP K (len + sb_size b1) (SSHBUF_SIZE_INC K) >? BUF_WATERSHED)
               && negb (sb_window_max b1 =? 0)
               && (sb_alloc b1 <? sb_window_max b1) = true).
  { rewrite !andb_true_iff. split; [split|].
    - rewrite Z.gtb_ltb. apply Z.ltb_lt. lia.
    - apply negb_true_iff, Z.eqb_neq. lia.
    - apply Z.ltb_lt. lia. }
  rewrite Eh. rewrite Ha1, Hw1, Hm1.
  rewrite (size_t_id (sb_alloc b + sb_window_max b)) by lia.
  set (r1 := ROUNDUP K (sb_alloc b + sb_window_max b) (SSHBUF_SIZE_INC K)) in *.
  assert (E1 : (r1 >? sb_max_size b) = false)
    by (rewrite Z.gtb_ltb; apply Z.ltb_ge; lia).
  rewrite E1, E1.
  unfold recallocarray. apply Z.eqb_neq in Hdp. rewrite Hdp.
  set (b2 := set_sb_store dp _ r1 b1).
  assert (Hok2 : sshbuf_ok K b2).
  { destruct Hok1 as (Hs & Hm & Ho & Hww). apply sshbuf_insane_false in Hs.
    split; [|split; [|split]].
    - apply sshbuf_insane_false. apply Z.eqb_neq in Hdp. unfold b2. cbn. lia.
    - unfold b2. cbn. rewrite take_ge by lia. rewrite length_app.
      unfold zero_bytes. rewrite length_replicate. lia.
    - unfold b2. cbn. lia.
    - unfold b2. cbn. lia. }
  assert (Hwr2 : sshbuf_writable b2) by exact Hwr1.
  rewrite (sshbuf_check_reserve_ok b2 len Hok2 Hlen64).
  rewrite (writable_flags b2 Hok2 Hwr2).
  assert (E2 : (len >? sshbuf_room b2) = false).
  { rewrite Z.gtb_ltb. apply Z.ltb_ge. unfold sshbuf_room, b2. cbn. lia. }
  rewrite E2. cbn [sb_bind Z.ltb Z.compare fst snd Z.eqb negb].
  assert (Hs2 : sb_size b2 = sb_size b1) by done.
  rewrite (size_t_id (sb_size b2 + len)) by lia.
  eexists _, _. split; [reflexivity|].
  assert (Hbad : sb_alloc (set_sb_size (sb_size b2 + len) b2)
                 < sb_size (set_sb_size (sb_size b2 + len) b2))
    by (unfold b2; cbn; lia).
  assert (Hins : sshbuf_insane K (Some (set_sb_size (sb_size b2 + len) b2)) = true).
  { destruct (sshbuf_insane K _) eqn:Ei; [done|].
    apply sshbuf_insane_false in Ei. lia. }
  split; [exact Hbad|]. split; [exact Hins|].
  unfold sshbuf_len, sshbuf_check_sanity. rewrite Hins.
  destruct segv_returns; [|done]. cbn [sb_bind].
  destruct (SSH_ERR_INTERNAL_ERROR K =? 0) eqn:E0; [apply Z.eqb_eq in E0; lia|done].
Qed.

Lemma load_take_l m n off k :
  0 <= off -> 0 <= k -> off + k <= n -> n <= Z.of_nat (length m) ->
  load (take (Z.to_nat n) m) off k = load m off k.
Proof.
  intros Ho Hk Hn Hl.
  rewrite <- (take_drop (Z.to_nat n) m) at 2.
  symmetry. apply load_app_l; [done|done|]. rewrite length_take. lia.
Qed.

(** X7.  On a writable buffer that satisfies the invariant, the room
    [sshbuf_avail] reports and the length [sshbuf_len] reports add up to
    the size limit, without wrap-around, and [sshbuf_check_reserve] accepts
    a request exactly when it is at most the room reported, answering
    [SSH_ERR_NO_BUFFER_SPACE] otherwise. *)
Theorem sshbuf_avail_len (b : sshbuf) (len : Z) :
  sshbuf_ok K b -> sshbuf_writable b -> 0 <= len < 2 ^ 64 ->
  exists a l,
    sshbuf_avail K segv_returns (Some b) = SbRet a
    /\ sshbuf_len K segv_returns (Some b) = SbRet l
    /\ 0 <= a /\ 0 <= l /\ a + l = sb_max_size b
    /\ sshbuf_check_reserve K segv_returns (Some b) len
       = SbRet (if len <=? a then 0 else SSH_ERR_NO_BUFFER_SPACE K).
Proof.
  intros Hok Hw Hlen. pose proof (sshbuf_ok_bounds b Hok) as Hb.
  exists (sshbuf_room b), (sb_size b - sb_off b).
  split; [|split; [|split; [|split; [|split]]]].
  - unfold sshbuf_avail. rewrite (sshbuf_ok_sane b Hok).
    cbn [sb_bind Z.eqb negb]. cbn [orb]. rewrite (writable_flags b Hok Hw).
    unfold sshbuf_room. rewrite (size_t_id (sb_size b - sb_off b)) by lia.
    rewrite size_t_id by lia. done.
  - rewrite (sshbuf_len_ok b Hok), (sshbuf_data_length b Hok). done.
  - unfold sshbuf_room. lia.
  - lia.
  - unfold sshbuf_room. lia.
  - rewrite (sshbuf_check_reserve_ok b len Hok Hlen), (writable_flags b Hok Hw).
    rewrite Z.gtb_ltb, Z.leb_antisym. now destruct (_ <? _).
Qed.

(** The buffer [sshbuf_new] returns. *)
Lemma sshbuf_new_result (sp dp : Z) :
  (sp = 0 \/ dp = 0 -> sshbuf_new K sp dp = None)
  /\ (sp <> 0 -> dp <> 0 ->
      exists b,
        sshbuf_new K sp dp = Some b
        /\ sshbuf_ok K b /\ sshbuf_writable b
        /\ sshbuf_data b = []
        /\ sshbuf_room b = SSHBUF_SIZE_MAX K
        /\ sb_window_max b = 0
        /\ sb_alloc b = SSHBUF_SIZE_INIT K).
Proof.
  destruct HK as (HI & HM & _ & HRf & _).
  change (2 ^ 62) with 4611686018427387904 in *.
  split.
  - intros [->| ->]; unfold sshbuf_new; [done|].
    rewrite Z.eqb_refl. now destruct (sp =? 0).
  - intros Hsp Hdp. unfold sshbuf_new.
    apply Z.eqb_neq in Hsp, Hdp. rewrite Hsp, Hdp.
    apply Z.eqb_neq in Hdp.
    eexists. split; [reflexivity|].
    split; [|split; [|split; [|split; [|split]]]].
    + split; [|split; [|split]].
      * apply sshbuf_insane_false. cbn. lia.
      * cbn. unfold zero_bytes. rewrite length_replicate. lia.
      * cbn. lia.
      * cbn. lia.
    + split; cbn; lia.
    + unfold sshbuf_data. cbn. apply load_nil.
    + unfold sshbuf_room. cbn. lia.
    + done.
    + done.
Qed.

(** X8.  [sshbuf_new] returns no buffer when either allocation fails, and
    otherwise a buffer that satisfies the invariant, is writable, holds no
    data, has no growth hint and has the whole of [SSHBUF_SIZE_MAX] as
    room. *)
Theorem sshbuf_new_spec (sp dp : Z) :
  (sp = 0 \/ dp = 0 -> sshbuf_new K sp dp = None)
  /\ (sp <> 0 -> dp <> 0 ->
      exists b,
        sshbuf_new K sp dp = Some b
        /\ sshbuf_ok K b /\ sshbuf_writable b
        /\ sshbuf_data b = []
        /\ sshbuf_room b = SSHBUF_SIZE_MAX K
        /\ sb_window_max b = 0
        /\ sb_alloc b = SSHBUF_SIZE_INIT K).
Proof. exact (sshbuf_new_result sp dp). Qed.

(** What [sshbuf_set_max_size] returns and leaves on a writable buffer. *)
Lemma sshbuf_set_max_size_result (b : sshbuf) (max_size dp : Z) :
  sshbuf_ok K b -> sshbuf_writable b -> 0 <= max_size < 2 ^ 64 ->
  exists r b',
    sshbuf_set_max_size K segv_returns (Some b) max_size dp = SbRet (r, Some b')
    /\ sshbuf_ok K b' /\ sshbuf_writable b'
    /\ sshbuf_data b' = sshbuf_data b
    /\ (r = 0 -> sb_max_size b' = max_size)
    /\ (r <> 0 -> sb_max_size b' = sb_max_size b)
    /\ (SSHBUF_SIZE_MAX K < max_size \/ max_size < Z.of_nat (length (sshbuf_data b)) ->
        r = SSH_ERR_NO_BUFFER_SPACE K)
    /\ (Z.of_nat (length (sshbuf_data b)) < max_size <= SSHBUF_SIZE_MAX K ->
        max_size <> sb_size b -> dp <> 0 -> r = 0).
Proof.
  intros Hok Hw Hmax. pose proof (sshbuf_ok_bounds b Hok) as Hb.
  rewrite (sshbuf_data_length b Hok).
  destruct HK as (HI & HM & HINC & _ & _ & HR & HIE & HAF & _ & HNS & _).
  change (2 ^ 62) with 4611686018427387904 in *.
  unfold sshbuf_set_max_size. rewrite (sshbuf_ok_sane b Hok).
  cbn [sb_bind Z.eqb negb].
  destruct (max_size =? sb_max_size b) eqn:Eeq.
  { apply Z.eqb_eq in Eeq. exists 0, b.
    do 4 (split; [done|]). split; [done|]. split; [done|].
    split; [lia|done]. }
  apply Z.eqb_neq in Eeq. rewrite (writable_flags b Hok Hw).
  destruct (max_size >? SSHBUF_SIZE_MAX K) eqn:Ebig; rewrite Z.gtb_ltb in Ebig.
  { apply Z.ltb_lt in Ebig. exists (SSH_ERR_NO_BUFFER_SPACE K), b.
    do 4 (split; [done|]). split; [lia|]. split; [done|].
    split; [done|lia]. }
  apply Z.ltb_ge in Ebig.
  set (force := max_size <? sb_size b).
  destruct (sshbuf_maybe_pack_ok b force Hok)
    as (Hok1 & Hd1 & Hl1 & Hs1 & Ha1 & Hm1 & Hr1 & Hc1 & Hw1 & Hdd & Hcd & Hf1).
  set (b1 := sshbuf_maybe_pack K b force) in *.
  pose proof (sshbuf_ok_bounds b1 Hok1) as Hb1.
  assert (Hwr1 : sshbuf_writable b1)
    by (unfold sshbuf_writable; rewrite Hr1, Hc1; exact Hw).
  assert (HF : max_size < sb_size b -> sb_off b1 = 0).
  { intros Hlt. apply Hf1; [|apply Hw|apply Hw].
    unfold force. apply Z.ltb_lt. exact Hlt. }
  assert (HNF : sb_size b <= max_size -> sb_size b1 <= max_size) by lia.
  destruct ((max_size <? sb_alloc b1) && (max_size >? sb_size b1)) eqn:Ere.
  - apply andb_true_iff in Ere as (Ea & Es).
    apply Z.ltb_lt in Ea. rewrite Z.gtb_ltb in Es. apply Z.ltb_lt in Es.
    set (rlen0 := if sb_size b1 <? SSHBUF_SIZE_INIT K then SSHBUF_SIZE_INIT K
                  else ROUNDUP K (sb_size b1) (SSHBUF_SIZE_INC K)).
    assert (Hr0 : sb_size b1 <= rlen0).
    { unfold rlen0. destruct (sb_size b1 <? SSHBUF_SIZE_INIT K) eqn:E;
        [apply Z.ltb_lt in E; lia|].
      pose proof (HR (sb_size b1) (SSHBUF_SIZE_INC K) ltac:(lia) ltac:(lia)). lia. }
    set (rlen := if rlen0 >? max_size then max_size else rlen0).
    assert (Hrl : sb_size b1 <= rlen <= max_size).
    { unfold rlen. destruct (rlen0 >? max_size) eqn:E; rewrite Z.gtb_ltb in E;
        [apply Z.ltb_lt in E|apply Z.ltb_ge in E]; lia. }
    unfold recallocarray. destruct (dp =? 0) eqn:Edp.
    { apply Z.eqb_eq in Edp. exists (SSH_ERR_ALLOC_FAIL K), b1.
      do 4 (split; [done|]). split; [lia|]. split; [done|].
      split; [|intros; lia].
      intros [Hc|Hc]; [lia|]. destruct (Z_lt_le_dec max_size (sb_size b)) as [Hlt|Hge].
      - specialize (HF Hlt). lia.
      - lia. }
    apply Z.eqb_neq in Edp.
    set (b2 := set_sb_store dp _ rlen b1).
    assert (E2 : (max_size <? sb_alloc b2) = false)
      by (apply Z.ltb_ge; unfold b2; cbn; lia).
    rewrite E2. exists 0, (set_sb_max_size max_size b2).
    assert (Hmem2 : sb_mem b2 = take (Z.to_nat rlen) (sb_mem b1)).
    { unfold b2. cbn. unfold zero_bytes.
      replace (Z.to_nat (rlen - sb_alloc b1)) with 0%nat by lia.
      cbn. apply app_nil_r. }
    split; [done|]. split; [|split; [|split; [|split; [|split; [|split]]]]].
    + destruct Hok1 as (Hs & Hm & Ho & Hww). apply sshbuf_insane_false in Hs.
      split; [|split; [|split]].
      * apply sshbuf_insane_false. unfold b2. cbn. lia.
      * cbn [set_sb_max_size sb_mem sb_alloc]. rewrite Hmem2, length_take.
        unfold b2. cbn. lia.
      * unfold b2. cbn. lia.
      * unfold b2. cbn. lia.
    + exact Hwr1.
    + rewrite <- Hd1. unfold sshbuf_data.
      cbn [set_sb_max_size sb_mem sb_off sb_size]. rewrite Hmem2.
      unfold b2. cbn [set_sb_store sb_off sb_size].
      apply load_take_l; lia.
    + done.
    + done.
    + intros [Hc|Hc]; [lia|].
      destruct (Z_lt_le_dec max_size (sb_size b)) as [Hlt|Hge].
      * specialize (HF Hlt). lia.
      * lia.
    + done.
  - destruct (max_size <? sb_alloc b1) eqn:Ea.
    + apply Z.ltb_lt in Ea. cbn [andb] in Ere.
      rewrite Z.gtb_ltb in Ere. apply Z.ltb_ge in Ere.
      exists (SSH_ERR_NO_BUFFER_SPACE K), b1.
      do 4 (split; [done|]). split; [lia|]. split; [done|]. split; [done|].
      intros Hfit Hne _.
      destruct (Z_lt_le_dec max_size (sb_size b)) as [Hlt|Hge].
      * specialize (HF Hlt). lia.
      * assert (Hsz : sb_size b1 = sb_size b \/ sb_off b1 = 0).
        { unfold b1, sshbuf_maybe_pack.
          destruct (_ || _); [left; done|].
          destruct (_ || _); [right; done|left; done]. }
        destruct Hsz as [Hsz|Hsz]; lia.
    + apply Z.ltb_ge in Ea.
      exists 0, (set_sb_max_size max_size b1).
      split; [done|]. split; [|split; [|split; [|split; [|split; [|split]]]]].
      * destruct Hok1 as (Hs & Hm & Ho & Hww). apply sshbuf_insane_false in Hs.
        split; [|split; [|split]]; [|done|done|done].
        apply sshbuf_insane_false. cbn. lia.
      * exact Hwr1.
      * exact Hd1.
      * done.
      * done.
      * intros [Hc|Hc]; [lia|].
        destruct (Z_lt_le_dec max_size (sb_size b)) as [Hlt|Hge].
        -- specialize (HF Hlt). lia.
        -- lia.
      * done.
Qed.

(** X9.  Changing the size limit of a writable buffer that satisfies the
    invariant never loses data and never breaks the invariant, whatever
    the result.  The limit is the requested one after a result of 0 and
    the old one after any other.  A limit above [SSHBUF_SIZE_MAX] or below
    the length of the data is refused with [SSH_ERR_NO_BUFFER_SPACE]; a
    limit above the length of the data, other than the current [size], is
    accepted whenever the allocator succeeds. *)
Theorem sshbuf_set_max_size_spec (b : sshbuf) (max_size dp : Z) :
  sshbuf_ok K b -> sshbuf_writable b -> 0 <= max_size < 2 ^ 64 ->
  exists r b',
    sshbuf_set_max_size K segv_returns (Some b) max_size dp = SbRet (r, Some b')
    /\ sshbuf_ok K b' /\ sshbuf_writable b'
    /\ sshbuf_data b' = sshbuf_data b
    /\ (r = 0 -> sb_max_size b' = max_size)
    /\ (r <> 0 -> sb_max_size b' = sb_max_size b)
    /\ (SSHBUF_SIZE_MAX K < max_size \/ max_size < Z.of_nat (length (sshbuf_data b)) ->
        r = SSH_ERR_NO_BUFFER_SPACE K)
    /\ (Z.of_nat (length (sshbuf_data b)) < max_size <= SSHBUF_SIZE_MAX K ->
        max_size <> sb_size b -> dp <> 0 -> r = 0).
Proof. exact (sshbuf_set_max_size_result b max_size dp). Qed.

Lemma explicit_bzero_fits (m : list u_char) (n : Z) :
  n <= Z.of_nat (length m) ->
  explicit_bzero m n = Some (zero_bytes n ++ drop (Z.to_nat n) m).
Proof.
  intros Hn. unfold explicit_bzero.
  destruct (n <=? Z.of_nat (length m)) eqn:E; [done|].
  apply Z.leb_gt in E. lia.
Qed.

Lemma explicit_bzero_short (m : list u_char) (n : Z) :
  Z.of_nat (length m) < n -> explicit_bzero m n = None.
Proof.
  intros Hn. unfold explicit_bzero.
  destruct (n <=? Z.of_nat (length m)) eqn:E; [|done].
  apply Z.leb_le in E. lia.
Qed.

(** What [sshbuf_reset] leaves. *)
Lemma sshbuf_reset_result (b : sshbuf) (dp : Z) :
  sshbuf_ok K b -> SSHBUF_SIZE_INIT K <= sb_max_size b ->
  (sshbuf_writable b -> dp = 0 -> sb_alloc b < SSHBUF_SIZE_INIT K ->
   sshbuf_reset K segv_returns b dp = SbOverrun)
  /\ (~ sshbuf_writable b \/ dp <> 0 \/ SSHBUF_SIZE_INIT K <= sb_alloc b ->
      exists b',
        sshbuf_reset K segv_returns b dp = SbRet b'
        /\ sshbuf_ok K b' /\ sshbuf_data b' = []
        /\ sb_max_size b' = sb_max_size b
        /\ (~ sshbuf_writable b -> sb_mem b' = sb_mem b)
        /\ (sshbuf_writable b ->
            take (Z.to_nat (SSHBUF_SIZE_INIT K)) (sb_mem b')
            = zero_bytes (SSHBUF_SIZE_INIT K)
            /\ (dp <> 0 -> sb_mem b' = zero_bytes (SSHBUF_SIZE_INIT K))
            /\ (dp = 0 ->
                sb_alloc b' = sb_alloc b
                /\ drop (Z.to_nat (SSHBUF_SIZE_INIT K)) (sb_mem b')
                   = drop (Z.to_nat (SSHBUF_SIZE_INIT K)) (sb_mem b)))).
Proof.
  intros Hok Hmax. pose proof (sshbuf_ok_bounds b Hok) as Hb.
  destruct HK as (HI & HM & _).
  change (2 ^ 62) with 4611686018427387904 in *.
  pose proof Hok as (Hs & Hm & Ho & Hww). apply sshbuf_insane_false in Hs.
  split.
  { intros Hw -> Hal. unfold sshbuf_reset.
    rewrite (writable_flags b Hok Hw), (sshbuf_ok_sane b Hok). cbn [sb_bind].
    assert (Ea : negb (sb_alloc (set_sb_size 0 (set_sb_off 0 b)) =? SSHBUF_SIZE_INIT K)
                 = true) by (apply negb_true_iff, Z.eqb_neq; cbn; lia).
    rewrite Ea. unfold recallocarray. cbn [Z.eqb].
    rewrite explicit_bzero_short; [done|]. cbn. lia. }
  intros Hdp. unfold sshbuf_reset.
  destruct (negb (sb_readonly b =? 0) || (sb_refcount b >? 1)) eqn:Ef.
  { eexists. split; [reflexivity|].
    split; [|split; [|split; [done|split; [done|]]]].
    - split; [|split; [|split]]; [|done|cbn; lia|done].
      apply sshbuf_insane_false. cbn. lia.
    - unfold sshbuf_data. cbn. rewrite Z.sub_diag. apply load_nil.
    - intros Hw. rewrite (writable_flags b Hok Hw) in Ef. done. }
  rewrite (sshbuf_ok_sane b Hok). cbn [sb_bind].
  assert (Hnw : ~ ~ sshbuf_writable b).
  { intros Hn. rewrite (not_writable_flags b Hok Hn) in Ef. done. }
  set (b1 := set_sb_size 0 (set_sb_off 0 b)).
  assert (Hz : forall n : Z, 0 <= n ->
            take (Z.to_nat n) (zero_bytes n) = zero_bytes n).
  { intros n Hn. apply take_ge. unfold zero_bytes. rewrite length_replicate. lia. }
  destruct (negb (sb_alloc b1 =? SSHBUF_SIZE_INIT K)) eqn:Ea.
  - apply negb_true_iff, Z.eqb_neq in Ea. unfold recallocarray.
    destruct (dp =? 0) eqn:Edp.
    + apply Z.eqb_eq in Edp. destruct Hdp as [Hdp|[Hdp|Hal]]; [done|done|].
      assert (Hbz : explicit_bzero (sb_mem b1) (SSHBUF_SIZE_INIT K)
                    = Some (zero_bytes (SSHBUF_SIZE_INIT K)
                            ++ drop (Z.to_nat (SSHBUF_SIZE_INIT K)) (sb_mem b))).
      { apply explicit_bzero_fits. unfold b1. cbn. lia. }
      rewrite Hbz. eexists. split; [reflexivity|].
      split; [|split; [|split; [done|split; [intros Hn; destruct (Hnw Hn)|]]]].
      * split; [|split; [|split]]; [| |cbn; lia|done].
        -- apply sshbuf_insane_false. cbn. lia.
        -- cbn. rewrite length_app, length_drop. unfold zero_bytes.
           rewrite length_replicate. lia.
      * unfold sshbuf_data. cbn. apply load_nil.
      * intros _. cbn [set_sb_mem sb_mem sb_alloc].
        split; [|split; [done|]].
        -- rewrite take_app_le;
             [apply Hz; lia|unfold zero_bytes; rewrite length_replicate; lia].
        -- intros _. split; [done|].
           rewrite drop_app_length'; [done|].
           unfold zero_bytes. rewrite length_replicate. done.
    + apply Z.eqb_neq in Edp.
      assert (Hl : Z.of_nat (length (take (Z.to_nat (SSHBUF_SIZE_INIT K)) (sb_mem b1)
                     ++ zero_bytes (SSHBUF_SIZE_INIT K - sb_alloc b1)))
                   = SSHBUF_SIZE_INIT K).
      { rewrite length_app, length_take. unfold zero_bytes.
        rewrite length_replicate. unfold b1. cbn. lia. }
      assert (Hbz : explicit_bzero
                      (take (Z.to_nat (SSHBUF_SIZE_INIT K)) (sb_mem b1)
                       ++ zero_bytes (SSHBUF_SIZE_INIT K - sb_alloc b1))
                      (SSHBUF_SIZE_INIT K)
                    = Some (zero_bytes (SSHBUF_SIZE_INIT K))).
      { rewrite explicit_bzero_fits by lia.
        rewrite drop_ge by lia. now rewrite app_nil_r. }
      cbn [set_sb_store set_sb_mem sb_mem]. rewrite Hbz.
      eexists. split; [reflexivity|].
      cbn [set_sb_store set_sb_mem sb_mem].
      split; [|split; [|split; [done|split; [intros Hn; destruct (Hnw Hn)|]]]].
      * split; [|split; [|split]]; [| |cbn; lia|done].
        -- apply sshbuf_insane_false. cbn. lia.
        -- cbn. unfold zero_bytes. rewrite length_replicate. lia.
      * unfold sshbuf_data. cbn. apply load_nil.
      * intros _. cbn [sb_mem]. split; [apply Hz; lia|]. split; [done|done].
  - apply negb_false_iff, Z.eqb_eq in Ea.
    assert (Hbz : explicit_bzero (sb_mem b1) (SSHBUF_SIZE_INIT K)
                  = Some (zero_bytes (SSHBUF_SIZE_INIT K))).
    { rewrite explicit_bzero_fits by (unfold b1; cbn; cbn in Ea; lia).
      rewrite drop_ge by (unfold b1; cbn; cbn in Ea; lia). now rewrite app_nil_r. }
    rewrite Hbz. eexists. split; [reflexivity|].
    split; [|split; [|split; [done|split; [intros Hn; destruct (Hnw Hn)|]]]].
    * split; [|split; [|split]]; [| |cbn; lia|done].
      -- apply sshbuf_insane_false. cbn. lia.
      -- cbn. cbn in Ea. unfold zero_bytes. rewrite length_replicate. lia.
    * unfold sshbuf_data. cbn. apply load_nil.
    * intros _. cbn [set_sb_mem sb_mem sb_alloc].
      split; [apply Hz; lia|]. split; [done|]. intros _. split; [done|].
      cbn in Ea. rewrite !drop_ge; [done| |].
      -- lia.
      -- unfold zero_bytes. rewrite length_replicate. lia.
Qed.


(** X11.  A size limit below [SSHBUF_SIZE_INIT] breaks [sshbuf_reset]: a
    new buffer whose limit is set to [m], with [0 < m < SSHBUF_SIZE_INIT],
    accepts the limit, and resetting it then leaves a block of
    [SSHBUF_SIZE_INIT] bytes, above the limit; the buffer fails the sanity
    check and the next call on it raises [SIGSEGV]. *)
Theorem sshbuf_reset_small_limit (sp dp1 dp2 dp3 m : Z) :
  sp <> 0 -> dp1 <> 0 -> dp2 <> 0 -> dp3 <> 0 ->
  0 < m < SSHBUF_SIZE_INIT K ->
  exists b0 b1 b2,
    sshbuf_new K sp dp1 = Some b0
    /\ sshbuf_set_max_size K segv_returns (Some b0) m dp2 = SbRet (0, Some b1)
    /\ sshbuf_ok K b1 /\ sb_max_size b1 = m
    /\ sshbuf_reset K segv_returns b1 dp3 = SbRet b2
    /\ sb_max_size b2 < sb_alloc b2
    /\ sshbuf_len K segv_returns (Some b2)
       = (if segv_returns then SbRet 0 else SbKilled).
Proof.
  intros Hsp Hdp1 Hdp2 Hdp3 Hm.
  destruct (sshbuf_new_result sp dp1) as (_ & Hnew).
  destruct (Hnew Hsp Hdp1) as (b0 & Hb0 & Hok0 & Hw0 & Hd0 & Hroom0 & Hwm0 & Ha0).
  pose proof (sshbuf_ok_bounds b0 Hok0) as Hbb0.
  destruct HK as (HI & HM & HINC & _ & _ & HR & HIE & _).
  change (2 ^ 62) with 4611686018427387904 in *.
  destruct (sshbuf_set_max_size_result b0 m dp2 Hok0 Hw0) as
    (r & b1 & Hset & Hok1 & Hw1 & Hd1 & Hr0 & _ & _ & Hacc).
  { change (2 ^ 64) with 18446744073709551616. lia. }
  assert (Hl0 : sb_size b0 = 0 /\ sb_off b0 = 0).
  { unfold sshbuf_new in Hb0. destruct (sp =? 0); [done|].
    destruct (dp1 =? 0); [done|]. injection Hb0 as <-. done. }
  rewrite Hd0 in Hacc. cbn [length] in Hacc.
  assert (Hr : r = 0) by (apply Hacc; lia). subst r.
  specialize (Hr0 eq_refl).
  pose proof (sshbuf_ok_bounds b1 Hok1) as Hbb1.
  exists b0, b1. unfold sshbuf_reset.
  rewrite (writable_flags b1 Hok1 Hw1), (sshbuf_ok_sane b1 Hok1).
  cbn [sb_bind].
  assert (Ea : negb (sb_alloc (set_sb_size 0 (set_sb_off 0 b1)) =? SSHBUF_SIZE_INIT K)
               = true).
  { apply negb_true_iff, Z.eqb_neq. cbn. lia. }
  rewrite Ea. unfold recallocarray. apply Z.eqb_neq in Hdp3. rewrite Hdp3.
  rewrite explicit_bzero_fits
    by (cbn; rewrite length_app, length_take; unfold zero_bytes;
        rewrite length_replicate; lia).
  eexists. split; [done|]. split; [done|]. split; [done|]. split; [done|].
  split; [reflexivity|]. split; [cbn; lia|].
  unfold sshbuf_len, sshbuf_check_sanity.
  match goal with |- context [sshbuf_insane K ?x] =>
    assert (Hins : sshbuf_insane K x = true) end.
  { destruct (sshbuf_insane K _) eqn:Ei; [done|].
    apply sshbuf_insane_false in Ei. cbn in Ei. lia. }
  rewrite Hins. destruct segv_returns; [|done]. cbn [sb_bind].
  destruct (SSH_ERR_INTERNAL_ERROR K =? 0) eqn:E0; [apply Z.eqb_eq in E0; lia|done].
Qed.

(** X12.  [sshbuf_from] refuses a [NULL] blob, a length above
    [SSHBUF_SIZE_MAX] and a failed allocation.  Otherwise the buffer it
    returns over a blob of [len] bytes satisfies the invariant, shows
    exactly the bytes of the blob, and is not writable: it owns no block
    ([d] is [NULL]) and offers no room. *)
Theorem sshbuf_from_spec (blob : Z) (bytes : list u_char) (len sp : Z) :
  Z.of_nat (length bytes) = len ->
  (blob = 0 \/ SSHBUF_SIZE_MAX K < len \/ sp = 0 ->
   sshbuf_from K blob bytes len sp = None)
  /\ (blob <> 0 -> len <= SSHBUF_SIZE_MAX K -> sp <> 0 ->
      exists b,
        sshbuf_from K blob bytes len sp = Some b
        /\ sshbuf_ok K b /\ ~ sshbuf_writable b
        /\ sshbuf_data b = bytes
        /\ sb_d b = 0
        /\ sshbuf_avail K segv_returns (Some b) = SbRet 0).
Proof.
  intros Hlen. destruct HK as (HI & HM & _ & HRf & _).
  change (2 ^ 62) with 4611686018427387904 in *.
  split.
  - intros Hc. unfold sshbuf_from.
    destruct (blob =? 0) eqn:E1; [done|]. apply Z.eqb_neq in E1.
    destruct (len >? SSHBUF_SIZE_MAX K) eqn:E2; [done|].
    rewrite Z.gtb_ltb in E2. apply Z.ltb_ge in E2.
    destruct (sp =? 0) eqn:E3; [done|]. apply Z.eqb_neq in E3. lia.
  - intros Hb Hl Hsp. unfold sshbuf_from.
    apply Z.eqb_neq in Hb, Hsp. rewrite Hb, Hsp.
    assert (E2 : (len >? SSHBUF_SIZE_MAX K) = false)
      by (rewrite Z.gtb_ltb; apply Z.ltb_ge; lia).
    rewrite E2. cbn [orb]. apply Z.eqb_neq in Hb.
    eexists. split; [reflexivity|].
    assert (Hok : sshbuf_ok K (Sshbuf 0 blob bytes 0 len len len 1 1 0 0)).
    { split; [|split; [|split]]; [|done|done|cbn; lia].
      apply sshbuf_insane_false. cbn. lia. }
    split; [exact Hok|]. split; [|split; [|split]].
    + intros (Hr & _). cbn in Hr. lia.
    + unfold sshbuf_data, load. cbn. rewrite Z.sub_0_r, <- Hlen, Nat2Z.id.
      apply firstn_all.
    + done.
    + unfold sshbuf_avail. rewrite (sshbuf_ok_sane _ Hok). done.
Qed.

(** ** Sequences of calls *)

Lemma sshbuf_reserve_steady b len dp :
  sshbuf_steady K b -> 0 <= len < 2 ^ 64 ->
  exists r b' p,
    sshbuf_reserve K segv_returns (Some b) len dp = SbRet (r, Some b', p)
    /\ sshbuf_steady K b'.
Proof.
  intros (Hok & Hw & Hwm & Hal) Hlen.
  destruct (Z_lt_le_dec (sshbuf_room b) len) as [Hlt|Hle].
  { destruct (sshbuf_reserve_result b len dp Hok Hw Hlen (or_introl Hwm)) as (Hno & _).
    eexists _, _, _. split; [exact (Hno Hlt)|]. done. }
  destruct (sshbuf_allocate_fits b len dp Hok Hw ltac:(lia) (or_introl Hwm))
    as (r & b1 & Ha & Hok1 & Hw1 & Hd1 & Hl1 & Hm1 & Hwm1 & Hal1 & Hr & Hdp).
  pose proof (sshbuf_ok_bounds b1 Hok1) as Hb1.
  unfold sshbuf_reserve. rewrite Ha. cbn [sb_bind fst snd].
  destruct HK as (_ & _ & _ & _ & _ & _ & _ & HAF & _).
  destruct Hr as [(-> & Hfit)|(-> & ->)].
  - cbn [Z.eqb negb]. rewrite size_t_id by lia.
    eexists _, _, _. split; [reflexivity|].
    destruct Hok1 as (Hs & Hmm & Ho & Hww). pose proof Hs as Hs'.
    apply sshbuf_insane_false in Hs'.
    split; [|split; [exact Hw1|split; [cbn; lia|cbn; lia]]].
    split; [|cbn; lia]. apply sshbuf_insane_false. cbn. lia.
  - destruct (SSH_ERR_ALLOC_FAIL K =? 0) eqn:E0;
      [apply Z.eqb_eq in E0; lia|]. cbn [negb].
    eexists _, _, _. split; [reflexivity|].
    split; [done|]. split; [done|]. split; lia.
Qed.

Lemma sshbuf_consume_steady b len :
  sshbuf_steady K b -> 0 <= len < 2 ^ 64 ->
  exists r b',
    sshbuf_consume K segv_returns (Some b) len = SbRet (r, Some b')
    /\ sshbuf_steady K b'.
Proof.
  intros (Hok & Hw & Hwm & Hal) Hlen.
  destruct (sshbuf_consume_result b len Hok Hlen) as (r & b' & Hc & Hin & Hout).
  exists r, b'. split; [exact Hc|].
  destruct (Z_lt_le_dec (Z.of_nat (length (sshbuf_data b))) len) as [Hlt|Hle].
  { destruct (Hout Hlt) as (_ & ->). done. }
  destruct (Hin Hle) as (_ & _ & Hok' & _). split; [exact Hok'|].
  revert Hc. unfold sshbuf_consume. rewrite (sshbuf_ok_sane b Hok).
  cbn [sb_bind Z.eqb negb]. rewrite (sshbuf_len_ok b Hok). cbn [sb_bind].
  destruct (len =? 0); [intros ?; simplify_eq; done|].
  destruct (len >? _); [intros ?; simplify_eq; done|].
  destruct (_ =? _); intros ?; simplify_eq; done.
Qed.

Lemma sshbuf_consume_end_steady b len :
  sshbuf_steady K b -> 0 <= len < 2 ^ 64 ->
  exists r b',
    sshbuf_consume_end K segv_returns (Some b) len = SbRet (r, Some b')
    /\ sshbuf_steady K b'.
Proof.
  intros (Hok & Hw & Hwm & Hal) Hlen.
  destruct (sshbuf_consume_end_result b len Hok Hlen) as (r & b' & Hc & Hin & Hout).
  exists r, b'. split; [exact Hc|].
  destruct (Z_lt_le_dec (Z.of_nat (length (sshbuf_data b))) len) as [Hlt|Hle].
  { destruct (Hout Hlt) as (_ & ->). done. }
  destruct (Hin Hle) as (_ & _ & Hok' & _). split; [exact Hok'|].
  revert Hc. unfold sshbuf_consume_end. rewrite (sshbuf_ok_sane b Hok).
  cbn [sb_bind Z.eqb negb]. rewrite (sshbuf_len_ok b Hok). cbn [sb_bind].
  destruct (len =? 0); [intros ?; simplify_eq; done|].
  destruct (len >? _); intros ?; simplify_eq; done.
Qed.

Lemma sshbuf_set_max_size_steady b max_size dp :
  sshbuf_steady K b -> SSHBUF_SIZE_INIT K <= max_size < 2 ^ 64 ->
  exists r b',
    sshbuf_set_max_size K segv_returns (Some b) max_size dp = SbRet (r, Some b')
    /\ sshbuf_steady K b'.
Proof.
  intros (Hok & Hw & Hwm & Hal) Hmax.
  destruct (sshbuf_set_max_size_result b max_size dp Hok Hw)
    as (r & b' & Hc & Hok' & Hw' & _); [destruct HK; lia|].
  exists r, b'. split; [exact Hc|]. split; [exact Hok'|]. split; [exact Hw'|].
  revert Hc. unfold sshbuf_set_max_size. rewrite (sshbuf_ok_sane b Hok).
  cbn [sb_bind Z.eqb negb].
  destruct (max_size =? sb_max_size b); [intros ?; simplify_eq; done|].
  rewrite (writable_flags b Hok Hw).
  destruct (max_size >? SSHBUF_SIZE_MAX K); [intros ?; simplify_eq; done|].
  set (force := max_size <? sb_size b).
  destruct (sshbuf_maybe_pack_ok b force Hok)
    as (Hok1 & Hd1 & Hl1 & Hs1 & Ha1 & Hm1 & Hr1 & Hc1 & Hw1 & Hdd & Hcd & Hf1).
  set (b1 := sshbuf_maybe_pack K b force) in *.
  destruct HK as (HI & HM & HINC & _ & _ & HR & _).
  pose proof (sshbuf_ok_bounds b1 Hok1) as Hb1.
  destruct ((max_size <? sb_alloc b1) && (max_size >? sb_size b1)) eqn:Ere.
  - set (rlen0 := if sb_size b1 <? SSHBUF_SIZE_INIT K then SSHBUF_SIZE_INIT K
                  else ROUNDUP K (sb_size b1) (SSHBUF_SIZE_INC K)).
    assert (Hr0 : SSHBUF_SIZE_INIT K <= rlen0).
    { unfold rlen0. destruct (sb_size b1 <? SSHBUF_SIZE_INIT K) eqn:E;
        [lia|]. apply Z.ltb_ge in E.
      pose proof (HR (sb_size b1) (SSHBUF_SIZE_INC K) ltac:(lia) ltac:(lia)). lia. }
    set (rlen := if rlen0 >? max_size then max_size else rlen0).
    assert (Hrl : SSHBUF_SIZE_INIT K <= rlen).
    { unfold rlen. destruct (rlen0 >? max_size); lia. }
    unfold recallocarray. destruct (dp =? 0).
    + intros ?; simplify_eq. split; lia.
    + case_match; intros ?; simplify_eq; cbn; split; first [lia|done].
  - case_match; intros ?; simplify_eq; cbn; split; lia.
Qed.

Lemma sshbuf_reset_steady b dp :
  sshbuf_steady K b ->
  exists b', sshbuf_reset K segv_returns b dp = SbRet b' /\ sshbuf_steady K b'.
Proof.
  intros (Hok & Hw & Hwm & Hal).
  pose proof (sshbuf_ok_bounds b Hok) as Hb.
  destruct (proj2 (sshbuf_reset_result b dp Hok ltac:(lia))
              (or_intror (or_intror Hal)))
    as (b' & Hc & Hok' & _).
  exists b'. split; [exact Hc|]. split; [exact Hok'|].
  revert Hc. unfold sshbuf_reset. rewrite (writable_flags b Hok Hw).
  rewrite (sshbuf_ok_sane b Hok). cbn [sb_bind].
  destruct (negb _).
  - unfold recallocarray. destruct (dp =? 0).
    + destruct (explicit_bzero _ _); intros ?; simplify_eq. done.
    + destruct (explicit_bzero _ _); intros ?; simplify_eq.
      split; [exact Hw|]. split; [done|]. cbn. lia.
  - destruct (explicit_bzero _ _); intros ?; simplify_eq. done.
Qed.

(** X13.  The sanity check never fires on a buffer that comes from
    [sshbuf_new] and is used through [sshbuf_reserve], [sshbuf_consume],
    [sshbuf_consume_end], [sshbuf_set_max_size] and [sshbuf_reset] only:
    whatever the calls, their [size_t] arguments and the answers of the
    allocator, as long as no size limit below [SSHBUF_SIZE_INIT] is set,
    every call returns, and the buffer satisfies the invariant, is
    writable and has a block of at least [SSHBUF_SIZE_INIT] bytes after
    the last one. *)
Theorem sshbuf_calls_safe (sp dp : Z) (b0 : sshbuf) (cs : list sshbuf_call) :
  sshbuf_new K sp dp = Some b0 ->
  Forall (sshbuf_call_ok K) cs ->
  exists b,
    sshbuf_calls K segv_returns cs b0 = SbRet b /\ sshbuf_steady K b.
Proof.
  intros Hnew Hcs.
  assert (Hst : sshbuf_steady K b0).
  { destruct (sshbuf_new_result sp dp) as (Hnone & Hsome).
    destruct (Z.eq_dec sp 0) as [->|Hsp];
      [rewrite Hnone in Hnew by (left; done); done|].
    destruct (Z.eq_dec dp 0) as [->|Hdp];
      [rewrite Hnone in Hnew by (right; done); done|].
    destruct (Hsome Hsp Hdp) as (b & Hb & Hok & Hw & _ & _ & Hwm & Ha).
    rewrite Hb in Hnew. injection Hnew as <-.
    split; [done|]. split; [done|]. split; [done|lia]. }
  clear Hnew. revert b0 Hst.
  induction Hcs as [|c cs Hc Hcs IH]; intros b0 Hst.
  { exists b0. done. }
  assert (Hstep : exists b1,
             sshbuf_call_on K segv_returns c b0 = SbRet b1 /\ sshbuf_steady K b1).
  { destruct c as [len dp'|len|len|max_size dp'|dp']; cbn in Hc; cbn [sshbuf_call_on].
    - destruct (sshbuf_reserve_steady b0 len dp' Hst Hc) as (r & b1 & p & -> & H1).
      exists b1. done.
    - destruct (sshbuf_consume_steady b0 len Hst Hc) as (r & b1 & -> & H1).
      exists b1. done.
    - destruct (sshbuf_consume_end_steady b0 len Hst Hc) as (r & b1 & -> & H1).
      exists b1. done.
    - destruct (sshbuf_set_max_size_steady b0 max_size dp' Hst Hc)
        as (r & b1 & -> & H1).
      exists b1. done.
    - destruct (sshbuf_reset_steady b0 dp' Hst) as (b1 & -> & H1).
      exists b1. done. }
  destruct Hstep as (b1 & Hb1 & Hst1).
  destruct (IH b1 Hst1) as (b & Hb & Hst').
  exists b. cbn [sshbuf_calls]. rewrite Hb1. done.
Qed.

End SshbufProps.

(** ** Worked examples for the buffer, with the constants of the upstream
    headers *)

Lemma openssh_consts_ok : consts_ok openssh_consts.
Proof.
  unfold consts_ok, openssh_consts. cbn.
  do 5 (split; [lia|]). split; [|lia].
  intros x y Hx Hy.
  pose proof (Z.mul_div_le (x + (y - 1)) y Hy) as H1.
  pose proof (Z.mul_succ_div_gt (x + (y - 1)) y Hy) as H2.
  nia.
Qed.

Ltac example_ok :=
  split; [reflexivity | split; [reflexivity | split; [cbn; lia | cbn; lia]]].

Lemma sshbuf_consume_spec_witness :
  (consts_ok openssh_consts /\ sshbuf_ok openssh_consts example_buf
   /\ 0 <= 3 < 2 ^ 64)
  /\ exists r b',
       sshbuf_consume openssh_consts false (Some example_buf) 3 = SbRet (r, Some b')
       /\ (3 <= Z.of_nat (length (sshbuf_data example_buf)) ->
           r = 0 /\ sshbuf_data b' = drop (Z.to_nat 3) (sshbuf_data example_buf)
           /\ sshbuf_ok openssh_consts b'
           /\ sb_max_size b' = sb_max_size example_buf)
       /\ (Z.of_nat (length (sshbuf_data example_buf)) < 3 ->
           r = SSH_ERR_MESSAGE_INCOMPLETE openssh_consts /\ b' = example_buf).
Proof.
  assert (Hok : sshbuf_ok openssh_consts example_buf) by example_ok.
  split; [split; [exact openssh_consts_ok | split; [exact Hok | lia]]|].
  apply (sshbuf_consume_spec openssh_consts false openssh_consts_ok example_buf 3 Hok).
  lia.
Defined.

Ltac example_side :=
  first [reflexivity | cbn; lia | vm_compute; intuition congruence].

Lemma sshbuf_consume_end_spec_witness :
  (consts_ok openssh_consts /\ sshbuf_ok openssh_consts example_buf
   /\ 0 <= 2 < 2 ^ 64)
  /\ exists r b',
       sshbuf_consume_end openssh_consts false (Some example_buf) 2
       = SbRet (r, Some b')
       /\ (2 <= Z.of_nat (length (sshbuf_data example_buf)) ->
           r = 0
           /\ sshbuf_data b'
              = take (length (sshbuf_data example_buf) - Z.to_nat 2)
                     (sshbuf_data example_buf)
           /\ sshbuf_ok openssh_consts b'
           /\ sb_max_size b' = sb_max_size example_buf)
       /\ (Z.of_nat (length (sshbuf_data example_buf)) < 2 ->
           r = SSH_ERR_MESSAGE_INCOMPLETE openssh_consts /\ b' = example_buf).
Proof.
  assert (Hok : sshbuf_ok openssh_consts example_buf) by example_ok.
  split; [split; [exact openssh_consts_ok | split; [exact Hok | lia]]|].
  apply (sshbuf_consume_end_spec openssh_consts false openssh_consts_ok
           example_buf 2 Hok).
  lia.
Defined.


Lemma sshbuf_read_only_refused_witness :
  (consts_ok openssh_consts /\ sshbuf_ok openssh_consts example_ro_buf
   /\ ~ sshbuf_writable example_ro_buf /\ 0 <= 1 < 2 ^ 64
   /\ 8 <> sb_max_size example_ro_buf)
  /\ sshbuf_reserve openssh_consts false (Some example_ro_buf) 1 12288
     = SbRet (SSH_ERR_BUFFER_READ_ONLY openssh_consts, Some example_ro_buf, 0)
  /\ sshbuf_allocate openssh_consts false (Some example_ro_buf) 1 12288
     = SbRet (SSH_ERR_BUFFER_READ_ONLY openssh_consts, Some example_ro_buf)
  /\ sshbuf_set_max_size openssh_consts false (Some example_ro_buf) 8 12288
     = SbRet (SSH_ERR_BUFFER_READ_ONLY openssh_consts, Some example_ro_buf)
  /\ sshbuf_avail openssh_consts false (Some example_ro_buf) = SbRet 0
  /\ sshbuf_mutable_ptr openssh_consts false (Some example_ro_buf) = SbRet 0.
Proof.
  assert (Hok : sshbuf_ok openssh_consts example_ro_buf) by example_ok.
  assert (Hnw : ~ sshbuf_writable example_ro_buf)
    by (intros [H _]; discriminate H).
  assert (Hm : 8 <> sb_max_size example_ro_buf) by example_side.
  split; [split; [exact openssh_consts_ok|];
          split; [exact Hok|]; split; [exact Hnw|]; split; [lia|exact Hm]|].
  apply (sshbuf_read_only_refused openssh_consts false openssh_consts_ok
           example_ro_buf 1 12288 8 Hok Hnw); [lia|exact Hm].
Defined.


Lemma sshbuf_reserve_short_hint_witness :
  (consts_ok openssh_consts /\ sshbuf_ok openssh_consts example_hint_buf
   /\ sshbuf_writable example_hint_buf /\ 12288 <> 0
   /\ 0 <= 1048576 <= sshbuf_room example_hint_buf
   /\ BUF_WATERSHED < sb_size example_hint_buf - sb_off example_hint_buf + 1048576
   /\ sb_alloc example_hint_buf < sb_window_max example_hint_buf
   /\ ROUNDUP openssh_consts
        (sb_alloc example_hint_buf + sb_window_max example_hint_buf)
        (SSHBUF_SIZE_INC openssh_consts)
      < sb_size example_hint_buf - sb_off example_hint_buf + 1048576)
  /\ exists b' p,
       sshbuf_reserve openssh_consts false (Some example_hint_buf) 1048576 12288
       = SbRet (0, Some b', p)
       /\ sb_alloc b' < sb_size b'
       /\ sshbuf_insane openssh_consts (Some b') = true
       /\ sshbuf_len openssh_consts false (Some b') = SbKilled.
Proof.
  assert (Hok : sshbuf_ok openssh_consts example_hint_buf) by example_ok.
  assert (Hw : sshbuf_writable example_hint_buf) by (split; example_side).
  assert (H1 : 0 <= 1048576 <= sshbuf_room example_hint_buf) by example_side.
  assert (H2 : BUF_WATERSHED
               < sb_size example_hint_buf - sb_off example_hint_buf + 1048576)
    by reflexivity.
  assert (H3 : sb_alloc example_hint_buf < sb_window_max example_hint_buf)
    by reflexivity.
  assert (H4 : ROUNDUP openssh_consts
                 (sb_alloc example_hint_buf + sb_window_max example_hint_buf)
                 (SSHBUF_SIZE_INC openssh_consts)
               < sb_size example_hint_buf - sb_off example_hint_buf + 1048576)
    by reflexivity.
  split; [split; [exact openssh_consts_ok|];
          split; [exact Hok|]; split; [exact Hw|]; split; [lia|];
          split; [exact H1|]; split; [exact H2|]; split; [exact H3|exact H4]|].
  apply (sshbuf_reserve_short_hint openssh_consts false openssh_consts_ok
           example_hint_buf 1048576 12288 Hok Hw ltac:(lia) H1 H2 H3 H4).
Defined.

Lemma sshbuf_avail_len_witness :
  (consts_ok openssh_consts /\ sshbuf_ok openssh_consts example_buf
   /\ sshbuf_writable example_buf /\ 0 <= 10 < 2 ^ 64)
  /\ exists a l,
       sshbuf_avail openssh_consts false (Some example_buf) = SbRet a
       /\ sshbuf_len openssh_consts false (Some example_buf) = SbRet l
       /\ 0 <= a /\ 0 <= l /\ a + l = sb_max_size example_buf
       /\ sshbuf_check_reserve openssh_consts false (Some example_buf) 10
          = SbRet (if 10 <=? a then 0 else SSH_ERR_NO_BUFFER_SPACE openssh_consts).
Proof.
  assert (Hok : sshbuf_ok openssh_consts example_buf) by example_ok.
  assert (Hw : sshbuf_writable example_buf) by (split; example_side).
  split; [split; [exact openssh_consts_ok|];
          split; [exact Hok|]; split; [exact Hw|lia]|].
  apply (sshbuf_avail_len openssh_consts false openssh_consts_ok
           example_buf 10 Hok Hw).
  lia.
Defined.

Lemma sshbuf_new_spec_witness :
  consts_ok openssh_consts
  /\ (1 = 0 \/ 4096 = 0 -> sshbuf_new openssh_consts 1 4096 = None)
  /\ (1 <> 0 -> 4096 <> 0 ->
      exists b,
        sshbuf_new openssh_consts 1 4096 = Some b
        /\ sshbuf_ok openssh_consts b /\ sshbuf_writable b
        /\ sshbuf_data b = []
        /\ sshbuf_room b = SSHBUF_SIZE_MAX openssh_consts
        /\ sb_window_max b = 0
        /\ sb_alloc b = SSHBUF_SIZE_INIT openssh_consts).
Proof.
  split; [exact openssh_consts_ok|].
  exact (sshbuf_new_spec openssh_consts openssh_consts_ok 1 4096).
Defined.

Lemma sshbuf_set_max_size_spec_witness :
  (consts_ok openssh_consts /\ sshbuf_ok openssh_consts example_buf
   /\ sshbuf_writable example_buf /\ 0 <= 1024 < 2 ^ 64)
  /\ exists r b',
       sshbuf_set_max_size openssh_consts false (Some example_buf) 1024 12288
       = SbRet (r, Some b')
       /\ sshbuf_ok openssh_consts b' /\ sshbuf_writable b'
       /\ sshbuf_data b' = sshbuf_data example_buf
       /\ (r = 0 -> sb_max_size b' = 1024)
       /\ (r <> 0 -> sb_max_size b' = sb_max_size example_buf)
       /\ (SSHBUF_SIZE_MAX openssh_consts < 1024
           \/ 1024 < Z.of_nat (length (sshbuf_data example_buf)) ->
           r = SSH_ERR_NO_BUFFER_SPACE openssh_consts)
       /\ (Z.of_nat (length (sshbuf_data example_buf)) < 1024
           <= SSHBUF_SIZE_MAX openssh_consts ->
           1024 <> sb_size example_buf -> 12288 <> 0 -> r = 0).
Proof.
  assert (Hok : sshbuf_ok openssh_consts example_buf) by example_ok.
  assert (Hw : sshbuf_writable example_buf) by (split; example_side).
  split; [split; [exact openssh_consts_ok|];
          split; [exact Hok|]; split; [exact Hw|lia]|].
  apply (sshbuf_set_max_size_spec openssh_consts false openssh_consts_ok
           example_buf 1024 12288 Hok Hw).
  lia.
Defined.


Lemma sshbuf_reset_small_limit_witness :
  (consts_ok openssh_consts /\ 1 <> 0 /\ 4096 <> 0 /\ 8192 <> 0 /\ 12288 <> 0
   /\ 0 < 100 < SSHBUF_SIZE_INIT openssh_consts)
  /\ exists b0 b1 b2,
       sshbuf_new openssh_consts 1 4096 = Some b0
       /\ sshbuf_set_max_size openssh_consts false (Some b0) 100 8192
          = SbRet (0, Some b1)
       /\ sshbuf_ok openssh_consts b1 /\ sb_max_size b1 = 100
       /\ sshbuf_reset openssh_consts false b1 12288 = SbRet b2
       /\ sb_max_size b2 < sb_alloc b2
       /\ sshbuf_len openssh_consts false (Some b2) = SbKilled.
Proof.
  assert (Hm : 0 < 100 < SSHBUF_SIZE_INIT openssh_consts) by example_side.
  split; [split; [exact openssh_consts_ok|];
          do 4 (split; [lia|]); exact Hm|].
  apply (sshbuf_reset_small_limit openssh_consts false openssh_consts_ok
           1 4096 8192 12288 100); [lia|lia|lia|lia|exact Hm].
Defined.

Lemma sshbuf_from_spec_witness :
  (consts_ok openssh_consts /\ Z.of_nat (length [x61; x62; x63; x64]) = 4)
  /\ (8192 = 0 \/ SSHBUF_SIZE_MAX openssh_consts < 4 \/ 1 = 0 ->
      sshbuf_from openssh_consts 8192 [x61; x62; x63; x64] 4 1 = None)
  /\ (8192 <> 0 -> 4 <= SSHBUF_SIZE_MAX openssh_consts -> 1 <> 0 ->
      exists b,
        sshbuf_from openssh_consts 8192 [x61; x62; x63; x64] 4 1 = Some b
        /\ sshbuf_ok openssh_consts b /\ ~ sshbuf_writable b
        /\ sshbuf_data b = [x61; x62; x63; x64]
        /\ sb_d b = 0
        /\ sshbuf_avail openssh_consts false (Some b) = SbRet 0).
Proof.
  split; [split; [exact openssh_consts_ok | reflexivity]|].
  apply (sshbuf_from_spec openssh_consts false openssh_consts_ok
           8192 [x61; x62; x63; x64] 4 1).
  reflexivity.
Defined.

Lemma sshbuf_calls_safe_witness :
  (consts_ok openssh_consts
   /\ sshbuf_new openssh_consts 1 4096
      = Some (Sshbuf 4096 4096 (zero_bytes 256) 0 0 134217728 256 0 1 0 0)
   /\ Forall (sshbuf_call_ok openssh_consts) example_calls)
  /\ exists b,
       sshbuf_calls openssh_consts false example_calls
         (Sshbuf 4096 4096 (zero_bytes 256) 0 0 134217728 256 0 1 0 0)
       = SbRet b
       /\ sshbuf_steady openssh_consts b.
Proof.
  assert (Hn : sshbuf_new openssh_consts 1 4096
               = Some (Sshbuf 4096 4096 (zero_bytes 256) 0 0 134217728 256 0 1 0 0))
    by reflexivity.
  assert (Hc : Forall (sshbuf_call_ok openssh_consts) example_calls)
    by (repeat constructor; cbn; lia).
  split; [split; [exact openssh_consts_ok | split; [exact Hn | exact Hc]]|].
  exact (sshbuf_calls_safe openssh_consts false openssh_consts_ok 1 4096 _
           example_calls Hn Hc).
Defined.


(** * Brace expansion (scp.c) *)

Lemma byte_eqb_true (c d : u_char) : Byte.eqb c d = true <-> c = d.
Proof. split; [apply Byte.byte_dec_bl | apply Byte.byte_dec_lb]. Qed.

Lemma byte_eqb_false (c d : u_char) : Byte.eqb c d = false <-> c <> d.
Proof.
  split; [apply Byte.eqb_false|]. intros Hne.
  destruct (Byte.eqb c d) eqn:E; [|done]. apply byte_eqb_true in E. done.
Qed.

Lemma at_past (s : list u_char) (i : Z) :
  Z.of_nat (length s) <= i -> at_ s i = ch_nul.
Proof.
  intros Hi. unfold at_. rewrite list_lookup_total_alt, lookup_ge_None_2 by lia.
  done.
Qed.

Lemma at_inside (s : list u_char) (i : Z) :
  0 <= i -> at_ s i <> ch_nul -> i < Z.of_nat (length s).
Proof.
  intros Hi Hne. destruct (Z_lt_le_dec i (Z.of_nat (length s))); [done|].
  rewrite at_past in Hne; done.
Qed.

Lemma at_app_l (s1 s2 : list u_char) (i : Z) :
  0 <= i < Z.of_nat (length s1) -> at_ (s1 ++ s2) i = at_ s1 i.
Proof.
  intros Hi. unfold at_. rewrite !list_lookup_total_alt, lookup_app_l by lia. done.
Qed.

Lemma at_app_r (s1 s2 : list u_char) (i : Z) :
  Z.of_nat (length s1) <= i ->
  at_ (s1 ++ s2) i = at_ s2 (i - Z.of_nat (length s1)).
Proof.
  intros Hi. unfold at_. rewrite !list_lookup_total_alt, lookup_app_r by lia.
  do 2 f_equal. lia.
Qed.

Lemma at_cons_0 (c : u_char) (s : list u_char) : at_ (c :: s) 0 = c.
Proof. done. Qed.

Lemma at_cons_S (c : u_char) (s : list u_char) (i : Z) :
  0 < i -> at_ (c :: s) i = at_ s (i - 1).
Proof.
  intros Hi. unfold at_. replace (Z.to_nat i) with (S (Z.to_nat (i - 1))) by lia.
  done.
Qed.

Ltac byte_cases :=
  repeat match goal with
  | |- context [Byte.eqb ?a ?b] =>
      let E := fresh "E" in
      destruct (Byte.eqb a b) eqn:E;
      [apply byte_eqb_true in E | apply byte_eqb_false in E]
  end.

Lemma find_brace_body_inv pattern st :
  find_inv pattern st -> fb_end st < 0 -> at_ pattern (fb_i st) <> ch_nul ->
  match find_brace_body pattern st with
  | Some st' => find_inv pattern st' /\ fb_i st < fb_i st'
  | None => True
  end.
Proof.
  intros (Hi & Hs) He Hc.
  pose proof (at_inside pattern (fb_i st) ltac:(lia) Hc) as Hlt.
  destruct Hs as [(Hend & Hs)|Hs]; [|lia].
  assert (Hskip : at_ pattern (fb_i st + 1) <> ch_nul ->
                  fb_i st + 1 < Z.of_nat (length pattern))
    by (intros Hn; apply at_inside; [lia|done]).
  assert (Hkeep : forall j1 b,
             fb_i st < j1 <= Z.of_nat (length pattern) ->
             find_inv pattern (Fb j1 (fb_start st) (fb_end st) b (fb_level st))
             /\ fb_i st < j1).
  { intros j1 b Hj. split; [|lia]. split; [cbn; lia|]. left. cbn.
    split; [done|].
    destruct Hs as [Hs|(Hs1 & Hs2 & Hs3 & Hs4)]; [left; done|right].
    split; [lia|split; [lia|done]]. }
  unfold find_brace_body. cbn zeta.
  destruct (Byte.eqb (at_ pattern (fb_i st)) ch_backslash) eqn:E1.
  { destruct (Byte.eqb (at_ pattern (fb_i st + 1)) ch_nul) eqn:E2;
      [apply byte_eqb_true in E2
      |apply byte_eqb_false in E2; specialize (Hskip E2)];
      cbn [negb]; cbv iota; apply Hkeep; cbn [fb_i]; lia. }
  destruct (Byte.eqb (at_ pattern (fb_i st)) ch_lbracket) eqn:E3;
    [apply Hkeep; cbn [fb_i]; lia|].
  destruct (Byte.eqb (at_ pattern (fb_i st)) ch_rbracket) eqn:E4;
    [apply Hkeep; cbn [fb_i]; lia|].
  destruct (Byte.eqb (at_ pattern (fb_i st)) ch_lbrace) eqn:E5.
  { apply byte_eqb_true in E5.
    destruct (fb_in_bracket st); [apply Hkeep; cbn [fb_i]; lia|].
    destruct (Byte.eqb (at_ pattern (fb_i st + 1)) ch_rbrace) eqn:E6.
    { apply byte_eqb_true in E6. apply Hkeep. cbn [fb_i].
      assert (Hn : at_ pattern (fb_i st + 1) <> ch_nul) by (rewrite E6; done).
      specialize (Hskip Hn). lia. }
    apply byte_eqb_false in E6.
    split; [|cbn; lia]. split; [cbn; lia|]. left. cbn. split; [done|]. right.
    destruct Hs as [(Hs & Hl)|(Hs1 & Hs2 & Hs3 & Hs4)].
    - rewrite Hs. cbn. split; [lia|split; [lia|split; [exact E5|exact E6]]].
    - destruct (fb_start st =? -1) eqn:E7; [apply Z.eqb_eq in E7; lia|].
      split; [lia|split; [lia|done]]. }
  destruct (Byte.eqb (at_ pattern (fb_i st)) ch_rbrace) eqn:E6;
    [|apply Hkeep; cbn [fb_i]; lia].
  apply byte_eqb_true in E6.
  destruct (fb_in_bracket st); [apply Hkeep; cbn [fb_i]; lia|].
  destruct (fb_start st <? 0) eqn:E7; [done|]. apply Z.ltb_ge in E7.
  destruct Hs as [Hs|(Hs & Hl & Hb & Hn)]; [lia|].
  assert (Hne : fb_i st <> fb_start st + 1) by (intros Heq; rewrite <- Heq in Hn; done).
  split; [|cbn; lia]. split; [cbn; lia|]. cbn.
  destruct (fb_level st - 1 <=? 0) eqn:E8.
  - right. split; [lia|split; [lia|split; [lia|split; [done|exact E6]]]].
  - apply Z.leb_gt in E8. left. split; [done|]. right.
    split; [lia|split; [lia|done]].
Qed.

Lemma find_brace_loop_post pattern fuel st :
  find_inv pattern st ->
  (Z.to_nat (Z.of_nat (length pattern) - fb_i st) < fuel)%nat ->
  exists res, find_brace_loop fuel pattern st = Some res /\ find_post pattern res.
Proof.
  revert st. induction fuel as [|fuel IH]; intros st Hinv Hfuel; [lia|].
  cbn [find_brace_loop].
  destruct ((fb_i st <? CInt.INT_MAX) && (fb_end st <? 0)
            && negb (Byte.eqb (at_ pattern (fb_i st)) ch_nul)) eqn:Ec.
  - apply andb_true_iff in Ec as (Ec & Ec3).
    apply andb_true_iff in Ec as (Ec1 & Ec2).
    apply Z.ltb_lt in Ec2. apply negb_true_iff, byte_eqb_false in Ec3.
    pose proof (find_brace_body_inv pattern st Hinv Ec2 Ec3) as Hb.
    destruct (find_brace_body pattern st) as [st'|].
    + destruct Hb as (Hinv' & Hlt). apply IH; [done|].
      destruct Hinv' as (Hi' & _). lia.
    + eexists. split; [reflexivity|]. split; [by right|]. intros; lia.
  - destruct Hinv as (Hi & Hs).
    destruct ((fb_end st <? 0) && ((fb_start st >=? 0) || fb_in_bracket st)) eqn:Ef.
    + eexists. split; [reflexivity|]. split; [by right|]. intros; lia.
    + eexists. split; [reflexivity|]. split; [by left|]. intros _.
      destruct Hs as [(He & Hs)|Hs]; [|right; exact Hs].
      rewrite He in Ef. cbn in Ef. apply orb_false_iff in Ef as (Ef & _).
      rewrite Z.geb_leb in Ef. apply Z.leb_gt in Ef. left. lia.
Qed.

Lemma find_brace_result pattern :
  exists res, find_brace pattern = Some res /\ find_post pattern res.
Proof.
  apply find_brace_loop_post.
  - split; [cbn; lia|]. left. cbn. split; [done|]. left. done.
  - cbn. lia.
Qed.

(** X14.  [find_brace] returns on every pattern shorter than [INT_MAX],
    with 0 or -1.  When it returns 0 it has either found no brace pair, and
    both positions are -1, or [*startp] and [*endp] are positions inside
    the pattern that hold an opening and a closing brace, with at least
    one byte between them. *)
Theorem find_brace_spec (pattern : list u_char) :
  Z.of_nat (length pattern) < CInt.INT_MAX ->
  exists r s e,
    find_brace pattern = Some (r, s, e)
    /\ (r = 0 \/ r = -1)
    /\ (r = 0 ->
        (s = -1 /\ e = -1)
        \/ (0 <= s /\ s + 1 < e /\ e < Z.of_nat (length pattern)
            /\ at_ pattern s = ch_lbrace /\ at_ pattern e = ch_rbrace)).
Proof.
  intros _. destruct (find_brace_result pattern) as (((r & s) & e) & Hr & Hp).
  exists r, s, e. split; [exact Hr|exact Hp].
Qed.

Lemma strdup_length (s : list u_char) : (length (strdup s) <= length s)%nat.
Proof.
  induction s as [|c s IH]; [done|]. cbn.
  destruct (Byte.eqb c ch_nul); cbn; lia.
Qed.

Lemma strdup_id (s : list u_char) : ch_nul ∉ s -> strdup s = s.
Proof.
  induction s as [|c s IH]; [done|]. intros Hn.
  apply not_elem_of_cons in Hn as (Hc & Hs). cbn.
  destruct (Byte.eqb c ch_nul) eqn:E; [apply byte_eqb_true in E; done|].
  now rewrite IH.
Qed.

Lemma load_length_le (m : list u_char) (off n : Z) :
  (length (load m off n) <= Z.to_nat n)%nat.
Proof. unfold load. rewrite length_take. lia. Qed.

Ltac list_len := repeat first [rewrite length_app | progress cbn [length]].

Ltac app_eq :=
  repeat (rewrite <- app_assoc || rewrite <- app_comm_cons); reflexivity.

Section BraceProps.

Variable alloc_fails : nat -> bool.

Lemma emit_expansion_result pattern bs be ss se patterns k :
  0 <= bs -> bs < ss <= se -> se <= be -> be < Z.of_nat (length pattern) ->
  Z.of_nat (length pattern) < CInt.INT_MAX ->
  let e := emit_expansion alloc_fails pattern bs be ss se patterns k in
  (e.1.1 = -1 /\ e.1.2 = patterns /\ exists j, alloc_fails j = true)
  \/ (e.1.1 = 0
      /\ exists cp, e.1.2 = patterns ++ [cp]
                    /\ (length cp + 2 <= length pattern)%nat).
Proof.
  intros Hbs Hss Hse Hbe Hlen. unfold emit_expansion.
  set (tail := strlen (drop (Z.to_nat (be + 1)) pattern)).
  assert (Ht : 0 <= tail <= Z.of_nat (length pattern) - be - 1).
  { unfold tail, strlen.
    pose proof (strdup_length (drop (Z.to_nat (be + 1)) pattern)) as Hl.
    rewrite length_drop in Hl. lia. }
  rewrite (int_small tail) by (unfold CInt.INT_MAX in *; lia).
  destruct (alloc_fails k) eqn:Ek; [left; split; [done|split; [done|by exists k]]|].
  set (cp0 := if bs >? 0 then load pattern 0 bs else []).
  set (cp1 := if se - ss >? 0 then cp0 ++ load pattern ss (se - ss) else cp0).
  set (cp2 := if tail >? 0 then cp1 ++ load pattern (be + 1) tail else cp1).
  assert (H0 : Z.of_nat (length cp0) <= bs).
  { unfold cp0. destruct (bs >? 0); [|cbn; lia].
    pose proof (load_length_le pattern 0 bs). lia. }
  assert (H1 : Z.of_nat (length cp1) <= bs + (se - ss)).
  { unfold cp1. destruct (se - ss >? 0); [|lia]. rewrite length_app.
    pose proof (load_length_le pattern ss (se - ss)). lia. }
  assert (H2 : Z.of_nat (length cp2) <= bs + (se - ss) + tail).
  { unfold cp2. destruct (tail >? 0); [|lia]. rewrite length_app.
    pose proof (load_length_le pattern (be + 1) tail). lia. }
  unfold append.
  destruct (alloc_fails (S k)) eqn:Ek1;
    [left; split; [done|split; [done|by exists (S k)]]|].
  right. split; [done|]. exists cp2. split; [done|]. lia.
Qed.

Lemma expand_body_inv pattern bs be patterns0 st :
  0 <= bs -> be < Z.of_nat (length pattern) ->
  Z.of_nat (length pattern) < CInt.INT_MAX ->
  expand_inv pattern bs be patterns0 st -> x_i st < be ->
  match expand_body alloc_fails pattern bs be st with
  | inl st' => expand_inv pattern bs be patterns0 st' /\ x_i st < x_i st'
  | inr f =>
      (exists j, alloc_fails j = true)
      /\ exists new, f.1 = patterns0 ++ new
           /\ Forall (fun p => (length p + 2 <= length pattern)%nat) new
           /\ Z.of_nat (length new) <= be - (bs + 1)
  end.
Proof.
  intros Hbs Hbe Hlen (Hsel & Hi & new & Hp & Hall & Hcnt & _) Hlt.
  unfold expand_body.
  set (c := at_ pattern (x_i st)).
  set (i := if Byte.eqb c ch_backslash
            then (if x_i st <? be - 1 then x_i st + 1 else x_i st) else x_i st).
  set (inb := if Byte.eqb c ch_lbracket then true
              else if Byte.eqb c ch_rbracket then false else x_in_bracket st).
  set (lvl := if Byte.eqb c ch_lbrace
              then (if x_in_bracket st then x_level st else x_level st + 1)
              else if Byte.eqb c ch_rbrace
              then (if x_in_bracket st then x_level st else x_level st - 1)
              else x_level st).
  assert (Hi1 : x_i st <= i <= be - 1).
  { unfold i. destruct (Byte.eqb c ch_backslash); [|lia].
    destruct (x_i st <? be - 1) eqn:E; [apply Z.ltb_lt in E|]; lia. }
  clearbody i inb lvl.
  destruct (Byte.eqb (at_ pattern i) ch_comma || (i =? be - 1)) eqn:Ecut.
  - destruct (inb || (lvl >? 0)) eqn:Eopen.
    + split; [|cbn; lia]. split; [cbn; lia|]. split; [cbn; lia|].
      exists new. cbn. split; [done|]. split; [done|]. split; [lia|].
      intros _ Hb Hl. apply orb_true_iff in Eopen as [Eo|Eo]; [congruence|].
      rewrite Z.gtb_ltb in Eo. apply Z.ltb_lt in Eo. lia.
    + set (se := if i =? be - 1 then be else i).
      assert (Hse : x_sel_start st <= se <= be).
      { unfold se. destruct (i =? be - 1); lia. }
      pose proof (emit_expansion_result pattern bs be (x_sel_start st) se
                    (x_patterns st) (x_k st) Hbs ltac:(lia) ltac:(lia) Hbe Hlen)
        as He.
      cbn zeta in He.
      set (e := emit_expansion alloc_fails pattern bs be (x_sel_start st) se
                  (x_patterns st) (x_k st)) in *.
      destruct He as [(Hr & Hps & Hf)|(Hr & cp & Hps & Hcp)].
      * rewrite Hr. cbn. split; [exact Hf|]. exists new. rewrite Hps.
        split; [done|]. split; [done|]. lia.
      * rewrite Hr. cbn [Z.eqb negb].
        split; [|cbn; lia]. split; [cbn; lia|]. split; [cbn; lia|].
        exists (new ++ [cp]). cbn. split; [rewrite Hps, Hp, app_assoc; done|].
        split; [apply Forall_app; split; [done|]; apply Forall_singleton; done|].
        split; [rewrite length_app; cbn; lia|].
        intros _ _ _. destruct new; done.
  - apply orb_false_iff in Ecut as (_ & Ecut). apply Z.eqb_neq in Ecut.
    split; [|cbn; lia]. split; [cbn; lia|]. split; [cbn; lia|].
    exists new. cbn. split; [done|]. split; [done|]. split; [lia|].
    intros Heq. lia.
Qed.

Lemma expand_loop_post pattern bs be patterns0 fuel st :
  0 <= bs -> be < Z.of_nat (length pattern) ->
  Z.of_nat (length pattern) < CInt.INT_MAX ->
  expand_inv pattern bs be patterns0 st ->
  (Z.to_nat (be - x_i st) < fuel)%nat ->
  exists res,
    expand_loop alloc_fails fuel pattern bs be st = Some res
    /\ match res with
       | inl st' => expand_inv pattern bs be patterns0 st' /\ x_i st' = be
       | inr f =>
           (exists j, alloc_fails j = true)
           /\ exists new, f.1 = patterns0 ++ new
                /\ Forall (fun p => (length p + 2 <= length pattern)%nat) new
                /\ Z.of_nat (length new) <= be - (bs + 1)
       end.
Proof.
  intros Hbs Hbe Hlen. revert st.
  induction fuel as [|fuel IH]; intros st Hinv Hfuel; [lia|].
  cbn [expand_loop]. destruct (x_i st <? be) eqn:Ei.
  - apply Z.ltb_lt in Ei.
    pose proof (expand_body_inv pattern bs be patterns0 st Hbs Hbe Hlen Hinv Ei) as Hb.
    destruct (expand_body alloc_fails pattern bs be st) as [st'|f].
    + destruct Hb as (Hinv' & Hlt). apply IH; [done|lia].
    + eexists. split; [reflexivity|]. exact Hb.
  - apply Z.ltb_ge in Ei. eexists. split; [reflexivity|].
    split; [done|]. destruct Hinv as (_ & Hi & _). lia.
Qed.

(** What [brace_expand_one] returns on a pattern shorter than [INT_MAX]. *)
Lemma brace_expand_one_result pattern patterns k :
  Z.of_nat (length pattern) < CInt.INT_MAX ->
  exists o new,
    brace_expand_one alloc_fails pattern patterns k = Some o
    /\ (o_ret o = 0 \/ o_ret o = -1)
    /\ o_patterns o = patterns ++ new
    /\ Forall (fun p => (length p + 2 <= length pattern)%nat) new
    /\ (length new <= length pattern)%nat
    /\ (o_ret o = -1 -> o_expanded o = false /\ o_invalid o = false)
    /\ (o_expanded o = true -> o_invalid o = false /\ new <> [])
    /\ (o_ret o = 0 -> o_expanded o = false -> o_invalid o = false -> new = [])
    /\ ((forall j, alloc_fails j = false) -> o_ret o = 0).
Proof.
  intros Hlen. unfold brace_expand_one.
  destruct (find_brace_result pattern) as (((r & bs) & be) & -> & Hr & Hpost).
  destruct (negb (r =? 0)) eqn:Er.
  { exists (ExOne 0 patterns k false true), []. rewrite app_nil_r. cbn.
    split; [done|]. split; [by left|]. split; [done|]. split; [done|].
    split; [lia|]. split; [lia|]. done. }
  apply negb_false_iff, Z.eqb_eq in Er. subst r. specialize (Hpost eq_refl).
  destruct (bs =? -1) eqn:Ebs.
  { exists (ExOne 0 patterns k false false), []. rewrite app_nil_r. cbn.
    split; [done|]. split; [by left|]. split; [done|]. split; [done|].
    split; [lia|]. split; [lia|]. done. }
  apply Z.eqb_neq in Ebs.
  destruct Hpost as [Hn|(Hs & Hse & He & Hcs & Hce)]; [lia|].
  destruct (expand_loop_post pattern bs be patterns (S (length pattern))
              (Ex (bs + 1) (bs + 1) false 0 patterns k) Hs He Hlen)
    as (res & -> & Hres).
  { split; [cbn; lia|]. split; [cbn; lia|]. exists []. cbn.
    rewrite app_nil_r. split; [done|]. split; [done|]. split; [lia|]. lia. }
  { cbn. lia. }
  destruct res as [st|f].
  - destruct Hres as ((Hsel & Hi & new & Hp & Hall & Hcnt & Hlast) & Hend).
    destruct (x_in_bracket st || (x_level st >? 0)) eqn:Eopen.
    + exists (ExOne 0 (x_patterns st) (x_k st) false true), new. cbn.
      split; [done|]. split; [by left|]. split; [done|]. split; [done|].
      split; [lia|]. split; [lia|]. done.
    + apply orb_false_iff in Eopen as (Eb & El).
      rewrite Z.gtb_ltb in El. apply Z.ltb_ge in El.
      exists (ExOne 0 (x_patterns st) (x_k st) true false), new. cbn.
      split; [done|]. split; [by left|]. split; [done|]. split; [done|].
      split; [lia|]. split; [lia|]. split; [|done].
      intros _. split; [done|]. apply Hlast; done.
  - destruct Hres as ((j & Hj) & new & Hp & Hall & Hcnt).
    exists (ExOne (-1) f.1 f.2 false false), new. cbn.
    split; [done|]. split; [by right|]. split; [done|]. split; [done|].
    split; [lia|]. split; [done|]. split; [done|]. split; [lia|].
    intros Hnf. rewrite Hnf in Hj. done.
Qed.

Lemma expand_rounds_pos n : (1 <= expand_rounds n)%nat.
Proof. destruct n; cbn; lia. Qed.

Lemma expand_rounds_mono n m : (n <= m)%nat -> (expand_rounds n <= expand_rounds m)%nat.
Proof.
  induction 1 as [|m Hle IH]; [done|].
  change (expand_rounds (S m)) with (1 + S m * expand_rounds m)%nat. nia.
Qed.

Lemma expand_rounds_children (n : nat) (new : list (list u_char)) :
  Forall (fun p => (length p + 2 <= n)%nat) new -> (length new <= n)%nat ->
  (sum_list_with (fun p => expand_rounds (length p)) new < expand_rounds n)%nat.
Proof.
  intros Hall Hcnt. destruct n as [|n].
  { destruct new as [|p new]; [cbn; lia|]. apply Forall_cons in Hall as (Hp & _). lia. }
  change (expand_rounds (S n)) with (1 + S n * expand_rounds n)%nat.
  assert (Hsum : (sum_list_with (fun p => expand_rounds (length p)) new
                  <= length new * expand_rounds n)%nat).
  { clear Hcnt. induction Hall as [|p new Hp Hall IH]; [cbn; lia|].
    cbn [sum_list_with length].
    pose proof (expand_rounds_mono (length p) n ltac:(lia)). lia. }
  pose proof (expand_rounds_pos n). nia.
Qed.

Lemma brace_expand_loop_returns fuel active done k :
  Forall (fun p => Z.of_nat (length p) < CInt.INT_MAX) active ->
  (sum_list_with (fun p => expand_rounds (length p)) active < fuel)%nat ->
  exists res, brace_expand_loop alloc_fails fuel active done k = Some res.
Proof.
  revert active done k. induction fuel as [|fuel IH];
    intros active done k Hlen Hfuel; [lia|].
  cbn [brace_expand_loop].
  destruct (last active) as [cp|] eqn:Hlast; [|by eexists].
  apply last_Some in Hlast as (rest & ->).
  rewrite removelast_last.
  apply Forall_app in Hlen as (Hrest & Hcp). rewrite Forall_singleton in Hcp.
  rewrite sum_list_with_app in Hfuel. cbn [sum_list_with] in Hfuel.
  destruct (brace_expand_one_result cp rest k Hcp)
    as (o & new & -> & Hret & Hps & Hall & Hcnt & Hfail & Hexp & Hnone & _).
  destruct (o_ret o =? -1); [by eexists|].
  destruct (o_invalid o); [by eexists|].
  assert (Hnew : Forall (fun p => Z.of_nat (length p) < CInt.INT_MAX) new).
  { eapply Forall_impl; [exact Hall|]. cbn. intros p Hp. lia. }
  pose proof (expand_rounds_children (length cp) new Hall Hcnt) as Hch.
  destruct (o_expanded o) eqn:Ee.
  { apply IH.
    - rewrite Hps. apply Forall_app. done.
    - rewrite Hps, sum_list_with_app. lia. }
  destruct (alloc_fails (o_k o)); [by eexists|].
  destruct (negb _); [by eexists|].
  apply IH.
  - rewrite Hps. apply Forall_app. done.
  - rewrite Hps, sum_list_with_app. lia.
Qed.

(** X15.  [brace_expand] ends on every pattern shorter than [INT_MAX],
    whatever the allocator answers: its worklist loop goes round at most
    [expand_rounds] of the length of the pattern times, because every
    pattern that an expansion puts on the list is at least two bytes
    shorter than the one it came from. *)
Theorem brace_expand_returns (pattern : list u_char) (fuel : nat) :
  Z.of_nat (length pattern) < CInt.INT_MAX ->
  (expand_rounds (length pattern) < fuel)%nat ->
  exists res, brace_expand alloc_fails fuel pattern = Some res.
Proof.
  intros Hlen Hfuel. unfold brace_expand.
  destruct (alloc_fails 0); [by eexists|].
  unfold append. destruct (alloc_fails 1); [by eexists|]. cbn.
  pose proof (strdup_length pattern) as Hs.
  apply brace_expand_loop_returns.
  - apply Forall_singleton. lia.
  - cbn. pose proof (expand_rounds_mono _ _ Hs). lia.
Qed.

(** X16.  One round of expansion: on a pattern shorter than [INT_MAX],
    [brace_expand_one] returns 0 or -1 and only adds patterns at the end
    of the array, each at least two bytes shorter than the pattern and
    no more than the pattern has bytes.  It returns -1 only when an
    allocation fails.  When it reports an expansion it has added at least
    one pattern and does not report the pattern invalid; when it reports
    neither, it has added nothing. *)
Theorem brace_expand_one_spec (pattern : list u_char)
    (patterns : list (list u_char)) (k : nat) :
  Z.of_nat (length pattern) < CInt.INT_MAX ->
  exists o new,
    brace_expand_one alloc_fails pattern patterns k = Some o
    /\ (o_ret o = 0 \/ o_ret o = -1)
    /\ o_patterns o = patterns ++ new
    /\ Forall (fun p => (length p + 2 <= length pattern)%nat) new
    /\ (length new <= length pattern)%nat
    /\ (o_ret o = -1 -> o_expanded o = false /\ o_invalid o = false)
    /\ (o_expanded o = true -> o_invalid o = false /\ new <> [])
    /\ (o_ret o = 0 -> o_expanded o = false -> o_invalid o = false -> new = [])
    /\ ((forall j, alloc_fails j = false) -> o_ret o = 0).
Proof. exact (brace_expand_one_result pattern patterns k). Qed.

(** ** The scans on plain text *)

Lemma brace_special_false c :
  brace_special c = false ->
  c <> ch_nul /\ c <> ch_backslash /\ c <> ch_lbracket /\ c <> ch_rbracket
  /\ c <> ch_lbrace /\ c <> ch_rbrace.
Proof.
  unfold brace_special. rewrite !orb_false_iff, !byte_eqb_false. tauto.
Qed.

Lemma at_middle (l1 : list u_char) (c : u_char) (l2 : list u_char) (i : Z) :
  i = Z.of_nat (length l1) -> at_ (l1 ++ c :: l2) i = c.
Proof.
  intros ->. rewrite at_app_r by lia. rewrite Z.sub_diag. done.
Qed.

Lemma find_brace_loop_fuel pattern f1 f2 st r :
  find_brace_loop f1 pattern st = Some r -> (f1 <= f2)%nat ->
  find_brace_loop f2 pattern st = Some r.
Proof.
  revert f2 st. induction f1 as [|f1 IH]; intros f2 st H Hle; [done|].
  destruct f2 as [|f2]; [lia|]. cbn [find_brace_loop] in *.
  destruct (_ && _); [|done].
  destruct (find_brace_body pattern st); [|done]. apply IH; [done|lia].
Qed.

Lemma find_brace_from_loop pattern f r :
  find_brace_loop f pattern (Fb 0 (-1) (-1) false 0) = Some r ->
  find_brace pattern = Some r.
Proof.
  intros H. destruct (find_brace_result pattern) as (r' & Hr' & _).
  unfold find_brace in *.
  pose proof (find_brace_loop_fuel _ _ (f + S (length pattern)) _ _ H ltac:(lia)) as H1.
  pose proof (find_brace_loop_fuel _ _ (f + S (length pattern)) _ _ Hr' ltac:(lia)) as H2.
  congruence.
Qed.

(** One round of the loop of [find_brace]. *)
Lemma find_brace_loop_round pattern st st' r :
  fb_i st < CInt.INT_MAX -> fb_end st < 0 -> at_ pattern (fb_i st) <> ch_nul ->
  find_brace_body pattern st = Some st' ->
  (exists f, find_brace_loop f pattern st' = Some r) ->
  exists f, find_brace_loop f pattern st = Some r.
Proof.
  intros Hi He Hc Hb (f & Hf). exists (S f). cbn [find_brace_loop].
  apply Z.ltb_lt in Hi, He. apply byte_eqb_false in Hc.
  rewrite Hi, He, Hc, Hb. done.
Qed.

(** Plain bytes leave the variables of [find_brace] alone. *)
Lemma find_brace_scan pattern pre mid rest s inb lvl r :
  pattern = pre ++ mid ++ rest -> plain mid ->
  Z.of_nat (length pattern) < CInt.INT_MAX ->
  (exists f, find_brace_loop f pattern
               (Fb (Z.of_nat (length pre + length mid)) s (-1) inb lvl) = Some r) ->
  exists f, find_brace_loop f pattern
              (Fb (Z.of_nat (length pre)) s (-1) inb lvl) = Some r.
Proof.
  intros Hp Hmid Hlen. revert pre Hp.
  induction Hmid as [|c mid Hc Hmid IH]; intros pre Hp Hr.
  { rewrite Nat.add_0_r in Hr. done. }
  apply brace_special_false in Hc as (H0 & H1 & H2 & H3 & H4 & H5).
  assert (Hat : at_ pattern (Z.of_nat (length pre)) = c)
    by (rewrite Hp; apply at_middle; done).
  assert (Hl : Z.of_nat (length pre) < Z.of_nat (length pattern)).
  { rewrite Hp, !length_app. cbn. lia. }
  eapply find_brace_loop_round; cbn [fb_i fb_end]; [lia|lia|by rewrite Hat| |].
  - unfold find_brace_body. cbn [fb_i]. rewrite Hat.
    apply byte_eqb_false in H1, H2, H3, H4, H5.
    rewrite H1, H2, H3, H4, H5. reflexivity.
  - cbn [fb_start fb_end fb_in_bracket fb_level].
    replace (Z.of_nat (length pre) + 1) with (Z.of_nat (length (pre ++ [c])))
      by (rewrite length_app; cbn; lia).
    apply IH.
    + rewrite Hp, <- app_assoc. done.
    + rewrite length_app. cbn.
      replace (length pre + 1 + length mid)%nat with (length pre + S (length mid))%nat
        by lia.
      exact Hr.
Qed.

Lemma find_brace_plain pattern :
  plain pattern -> Z.of_nat (length pattern) < CInt.INT_MAX ->
  find_brace pattern = Some (0, -1, -1).
Proof.
  intros Hp Hlen.
  destruct (find_brace_scan pattern [] pattern [] (-1) false 0 (0, -1, -1))
    as (f & Hf); [by rewrite app_nil_r|done|done| |].
  - exists 1%nat. cbn [find_brace_loop fb_i fb_end fb_start fb_in_bracket].
    rewrite at_past by (cbn; lia). cbn. rewrite andb_false_r. done.
  - exact (find_brace_from_loop pattern f _ Hf).
Qed.

(** The first brace pair of a pattern whose text before the closing brace
    is plain apart from the opening one. *)
Lemma find_brace_braced pattern pre body post :
  pattern = pre ++ ch_lbrace :: body ++ ch_rbrace :: post ->
  plain pre -> plain body -> body <> [] ->
  Z.of_nat (length pattern) < CInt.INT_MAX ->
  find_brace pattern
  = Some (0, Z.of_nat (length pre), Z.of_nat (length pre + 1 + length body)).
Proof.
  intros Hp Hpre Hbody Hne Hlen.
  assert (Hl : Z.of_nat (length pattern)
               = Z.of_nat (length pre + 1 + length body + 1 + length post)).
  { rewrite Hp, !length_app. cbn. rewrite length_app. cbn. lia. }
  assert (Hopen : at_ pattern (Z.of_nat (length pre)) = ch_lbrace)
    by (rewrite Hp; apply at_middle; done).
  assert (Hclose : at_ pattern (Z.of_nat (length pre + 1 + length body)) = ch_rbrace).
  { rewrite Hp.
    change (pre ++ ch_lbrace :: body ++ ch_rbrace :: post)
      with (pre ++ (ch_lbrace :: body) ++ ch_rbrace :: post).
    rewrite app_assoc. apply at_middle. rewrite length_app. cbn. lia. }
  assert (Hfirst : at_ pattern (Z.of_nat (length pre) + 1) <> ch_rbrace).
  { destruct body as [|c body]; [done|]. apply Forall_cons in Hbody as (Hc & _).
    apply brace_special_false in Hc as (_ & _ & _ & _ & _ & Hc).
    rewrite Hp, (cons_middle ch_lbrace), app_assoc, <- app_comm_cons.
    rewrite (at_middle (pre ++ [ch_lbrace]) c); [done|].
    rewrite length_app. cbn. lia. }
  destruct (find_brace_scan pattern [] pre (ch_lbrace :: body ++ ch_rbrace :: post)
              (-1) false 0
              (0, Z.of_nat (length pre), Z.of_nat (length pre + 1 + length body)))
    as (f & Hf); [done|done|done| |exact (find_brace_from_loop pattern f _ Hf)].
  cbn [length Nat.add].
  eapply find_brace_loop_round; cbn [fb_i fb_end]; [lia|lia|by rewrite Hopen| |].
  { unfold find_brace_body. cbn [fb_i fb_in_bracket fb_start fb_end fb_level].
    rewrite Hopen. apply byte_eqb_false in Hfirst. rewrite Hfirst. reflexivity. }
  cbn [Z.eqb Z.add].
  replace (Z.of_nat (length pre) + 1)
    with (Z.of_nat (length (pre ++ [ch_lbrace]))) by (rewrite length_app; cbn; lia).
  apply (find_brace_scan pattern (pre ++ [ch_lbrace]) body (ch_rbrace :: post));
    [by rewrite Hp, <- app_assoc|done|done|].
  rewrite length_app. cbn [length].
  eapply find_brace_loop_round; cbn [fb_i fb_end]; [lia|lia| | |].
  { replace (length pre + 1 + length body)%nat
      with (length pre + 1 + length body)%nat by lia. rewrite Hclose. done. }
  { unfold find_brace_body. cbn [fb_i fb_in_bracket fb_start fb_end fb_level].
    rewrite Hclose. cbn.
    destruct (Z.of_nat (length pre) <? 0) eqn:E; [apply Z.ltb_lt in E; lia|].
    reflexivity. }
  exists 1%nat. cbn [find_brace_loop fb_i fb_end fb_start fb_in_bracket].
  change (0 + 1 - 1 <=? 0) with true. cbv iota.
  assert (E : (Z.of_nat (length pre + 1 + length body) <? 0) = false)
    by (apply Z.ltb_ge; lia).
  rewrite E, andb_false_r. done.
Qed.

Lemma load_middle (l1 m l2 : list u_char) (off n : Z) :
  off = Z.of_nat (length l1) -> n = Z.of_nat (length m) ->
  load (l1 ++ m ++ l2) off n = m.
Proof.
  intros -> ->. unfold load. rewrite !Nat2Z.id, drop_app_length.
  apply take_app_length.
Qed.

Lemma expand_loop_fuel pattern bs be f1 f2 st r :
  expand_loop alloc_fails f1 pattern bs be st = Some r -> (f1 <= f2)%nat ->
  expand_loop alloc_fails f2 pattern bs be st = Some r.
Proof.
  revert f2 st. induction f1 as [|f1 IH]; intros f2 st H Hle; [done|].
  destruct f2 as [|f2]; [lia|]. cbn [expand_loop] in *.
  destruct (x_i st <? be); [|done].
  destruct (expand_body alloc_fails pattern bs be st); [|done].
  apply IH; [done|lia].
Qed.

Lemma expand_loop_round pattern bs be st st' r :
  x_i st < be ->
  expand_body alloc_fails pattern bs be st = inl st' ->
  (exists f, expand_loop alloc_fails f pattern bs be st' = Some r) ->
  exists f, expand_loop alloc_fails f pattern bs be st = Some r.
Proof.
  intros Hi Hb (f & Hf). exists (S f). cbn [expand_loop].
  apply Z.ltb_lt in Hi. rewrite Hi, Hb. done.
Qed.

Lemma plain_alt_false c :
  brace_special c = false /\ c <> ch_comma ->
  c <> ch_backslash /\ c <> ch_lbracket /\ c <> ch_rbracket
  /\ c <> ch_lbrace /\ c <> ch_rbrace /\ c <> ch_comma.
Proof. intros (Hc & Hn). apply brace_special_false in Hc. tauto. Qed.

(** A byte of a plain alternative that is not the last byte before the
    closing brace only moves [brace_expand_one] on. *)
Lemma expand_body_plain pattern bs be i ss ps k c :
  at_ pattern i = c -> brace_special c = false /\ c <> ch_comma ->
  i <> be - 1 ->
  expand_body alloc_fails pattern bs be (Ex i ss false 0 ps k)
  = inl (Ex (i + 1) ss false 0 ps k).
Proof.
  intros Hat Hc Hi. apply plain_alt_false in Hc as (H1 & H2 & H3 & H4 & H5 & H6).
  unfold expand_body. cbn [x_i x_sel_start x_in_bracket x_level x_patterns x_k].
  rewrite Hat. apply byte_eqb_false in H1, H2, H3, H4, H5, H6.
  rewrite H1, H2, H3, H4, H5, Hat, H6.
  apply Z.eqb_neq in Hi. rewrite Hi. done.
Qed.

Lemma expand_scan pattern bs be pre mid rest ss ps k r :
  pattern = pre ++ mid ++ rest -> plain_alt mid ->
  Z.of_nat (length pre + length mid) <= be - 1 ->
  (exists f, expand_loop alloc_fails f pattern bs be
               (Ex (Z.of_nat (length pre + length mid)) ss false 0 ps k) = Some r) ->
  exists f, expand_loop alloc_fails f pattern bs be
              (Ex (Z.of_nat (length pre)) ss false 0 ps k) = Some r.
Proof.
  intros Hp Hmid. revert pre Hp.
  induction Hmid as [|c mid Hc Hmid IH]; intros pre Hp Hbe Hr.
  { rewrite Nat.add_0_r in Hr. done. }
  cbn [length] in Hbe.
  assert (Hat : at_ pattern (Z.of_nat (length pre)) = c)
    by (rewrite Hp; apply at_middle; done).
  eapply expand_loop_round; cbn [x_i]; [lia| |].
  - apply (expand_body_plain _ _ _ _ _ _ _ c); [done|done|lia].
  - replace (Z.of_nat (length pre) + 1) with (Z.of_nat (length (pre ++ [c])))
      by (rewrite length_app; cbn; lia).
    apply IH.
    + rewrite Hp, <- app_assoc. done.
    + rewrite length_app. cbn. lia.
    + rewrite length_app. cbn.
      replace (length pre + 1 + length mid)%nat with (length pre + S (length mid))%nat
        by lia.
      exact Hr.
Qed.

Lemma strlen_id (s : list u_char) : ch_nul ∉ s -> strlen s = Z.of_nat (length s).
Proof. intros Hs. unfold strlen. now rewrite strdup_id. Qed.

(** The pattern that [emit_expansion] adds for the selection [sel]. *)
Lemma emit_expansion_exact pattern pre mid1 sel mid2 post bs be ss se ps k :
  pattern = pre ++ mid1 ++ sel ++ mid2 ++ ch_rbrace :: post ->
  (forall j, alloc_fails j = false) -> ch_nul ∉ post ->
  Z.of_nat (length pattern) < CInt.INT_MAX ->
  bs = Z.of_nat (length pre) -> ss = Z.of_nat (length pre + length mid1) ->
  se = Z.of_nat (length pre + length mid1 + length sel) ->
  be = Z.of_nat (length pre + length mid1 + length sel + length mid2) ->
  emit_expansion alloc_fails pattern bs be ss se ps k
  = (0, ps ++ [pre ++ sel ++ post], S (S k)).
Proof.
  intros Hp Hnf Hpost Hlen -> -> -> ->. unfold emit_expansion, append.
  rewrite !Hnf.
  assert (Hdrop : drop (Z.to_nat (Z.of_nat (length pre + length mid1 + length sel
                                              + length mid2) + 1)) pattern = post).
  { rewrite Hp.
    replace (pre ++ mid1 ++ sel ++ mid2 ++ ch_rbrace :: post)
      with ((pre ++ mid1 ++ sel ++ mid2 ++ [ch_rbrace]) ++ post)
      by (rewrite <- !app_assoc; done).
    apply drop_app_length'. rewrite !length_app. cbn. lia. }
  rewrite Hdrop, (strlen_id post Hpost).
  assert (Hl : Z.of_nat (length post) < Z.of_nat (length pattern)).
  { rewrite Hp, !length_app. cbn. lia. }
  rewrite int_small by (unfold CInt.INT_MAX in *; lia).
  assert (H0 : (if Z.of_nat (length pre) >? 0
                then load pattern 0 (Z.of_nat (length pre)) else []) = pre).
  { destruct pre as [|c pre]; [done|].
    replace (Z.of_nat (length (c :: pre)) >? 0) with true
      by (symmetry; rewrite Z.gtb_ltb; apply Z.ltb_lt; cbn; lia).
    rewrite Hp. apply (load_middle [] (c :: pre)); done. }
  rewrite H0.
  assert (H1 : (if Z.of_nat (length pre + length mid1 + length sel)
                   - Z.of_nat (length pre + length mid1) >? 0
                then pre ++ load pattern (Z.of_nat (length pre + length mid1))
                              (Z.of_nat (length pre + length mid1 + length sel)
                               - Z.of_nat (length pre + length mid1))
                else pre) = pre ++ sel).
  { replace (Z.of_nat (length pre + length mid1 + length sel)
             - Z.of_nat (length pre + length mid1))
      with (Z.of_nat (length sel)) by lia.
    destruct sel as [|c sel]; [cbn; symmetry; apply app_nil_r|].
    replace (Z.of_nat (length (c :: sel)) >? 0) with true
      by (symmetry; rewrite Z.gtb_ltb; apply Z.ltb_lt; cbn; lia).
    f_equal. rewrite Hp, (app_assoc pre mid1).
    apply load_middle; [rewrite length_app; lia|done]. }
  rewrite H1.
  assert (H2 : (if Z.of_nat (length post) >? 0
                then (pre ++ sel)
                     ++ load pattern
                          (Z.of_nat (length pre + length mid1 + length sel
                                     + length mid2) + 1)
                          (Z.of_nat (length post))
                else pre ++ sel) = pre ++ sel ++ post).
  { destruct post as [|c post];
      [change (Z.of_nat (length (@nil u_char)) >? 0) with false; cbv iota;
       by rewrite app_nil_r|].
    replace (Z.of_nat (length (c :: post)) >? 0) with true
      by (symmetry; rewrite Z.gtb_ltb; apply Z.ltb_lt; cbn; lia).
    rewrite <- app_assoc. do 2 f_equal. rewrite Hp.
    replace (pre ++ mid1 ++ sel ++ mid2 ++ ch_rbrace :: c :: post)
      with ((pre ++ mid1 ++ sel ++ mid2 ++ [ch_rbrace]) ++ (c :: post) ++ [])
      by (rewrite <- !app_assoc, app_nil_r; done).
    apply load_middle; [|done]. rewrite !length_app. cbn. lia. }
  rewrite H2. done.
Qed.

(** A comma, or the last byte before the closing brace, ends a selection
    when no bracket or nested brace is open. *)
Lemma expand_body_cut pattern bs be i ss ps k c ps' k' :
  at_ pattern i = c -> brace_special c = false ->
  c = ch_comma \/ i = be - 1 ->
  emit_expansion alloc_fails pattern bs be ss (if i =? be - 1 then be else i) ps k
  = (0, ps', k') ->
  expand_body alloc_fails pattern bs be (Ex i ss false 0 ps k)
  = inl (Ex (i + 1) (i + 1) false 0 ps' k').
Proof.
  intros Hat Hc Hcut He. apply brace_special_false in Hc as (H0 & H1 & H2 & H3 & H4 & H5).
  unfold expand_body. cbn [x_i x_sel_start x_in_bracket x_level x_patterns x_k].
  rewrite Hat. apply byte_eqb_false in H1, H2, H3, H4, H5.
  rewrite H1, H2, H3, H4, H5, Hat.
  assert (Ecut : Byte.eqb c ch_comma || (i =? be - 1) = true).
  { destruct Hcut as [->| ->]; [done|]. rewrite Z.eqb_refl. apply orb_true_r. }
  rewrite Ecut. cbn [orb Z.gtb Z.compare]. rewrite He. done.
Qed.

Lemma with_commas_length init :
  length (with_commas init)
  = (sum_list_with (fun a : list u_char => length a + 1) init)%nat.
Proof.
  induction init as [|a init IH]; [done|]. cbn. rewrite length_app. cbn. lia.
Qed.

(** The alternatives that a comma ends, when more text follows before the
    closing brace: each is added between the text before the opening brace
    and the text after the closing one. *)
Lemma expand_alts pattern pre post tailseg bs be r :
  (forall j, alloc_fails j = false) -> ch_nul ∉ post ->
  Z.of_nat (length pattern) < CInt.INT_MAX -> tailseg <> [] ->
  bs = Z.of_nat (length pre) ->
  forall init seen ps k,
    Forall plain_alt init ->
    pattern = pre ++ ch_lbrace :: seen ++ with_commas init ++ tailseg
                  ++ ch_rbrace :: post ->
    be = Z.of_nat (length pre + 1 + length seen + length (with_commas init)
                   + length tailseg) ->
    (exists f, expand_loop alloc_fails f pattern bs be
                 (Ex (Z.of_nat (length pre + 1 + length seen
                                + length (with_commas init)))
                     (Z.of_nat (length pre + 1 + length seen
                                + length (with_commas init)))
                     false 0
                     (ps ++ map (fun a => pre ++ a ++ post) init)
                     (k + 2 * length init)) = Some r) ->
    exists f, expand_loop alloc_fails f pattern bs be
                (Ex (Z.of_nat (length pre + 1 + length seen))
                    (Z.of_nat (length pre + 1 + length seen)) false 0 ps k)
              = Some r.
Proof.
  intros Hnf Hpost Hlen Htail ->.
  induction init as [|a init IH]; intros seen ps k Hinit Hp Hbe Hr.
  { cbn in Hr. rewrite app_nil_r, !Nat.add_0_r in Hr. exact Hr. }
  apply Forall_cons in Hinit as (Ha & Hinit).
  cbn [with_commas] in Hp, Hbe. rewrite length_app in Hbe. cbn [length] in Hbe.
  assert (Htl : (1 <= length tailseg)%nat) by (destruct tailseg; [done|cbn; lia]).
  assert (Hpa : pattern = (pre ++ ch_lbrace :: seen) ++ a
                            ++ (ch_comma :: with_commas init ++ tailseg
                                  ++ ch_rbrace :: post)).
  { rewrite Hp. app_eq. }
  assert (Hls : length (pre ++ ch_lbrace :: seen) = (length pre + 1 + length seen)%nat)
    by (rewrite length_app; cbn; lia).
  rewrite <- Hls.
  apply (expand_scan pattern _ be (pre ++ ch_lbrace :: seen) a
           (ch_comma :: with_commas init ++ tailseg ++ ch_rbrace :: post));
    [exact Hpa|exact Ha|rewrite Hls; lia|].
  rewrite Hls.
  set (i := Z.of_nat (length pre + 1 + length seen + length a)).
  assert (Hat : at_ pattern i = ch_comma).
  { rewrite Hpa, app_assoc. apply at_middle. unfold i.
    rewrite !length_app. cbn. lia. }
  assert (Hi : i <> be - 1) by (unfold i; lia).
  eapply expand_loop_round; cbn [x_i]; [unfold i; lia| |].
  - apply (expand_body_cut _ _ _ _ _ _ _ ch_comma); [exact Hat|done|by left|].
    apply Z.eqb_neq in Hi. rewrite Hi.
    apply (emit_expansion_exact pattern pre (ch_lbrace :: seen) a
             (ch_comma :: with_commas init ++ tailseg) post);
      [|done|done|done|done|cbn; f_equal; lia|unfold i; cbn; f_equal; lia|].
    + rewrite Hp. app_eq.
    + rewrite Hbe. cbn. rewrite length_app. f_equal. lia.
  - specialize (IH (seen ++ a ++ [ch_comma]) (ps ++ [pre ++ a ++ post]) (S (S k))
                  Hinit).
    assert (Hl2 : (length pre + 1 + length (seen ++ a ++ [ch_comma])
                   = length pre + 1 + length seen + length a + 1)%nat)
      by (rewrite !length_app; cbn; lia).
    rewrite Hl2 in IH.
    replace (i + 1) with (Z.of_nat (length pre + 1 + length seen + length a + 1))
      by (unfold i; lia).
    apply IH.
    + rewrite Hp. app_eq.
    + rewrite Hbe. f_equal. lia.
    + cbn [map length] in Hr. rewrite <- app_assoc. cbn [app].
      replace (length pre + 1 + length seen + length a + 1 + length (with_commas init))%nat
        with (length pre + 1 + length seen
              + (length a + S (length (with_commas init))))%nat by lia.
      replace (S (S k) + 2 * length init)%nat with (k + 2 * S (length init))%nat by lia.
      cbn [with_commas] in Hr. rewrite length_app in Hr. cbn [length] in Hr.
      exact Hr.
Qed.

Lemma expand_loop_bridge pattern bs be ps k r :
  0 <= bs -> bs + 1 < be -> be < Z.of_nat (length pattern) ->
  Z.of_nat (length pattern) < CInt.INT_MAX ->
  (exists f, expand_loop alloc_fails f pattern bs be
               (Ex (bs + 1) (bs + 1) false 0 ps k) = Some r) ->
  expand_loop alloc_fails (S (length pattern)) pattern bs be
    (Ex (bs + 1) (bs + 1) false 0 ps k) = Some r.
Proof.
  intros Hbs Hse Hbe Hlen (f & Hf).
  destruct (expand_loop_post pattern bs be ps (S (length pattern))
              (Ex (bs + 1) (bs + 1) false 0 ps k) Hbs Hbe Hlen)
    as (r' & Hr' & _).
  { split; [cbn; lia|]. split; [cbn; lia|]. exists []. cbn.
    rewrite app_nil_r. split; [done|]. split; [done|]. split; [lia|]. lia. }
  { cbn. lia. }
  pose proof (expand_loop_fuel _ _ _ _ (f + S (length pattern)) _ _ Hf ltac:(lia)) as H1.
  pose proof (expand_loop_fuel _ _ _ _ (f + S (length pattern)) _ _ Hr' ltac:(lia)) as H2.
  congruence.
Qed.

Lemma plain_alt_plain s : plain_alt s -> plain s.
Proof. intros H. eapply Forall_impl; [exact H|]. cbn. tauto. Qed.

Lemma with_commas_plain init : Forall plain_alt init -> plain (with_commas init).
Proof.
  induction 1 as [|a init Ha Hinit IH]; [constructor|]. cbn.
  apply Forall_app. split; [by apply plain_alt_plain|]. by constructor.
Qed.

(** One round of expansion of a pattern whose first brace pair holds plain
    alternatives: those that a comma ends, when text follows, and then the
    text [tail] up to the closing brace, which is taken whole, its last
    byte [c] included whatever it is. *)
Lemma brace_expand_one_tail pattern pre init tail c post ps k :
  pattern = pre ++ ch_lbrace :: with_commas init ++ (tail ++ [c])
                ++ ch_rbrace :: post ->
  plain pre -> Forall plain_alt init -> plain_alt tail -> brace_special c = false ->
  ch_nul ∉ post -> (forall j, alloc_fails j = false) ->
  Z.of_nat (length pattern) < CInt.INT_MAX ->
  brace_expand_one alloc_fails pattern ps k
  = Some (ExOne 0 (ps ++ map (fun a => pre ++ a ++ post) (init ++ [tail ++ [c]]))
                (k + 2 * (length init + 1)) true false).
Proof.
  intros Hp Hpre Hinit Htail Hc Hpost Hnf Hlen.
  set (body := with_commas init ++ tail ++ [c]).
  assert (Hbody : plain body).
  { apply Forall_app. split; [by apply with_commas_plain|].
    apply Forall_app. split; [by apply plain_alt_plain|]. by constructor. }
  assert (Hne : body <> []).
  { unfold body. intros H. apply (f_equal length) in H.
    rewrite !length_app in H. cbn in H. lia. }
  assert (Hlb : length body = (length (with_commas init) + length tail + 1)%nat)
    by (unfold body; rewrite !length_app; cbn; lia).
  assert (Hp' : pattern = pre ++ ch_lbrace :: body ++ ch_rbrace :: post)
    by (rewrite Hp; unfold body; app_eq).
  assert (Hl : length pattern = (length pre + 1 + length body + 1 + length post)%nat).
  { rewrite Hp', !length_app. cbn. rewrite length_app. cbn. lia. }
  unfold brace_expand_one.
  rewrite (find_brace_braced pattern pre body post); [|done..].
  cbn [Z.eqb negb].
  destruct (Z.of_nat (length pre) =? -1) eqn:E; [apply Z.eqb_eq in E; lia|]. clear E.
  set (be := Z.of_nat (length pre + 1 + length body)).
  rewrite (expand_loop_bridge pattern _ be ps k
             (inl (Ex be be false 0
                      (ps ++ map (fun a => pre ++ a ++ post) (init ++ [tail ++ [c]]))
                      (k + 2 * (length init + 1))))); [|lia|unfold be; rewrite Hlb; lia|unfold be; lia|done|].
  { cbn [x_in_bracket x_level x_patterns x_k orb Z.gtb Z.compare]. done. }
  replace (Z.of_nat (length pre) + 1) with (Z.of_nat (length pre + 1 + length (@nil u_char)))
    by (cbn; lia).
  assert (Hne2 : tail ++ [c] <> []) by (by destruct tail).
  apply (expand_alts pattern pre post (tail ++ [c]) _ be _ Hnf Hpost Hlen Hne2
           eq_refl init [] ps k Hinit);
    [by rewrite Hp|unfold be; rewrite Hlb, length_app; cbn; f_equal; lia|].
  cbn [length]. rewrite Nat.add_0_r.
  set (seen := with_commas init).
  assert (Hps : pattern = (pre ++ ch_lbrace :: seen) ++ tail ++ (c :: ch_rbrace :: post)).
  { rewrite Hp. fold seen. app_eq. }
  assert (Hls : length (pre ++ ch_lbrace :: seen) = (length pre + 1 + length seen)%nat)
    by (rewrite length_app; cbn; lia).
  rewrite <- Hls.
  apply (expand_scan pattern _ be (pre ++ ch_lbrace :: seen) tail
           (c :: ch_rbrace :: post)); [exact Hps|exact Htail| |].
  { rewrite Hls. unfold be. rewrite Hlb. fold seen. lia. }
  rewrite Hls.
  set (i := Z.of_nat (length pre + 1 + length seen + length tail)).
  assert (Hi : i = be - 1) by (unfold i, be; rewrite Hlb; fold seen; lia).
  assert (Hat : at_ pattern i = c).
  { rewrite Hps, app_assoc. apply at_middle. unfold i. rewrite !length_app. cbn. lia. }
  eapply expand_loop_round; cbn [x_i]; [lia| |].
  - apply (expand_body_cut _ _ _ _ _ _ _ c); [exact Hat|exact Hc|by right|].
    rewrite Hi, Z.eqb_refl.
    apply (emit_expansion_exact pattern pre (ch_lbrace :: seen) (tail ++ [c]) [] post);
      [|done|done|done|done|cbn; f_equal; lia| |].
    + rewrite Hp. fold seen. app_eq.
    + unfold be. rewrite Hlb. fold seen. rewrite length_app. cbn. f_equal. lia.
    + unfold be. rewrite Hlb. fold seen. rewrite length_app. cbn. f_equal. lia.
  - exists 1%nat. cbn [expand_loop x_i].
    replace (i + 1) with be by lia. rewrite Z.ltb_irrefl.
    do 2 f_equal. f_equal; [rewrite map_app; cbn [map]; app_eq|lia].
Qed.

(** X17.  One round of expansion on the plain case.  For a pattern
    [pre{a1,...,an}post] whose text before the opening brace has none of
    the bytes the code singles out, whose alternatives have none of them
    and no comma, and whose last alternative is not empty,
    [brace_expand_one] succeeds when no allocation fails: it reports an
    expansion and adds, in the order of the alternatives, the [n] patterns
    [pre ai post] at the end of the array. *)
Theorem brace_expand_one_flat (pattern pre : list u_char)
    (init : list (list u_char)) (an post : list u_char)
    (ps : list (list u_char)) (k : nat) :
  pattern = pre ++ ch_lbrace :: with_commas init ++ an ++ ch_rbrace :: post ->
  plain pre -> Forall plain_alt init -> plain_alt an -> an <> [] ->
  ch_nul ∉ post -> (forall j, alloc_fails j = false) ->
  Z.of_nat (length pattern) < CInt.INT_MAX ->
  exists k',
    brace_expand_one alloc_fails pattern ps k
    = Some (ExOne 0 (ps ++ map (fun a => pre ++ a ++ post) (init ++ [an]))
                  k' true false).
Proof.
  intros Hp Hpre Hinit Hlast Hne Hpost Hnf Hlen.
  destruct (exists_last Hne) as (tail & c & ->).
  apply Forall_app in Hlast as (Htail & Hc). rewrite Forall_singleton in Hc.
  eexists. apply (brace_expand_one_tail pattern pre init tail c post); tauto.
Qed.

(** X18.  A comma just before the closing brace does not end an
    alternative.  For a pattern [pre{a1,...,an,}post] with plain
    alternatives, [brace_expand_one] adds [n] patterns and not [n + 1]:
    the last one is [pre an , post], with the comma kept, and no pattern
    is added for the empty alternative after the comma. *)
Theorem brace_expand_one_trailing_comma (pattern pre : list u_char)
    (init : list (list u_char)) (a post : list u_char)
    (ps : list (list u_char)) (k : nat) :
  pattern = pre ++ ch_lbrace :: with_commas (init ++ [a]) ++ ch_rbrace :: post ->
  plain pre -> Forall plain_alt init -> plain_alt a ->
  ch_nul ∉ post -> (forall j, alloc_fails j = false) ->
  Z.of_nat (length pattern) < CInt.INT_MAX ->
  exists k',
    brace_expand_one alloc_fails pattern ps k
    = Some (ExOne 0 (ps ++ map (fun a => pre ++ a ++ post) init
                        ++ [pre ++ (a ++ [ch_comma]) ++ post])
                  k' true false).
Proof.
  intros Hp Hpre Hinit Ha Hpost Hnf Hlen.
  assert (Hw : with_commas (init ++ [a]) = with_commas init ++ a ++ [ch_comma]).
  { clear. induction init as [|b init IH]; [cbn; done|].
    cbn. rewrite IH. app_eq. }
  eexists.
  rewrite (brace_expand_one_tail pattern pre init a ch_comma post ps k);
    [|rewrite Hp, Hw; app_eq|done..].
  rewrite map_app. cbn [map]. reflexivity.
Qed.

(** ** The worklist *)

Lemma plain_no_nul s : plain s -> ch_nul ∉ s.
Proof.
  intros Hs Hin. eapply Forall_forall in Hs; [|exact Hin]. done.
Qed.

Lemma brace_expand_one_plain pattern ps k :
  plain pattern -> Z.of_nat (length pattern) < CInt.INT_MAX ->
  brace_expand_one alloc_fails pattern ps k = Some (ExOne 0 ps k false false).
Proof.
  intros Hp Hlen. unfold brace_expand_one. rewrite find_brace_plain by done. done.
Qed.

(** Plain patterns leave the worklist one by one, from its top, and their
    file-name components go on the completed list. *)
Lemma brace_expand_loop_plain active :
  (forall j, alloc_fails j = false) ->
  Forall plain active ->
  Forall (fun p => Z.of_nat (length p) < CInt.INT_MAX) active ->
  forall fuel done k,
    (length active < fuel)%nat ->
    brace_expand_loop alloc_fails fuel active done k
    = Some (ExpRet 0 (done ++ map last_component (rev active))).
Proof.
  intros Hnf. induction active as [|cp rest IH] using rev_ind;
    intros Hpl Hlen fuel done k Hfuel.
  { destruct fuel; [cbn in Hfuel; lia|]. cbn. by rewrite app_nil_r. }
  apply Forall_app in Hpl as (Hrest & Hcp). rewrite Forall_singleton in Hcp.
  apply Forall_app in Hlen as (Hlrest & Hlcp). rewrite Forall_singleton in Hlcp.
  rewrite length_app in Hfuel. cbn in Hfuel.
  destruct fuel as [|fuel]; [lia|]. cbn [brace_expand_loop].
  rewrite last_snoc, removelast_last, (brace_expand_one_plain cp rest k Hcp Hlcp).
  cbn [o_ret o_invalid o_expanded o_k o_patterns Z.eqb]. rewrite Hnf.
  unfold append. rewrite Hnf. cbn [fst snd Z.eqb negb].
  rewrite (IH Hrest Hlrest) by lia.
  rewrite rev_app_distr. cbn [rev app map]. rewrite <- app_assoc. done.
Qed.

(** X19.  A pattern with none of the bytes that the expansion singles out
    is not expanded: when no allocation fails, [brace_expand] returns 0
    with one pattern, the file-name component of the pattern given. *)
Theorem brace_expand_plain (pattern : list u_char) (fuel : nat) :
  plain pattern -> Z.of_nat (length pattern) < CInt.INT_MAX ->
  (forall j, alloc_fails j = false) -> (2 <= fuel)%nat ->
  brace_expand alloc_fails fuel pattern
  = Some (ExpRet 0 [last_component pattern]).
Proof.
  intros Hp Hlen Hnf Hfuel. unfold brace_expand, append. rewrite !Hnf.
  cbn [fst snd Z.eqb negb app].
  rewrite (strdup_id pattern (plain_no_nul pattern Hp)).
  rewrite (brace_expand_loop_plain [pattern] Hnf); [done| | |cbn; lia].
  - by apply Forall_singleton.
  - by apply Forall_singleton.
Qed.

(** X20.  The order of the result.  For a pattern [pre{a1,...,an}post] with
    plain text around plain alternatives, the last of them not empty,
    [brace_expand] returns 0 when no allocation fails, and the patterns
    it returns are the file-name components of the [n] expansions in the
    reverse of the order of the alternatives: the worklist is a stack. *)
Theorem brace_expand_flat (pattern pre : list u_char)
    (init : list (list u_char)) (an post : list u_char) (fuel : nat) :
  pattern = pre ++ ch_lbrace :: with_commas init ++ an ++ ch_rbrace :: post ->
  plain pre -> Forall plain_alt init -> plain_alt an -> an <> [] -> plain post ->
  (forall j, alloc_fails j = false) ->
  Z.of_nat (length pattern) < CInt.INT_MAX ->
  (length init + 3 <= fuel)%nat ->
  brace_expand alloc_fails fuel pattern
  = Some (ExpRet 0 (map (fun a => last_component (pre ++ a ++ post))
                        (rev (init ++ [an])))).
Proof.
  intros Hp Hpre Hinit Han Hne Hpost Hnf Hlen Hfuel.
  assert (Hnul : ch_nul ∉ pattern).
  { rewrite Hp. intros Hin.
    apply elem_of_app in Hin as [Hin|Hin]; [by apply (plain_no_nul pre)|].
    apply elem_of_cons in Hin as [Hin|Hin]; [done|].
    apply elem_of_app in Hin as [Hin|Hin];
      [by apply (plain_no_nul _ (with_commas_plain init Hinit))|].
    apply elem_of_app in Hin as [Hin|Hin];
      [by apply (plain_no_nul _ (plain_alt_plain an Han))|].
    apply elem_of_cons in Hin as [Hin|Hin]; [done|].
    by apply (plain_no_nul post). }
  unfold brace_expand, append. rewrite !Hnf. cbn [fst snd Z.eqb negb app].
  rewrite (strdup_id pattern Hnul).
  destruct fuel as [|fuel]; [lia|]. cbn [brace_expand_loop last removelast].
  assert (Hone : exists k',
             brace_expand_one alloc_fails pattern [] 2
             = Some (ExOne 0 ([] ++ map (fun a => pre ++ a ++ post) (init ++ [an]))
                           k' true false)).
  { destruct (exists_last Hne) as (tail & c & ->).
    apply Forall_app in Han as (Htail & Hc). rewrite Forall_singleton in Hc.
    eexists. apply (brace_expand_one_tail pattern pre init tail c post);
      [done|done|done|done|tauto|by apply plain_no_nul|done|done]. }
  destruct Hone as (k' & ->).
  cbn [o_ret o_invalid o_expanded o_k o_patterns Z.eqb app].
  set (exps := map (fun a => pre ++ a ++ post) (init ++ [an])).
  assert (Hall : Forall (fun a => plain (pre ++ a ++ post)
                          /\ (length (pre ++ a ++ post) <= length pattern)%nat)
                   (init ++ [an])).
  { apply Forall_forall. intros a Ha. split.
    - apply Forall_app. split; [done|]. apply Forall_app. split; [|done].
      apply plain_alt_plain. apply elem_of_app in Ha as [Ha|Ha].
      + eapply Forall_forall in Hinit; [exact Hinit|done].
      + apply list_elem_of_singleton in Ha. by subst.
    - rewrite Hp, !length_app. cbn. rewrite !length_app. cbn.
      assert (length a <= length (with_commas init) + length an)%nat; [|lia].
      apply elem_of_app in Ha as [Ha|Ha].
      + clear -Ha. induction init as [|b init IH]; [by apply elem_of_nil in Ha|].
        cbn. rewrite length_app. cbn.
        apply elem_of_cons in Ha as [->|Ha]; [lia|]. specialize (IH Ha). lia.
      + apply list_elem_of_singleton in Ha. subst. lia. }
  rewrite (brace_expand_loop_plain exps Hnf).
  - cbn [app]. unfold exps. rewrite <- map_rev, map_map. done.
  - unfold exps. apply Forall_map. eapply Forall_impl; [exact Hall|]. cbn. tauto.
  - unfold exps. apply Forall_map. eapply Forall_impl; [exact Hall|]. cbn.
    intros a (_ & Hl). lia.
  - unfold exps. rewrite length_map, length_app. cbn. lia.
Qed.

(** ** Other shapes of pattern *)

Lemma find_open pattern pre rest r :
  pattern = pre ++ ch_lbrace :: rest -> plain pre ->
  at_ pattern (Z.of_nat (length pre) + 1) <> ch_rbrace ->
  Z.of_nat (length pattern) < CInt.INT_MAX ->
  (exists f, find_brace_loop f pattern
               (Fb (Z.of_nat (length pre) + 1) (Z.of_nat (length pre)) (-1) false 1)
             = Some r) ->
  find_brace pattern = Some r.
Proof.
  intros Hp Hpre Hfirst Hlen Hr.
  assert (Hl : Z.of_nat (length pre) < Z.of_nat (length pattern)).
  { rewrite Hp, length_app. cbn. lia. }
  assert (Hopen : at_ pattern (Z.of_nat (length pre)) = ch_lbrace)
    by (rewrite Hp; apply at_middle; done).
  destruct (find_brace_scan pattern [] pre (ch_lbrace :: rest) (-1) false 0 r)
    as (f & Hf); [done|done|done| |exact (find_brace_from_loop pattern f _ Hf)].
  cbn [length Nat.add].
  eapply find_brace_loop_round; cbn [fb_i fb_end]; [lia|lia|by rewrite Hopen| |exact Hr].
  unfold find_brace_body. cbn [fb_i fb_in_bracket fb_start fb_end fb_level].
  rewrite Hopen. apply byte_eqb_false in Hfirst. rewrite Hfirst. reflexivity.
Qed.

Lemma find_close pattern i s :
  at_ pattern i = ch_rbrace -> 0 <= s -> 0 <= i < CInt.INT_MAX ->
  exists f, find_brace_loop f pattern (Fb i s (-1) false 1) = Some (0, s, i).
Proof.
  intros Hat Hs Hi.
  eapply find_brace_loop_round; cbn [fb_i fb_end]; [lia|lia|by rewrite Hat| |].
  { unfold find_brace_body. cbn [fb_i fb_in_bracket fb_start fb_end fb_level].
    rewrite Hat. cbn.
    destruct (s <? 0) eqn:E; [apply Z.ltb_lt in E; lia|]. reflexivity. }
  exists 1%nat. cbn [find_brace_loop fb_i fb_end fb_start fb_in_bracket].
  change (1 - 1 <=? 0) with true. cbv iota.
  assert (E : (i <? 0) = false) by (apply Z.ltb_ge; lia).
  rewrite E, andb_false_r. done.
Qed.

(** The text from the last comma seen up to the closing brace is taken
    whole. *)
Lemma expand_tail pattern pre seen tail c post bs be ps k :
  pattern = pre ++ ch_lbrace :: seen ++ (tail ++ [c]) ++ ch_rbrace :: post ->
  plain_alt tail -> brace_special c = false ->
  ch_nul ∉ post -> (forall j, alloc_fails j = false) ->
  Z.of_nat (length pattern) < CInt.INT_MAX ->
  bs = Z.of_nat (length pre) ->
  be = Z.of_nat (length pre + 1 + length seen + length tail + 1) ->
  exists f, expand_loop alloc_fails f pattern bs be
              (Ex (Z.of_nat (length pre + 1 + length seen))
                  (Z.of_nat (length pre + 1 + length seen)) false 0 ps k)
            = Some (inl (Ex be be false 0
                            (ps ++ [pre ++ (tail ++ [c]) ++ post]) (S (S k)))).
Proof.
  intros Hp Htail Hc Hpost Hnf Hlen -> Hbe.
  assert (Hps : pattern = (pre ++ ch_lbrace :: seen) ++ tail ++ (c :: ch_rbrace :: post)).
  { rewrite Hp. app_eq. }
  assert (Hls : length (pre ++ ch_lbrace :: seen) = (length pre + 1 + length seen)%nat)
    by (rewrite length_app; cbn; lia).
  rewrite <- Hls.
  apply (expand_scan pattern _ be (pre ++ ch_lbrace :: seen) tail
           (c :: ch_rbrace :: post)); [exact Hps|exact Htail|rewrite Hls; lia|].
  rewrite Hls.
  set (i := Z.of_nat (length pre + 1 + length seen + length tail)).
  assert (Hi : i = be - 1) by (unfold i; lia).
  assert (Hat : at_ pattern i = c).
  { rewrite Hps, app_assoc. apply at_middle. unfold i. rewrite !length_app. cbn. lia. }
  eapply expand_loop_round; cbn [x_i]; [lia| |].
  - apply (expand_body_cut _ _ _ _ _ _ _ c); [exact Hat|exact Hc|by right|].
    rewrite Hi, Z.eqb_refl.
    apply (emit_expansion_exact pattern pre (ch_lbrace :: seen) (tail ++ [c]) [] post);
      [|done|done|done|done|cbn; f_equal; lia| |].
    + rewrite Hp. app_eq.
    + rewrite Hbe, length_app. cbn. f_equal. lia.
    + rewrite Hbe, length_app. cbn. f_equal. lia.
  - exists 1%nat. cbn [expand_loop x_i].
    replace (i + 1) with be by lia. rewrite Z.ltb_irrefl. done.
Qed.

(** A backslash before a comma moves [brace_expand_one] onto the comma,
    which then ends the selection as any other comma. *)
Lemma expand_body_escaped_comma pattern bs be i ss ps k ps' k' :
  at_ pattern i = ch_backslash -> at_ pattern (i + 1) = ch_comma ->
  i < be - 1 -> i + 1 <> be - 1 ->
  emit_expansion alloc_fails pattern bs be ss (i + 1) ps k = (0, ps', k') ->
  expand_body alloc_fails pattern bs be (Ex i ss false 0 ps k)
  = inl (Ex (i + 1 + 1) (i + 1 + 1) false 0 ps' k').
Proof.
  intros Hat Hnext Hi Hne He.
  unfold expand_body. cbn [x_i x_sel_start x_in_bracket x_level x_patterns x_k].
  rewrite Hat. cbn [Byte.eqb].
  change (Byte.eqb ch_backslash ch_backslash) with true.
  change (Byte.eqb ch_backslash ch_lbracket) with false.
  change (Byte.eqb ch_backslash ch_rbracket) with false.
  change (Byte.eqb ch_backslash ch_lbrace) with false.
  change (Byte.eqb ch_backslash ch_rbrace) with false.
  cbv iota. apply Z.ltb_lt in Hi. rewrite Hi, Hnext.
  change (Byte.eqb ch_comma ch_comma) with true. cbn [orb Z.gtb Z.compare].
  apply Z.eqb_neq in Hne. rewrite Hne, He. done.
Qed.

(** X21.  A backslash does not protect a comma inside braces.  For a
    pattern [pre{a\,b}post] with plain [a] and [b], [b] not empty,
    [find_brace] steps over the escaped comma, but [brace_expand_one]
    ends a selection at it: when no allocation fails it reports an
    expansion and adds two patterns, [pre a\ post], which keeps the
    backslash, and [pre b post]. *)
Theorem brace_expand_one_escaped_comma (pattern pre a b post : list u_char)
    (ps : list (list u_char)) (k : nat) :
  pattern = pre ++ ch_lbrace :: a ++ ch_backslash :: ch_comma :: b
                ++ ch_rbrace :: post ->
  plain pre -> plain_alt a -> plain_alt b -> b <> [] ->
  ch_nul ∉ post -> (forall j, alloc_fails j = false) ->
  Z.of_nat (length pattern) < CInt.INT_MAX ->
  exists k',
    brace_expand_one alloc_fails pattern ps k
    = Some (ExOne 0 (ps ++ [pre ++ (a ++ [ch_backslash]) ++ post;
                            pre ++ b ++ post])
                  k' true false).
Proof.
  intros Hp Hpre Ha Hb Hne Hpost Hnf Hlen.
  destruct (exists_last Hne) as (tail & c & ->).
  apply Forall_app in Hb as (Htail & Hc). rewrite Forall_singleton in Hc.
  destruct Hc as (Hc & _).
  set (n := (length pre + 1 + length a)%nat).
  set (be := Z.of_nat (n + 2 + length tail + 1)).
  assert (Hl : length pattern = (n + 2 + length tail + 1 + 1 + length post)%nat).
  { rewrite Hp. list_len. unfold n. lia. }
  assert (Hbs : at_ pattern (Z.of_nat n) = ch_backslash).
  { rewrite Hp.
    replace (pre ++ ch_lbrace :: a ++ ch_backslash :: ch_comma :: (tail ++ [c])
               ++ ch_rbrace :: post)
      with ((pre ++ ch_lbrace :: a) ++ ch_backslash :: ch_comma :: (tail ++ [c])
               ++ ch_rbrace :: post) by app_eq.
    apply at_middle. list_len. unfold n. lia. }
  assert (Hcm : at_ pattern (Z.of_nat n + 1) = ch_comma).
  { rewrite Hp.
    replace (pre ++ ch_lbrace :: a ++ ch_backslash :: ch_comma :: (tail ++ [c])
               ++ ch_rbrace :: post)
      with ((pre ++ ch_lbrace :: a ++ [ch_backslash]) ++ ch_comma :: (tail ++ [c])
               ++ ch_rbrace :: post) by app_eq.
    apply at_middle. list_len. unfold n. lia. }
  assert (Hcl : at_ pattern be = ch_rbrace).
  { rewrite Hp.
    replace (pre ++ ch_lbrace :: a ++ ch_backslash :: ch_comma :: (tail ++ [c])
               ++ ch_rbrace :: post)
      with ((pre ++ ch_lbrace :: a ++ ch_backslash :: ch_comma :: tail ++ [c])
               ++ ch_rbrace :: post) by app_eq.
    apply at_middle. list_len. unfold be, n. lia. }
  assert (Hfind : find_brace pattern = Some (0, Z.of_nat (length pre), be)).
  { apply (find_open pattern pre
             (a ++ ch_backslash :: ch_comma :: (tail ++ [c]) ++ ch_rbrace :: post));
      [done|done| |done|].
    { destruct a as [|c0 a0].
      - cbn in Hbs. unfold n in Hbs. cbn in Hbs.
        replace (Z.of_nat (length pre) + 1) with (Z.of_nat (length pre + 1 + 0)) by lia.
        rewrite Hbs. done.
      - apply Forall_cons in Ha as (Hc0 & _).
        apply plain_alt_false in Hc0 as (_ & _ & _ & _ & Hc0 & _).
        rewrite Hp, (cons_middle ch_lbrace), app_assoc, <- app_comm_cons.
        rewrite (at_middle (pre ++ [ch_lbrace]) c0); [done|].
        rewrite length_app. cbn. lia. }
    replace (Z.of_nat (length pre) + 1)
      with (Z.of_nat (length (pre ++ [ch_lbrace]))) by (rewrite length_app; cbn; lia).
    apply (find_brace_scan pattern (pre ++ [ch_lbrace]) a
             (ch_backslash :: ch_comma :: (tail ++ [c]) ++ ch_rbrace :: post));
      [rewrite Hp; app_eq|by apply plain_alt_plain|done|].
    rewrite length_app. cbn [length]. fold n.
    eapply find_brace_loop_round; cbn [fb_i fb_end]; [lia|lia|by rewrite Hbs| |].
    { unfold find_brace_body. cbn [fb_i fb_in_bracket fb_start fb_end fb_level].
      rewrite Hbs, Hcm. reflexivity. }
    change (Byte.eqb ch_comma ch_nul) with false. cbn [negb]. cbv iota.
    replace (Z.of_nat n + 1 + 1)
      with (Z.of_nat (length (pre ++ ch_lbrace :: a ++ [ch_backslash; ch_comma])))
      by (list_len; unfold n; lia).
    apply (find_brace_scan pattern (pre ++ ch_lbrace :: a ++ [ch_backslash; ch_comma])
             (tail ++ [c]) (ch_rbrace :: post)); [rewrite Hp; app_eq| |done|].
    { apply Forall_app. split; [by apply plain_alt_plain|]. by constructor. }
    replace (Z.of_nat (length (pre ++ ch_lbrace :: a ++ [ch_backslash; ch_comma])
                       + length (tail ++ [c]))) with be
      by (list_len; unfold be, n; lia).
    apply find_close; [exact Hcl|lia|unfold be; lia]. }
  unfold brace_expand_one. rewrite Hfind. cbn [Z.eqb negb].
  destruct (Z.of_nat (length pre) =? -1) eqn:E; [apply Z.eqb_eq in E; lia|]. clear E.
  eexists.
  rewrite (expand_loop_bridge pattern _ be ps k
             (inl (Ex be be false 0
                      (ps ++ [pre ++ (a ++ [ch_backslash]) ++ post;
                              pre ++ (tail ++ [c]) ++ post])
                      (S (S (S (S k))))))); [|lia|unfold be, n; lia|unfold be; lia|done|].
  { cbn [x_in_bracket x_level x_patterns x_k orb Z.gtb Z.compare]. reflexivity. }
  replace (Z.of_nat (length pre) + 1)
    with (Z.of_nat (length (pre ++ [ch_lbrace]))) by (rewrite length_app; cbn; lia).
  apply (expand_scan pattern _ be (pre ++ [ch_lbrace]) a
           (ch_backslash :: ch_comma :: (tail ++ [c]) ++ ch_rbrace :: post));
    [rewrite Hp; app_eq|done|list_len; unfold be, n; lia|].
  rewrite length_app. cbn [length]. fold n.
  eapply expand_loop_round; cbn [x_i]; [unfold be; lia| |].
  - apply expand_body_escaped_comma; [exact Hbs|exact Hcm|unfold be; lia|unfold be; lia|].
    apply (emit_expansion_exact pattern pre [ch_lbrace] (a ++ [ch_backslash])
             (ch_comma :: tail ++ [c]) post);
      [rewrite Hp; app_eq|done|done|done|done|cbn; f_equal; lia| |].
    + list_len. unfold n. f_equal. lia.
    + list_len. unfold be, n. f_equal. lia.
  - replace (Z.of_nat n + 1 + 1)
      with (Z.of_nat (length pre + 1 + length (a ++ [ch_backslash; ch_comma])))
      by (list_len; unfold n; lia).
    replace (ps ++ [pre ++ (a ++ [ch_backslash]) ++ post;
                    pre ++ (tail ++ [c]) ++ post])
      with ((ps ++ [pre ++ (a ++ [ch_backslash]) ++ post])
            ++ [pre ++ (tail ++ [c]) ++ post]) by (rewrite <- app_assoc; done).
    apply (expand_tail pattern pre (a ++ [ch_backslash; ch_comma]) tail c post);
      [rewrite Hp; app_eq|done|done|done|done|done|done|].
    list_len. unfold be, n. f_equal. lia.
Qed.

(** Inside a bracket every byte but a backslash and the closing bracket
    leaves the variables of [find_brace] alone. *)
Lemma find_brace_scan_bracket pattern pre mid rest s lvl r :
  pattern = pre ++ mid ++ rest -> bracket_text mid ->
  Z.of_nat (length pattern) < CInt.INT_MAX ->
  (exists f, find_brace_loop f pattern
               (Fb (Z.of_nat (length pre + length mid)) s (-1) true lvl) = Some r) ->
  exists f, find_brace_loop f pattern
              (Fb (Z.of_nat (length pre)) s (-1) true lvl) = Some r.
Proof.
  intros Hp Hmid Hlen. revert pre Hp.
  induction Hmid as [|c mid Hc Hmid IH]; intros pre Hp Hr.
  { rewrite Nat.add_0_r in Hr. done. }
  destruct Hc as (H0 & H1 & H3).
  assert (Hat : at_ pattern (Z.of_nat (length pre)) = c)
    by (rewrite Hp; apply at_middle; done).
  assert (Hl : Z.of_nat (length pre) < Z.of_nat (length pattern)).
  { rewrite Hp. list_len. lia. }
  eapply find_brace_loop_round; cbn [fb_i fb_end]; [lia|lia|by rewrite Hat| |].
  - unfold find_brace_body. cbn [fb_i fb_in_bracket fb_start fb_end fb_level].
    rewrite Hat. apply byte_eqb_false in H1, H3. rewrite H1, H3.
    destruct (Byte.eqb c ch_lbracket); [reflexivity|].
    destruct (Byte.eqb c ch_lbrace); [reflexivity|].
    destruct (Byte.eqb c ch_rbrace); reflexivity.
  - replace (Z.of_nat (length pre) + 1) with (Z.of_nat (length (pre ++ [c])))
      by (list_len; lia).
    apply IH.
    + rewrite Hp. app_eq.
    + list_len.
      replace (length pre + 1 + length mid)%nat with (length pre + S (length mid))%nat
        by lia.
      exact Hr.
Qed.

(** The shapes of pattern that [find_brace] rejects at the first byte it
    singles out. *)
Lemma find_brace_unbalanced pattern pre rest :
  plain pre -> Z.of_nat (length pattern) < CInt.INT_MAX ->
  pattern = pre ++ ch_rbrace :: rest
  \/ (pattern = pre ++ ch_lbrace :: rest /\ plain rest)
  \/ (pattern = pre ++ ch_lbracket :: rest /\ bracket_text rest) ->
  exists s e, find_brace pattern = Some (-1, s, e).
Proof.
  intros Hpre Hlen Hshape.
  assert (Hscan : forall c r,
             pattern = pre ++ c :: rest ->
             (exists f, find_brace_loop f pattern
                          (Fb (Z.of_nat (length pre)) (-1) (-1) false 0) = Some r) ->
             find_brace pattern = Some r).
  { intros c r Hp Hr.
    destruct (find_brace_scan pattern [] pre (c :: rest) (-1) false 0 r)
      as (f & Hf); [done|done|done|exact Hr|].
    exact (find_brace_from_loop pattern f _ Hf). }
  assert (Hl : forall c, pattern = pre ++ c :: rest ->
                 Z.of_nat (length pattern) = Z.of_nat (length pre + 1 + length rest)).
  { intros c ->. list_len. lia. }
  destruct Hshape as [Hp|[(Hp & Hrest)|(Hp & Hrest)]].
  - exists (-1), (-1). apply (Hscan ch_rbrace); [done|].
    pose proof (Hl _ Hp) as Hl'.
    assert (Hat : at_ pattern (Z.of_nat (length pre)) = ch_rbrace)
      by (rewrite Hp; apply at_middle; done).
    exists 1%nat. cbn [find_brace_loop fb_i fb_end fb_start fb_in_bracket].
    rewrite Hat.
    assert (E : (Z.of_nat (length pre) <? CInt.INT_MAX) = true) by (apply Z.ltb_lt; lia).
    rewrite E. cbn [andb Z.ltb Z.compare negb].
    change (Byte.eqb ch_rbrace ch_nul) with false. cbn [negb].
    unfold find_brace_body. cbn [fb_i fb_in_bracket fb_start fb_end fb_level].
    rewrite Hat. reflexivity.
  - exists (Z.of_nat (length pre)), (-1). pose proof (Hl _ Hp) as Hl'.
    assert (Hat : at_ pattern (Z.of_nat (length pre)) = ch_lbrace)
      by (rewrite Hp; apply at_middle; done).
    apply (Hscan ch_lbrace); [done|].
    eapply find_brace_loop_round; cbn [fb_i fb_end]; [lia|lia|by rewrite Hat| |].
    { unfold find_brace_body. cbn [fb_i fb_in_bracket fb_start fb_end fb_level].
      rewrite Hat.
      assert (Hfirst : Byte.eqb (at_ pattern (Z.of_nat (length pre) + 1)) ch_rbrace
                       = false).
      { apply byte_eqb_false. destruct rest as [|c0 rest0].
        - rewrite at_past; [done|]. rewrite Hl'. cbn. lia.
        - apply Forall_cons in Hrest as (Hc0 & _).
          apply brace_special_false in Hc0 as (_ & _ & _ & _ & _ & Hc0).
          rewrite Hp, (cons_middle ch_lbrace), app_assoc.
          rewrite (at_middle (pre ++ [ch_lbrace]) c0); [done|]. list_len. lia. }
      rewrite Hfirst. reflexivity. }
    change (-1 =? -1) with true. cbv iota.
    replace (Z.of_nat (length pre) + 1)
      with (Z.of_nat (length (pre ++ [ch_lbrace]))) by (list_len; lia).
    apply (find_brace_scan pattern (pre ++ [ch_lbrace]) rest []);
      [rewrite Hp, app_nil_r; app_eq|done|done|].
    exists 1%nat. cbn [find_brace_loop fb_i fb_end fb_start fb_in_bracket].
    rewrite at_past by (rewrite Hl'; list_len; lia).
    change (Byte.eqb ch_nul ch_nul) with true. cbn [negb]. rewrite andb_false_r.
    cbn [andb Z.ltb Z.compare].
    destruct (Z.of_nat (length pre) >=? 0) eqn:E; [done|].
    rewrite Z.geb_leb in E. apply Z.leb_gt in E. lia.
  - exists (-1), (-1). pose proof (Hl _ Hp) as Hl'.
    assert (Hat : at_ pattern (Z.of_nat (length pre)) = ch_lbracket)
      by (rewrite Hp; apply at_middle; done).
    apply (Hscan ch_lbracket); [done|].
    eapply find_brace_loop_round; cbn [fb_i fb_end]; [lia|lia|by rewrite Hat| |].
    { unfold find_brace_body. cbn [fb_i fb_in_bracket fb_start fb_end fb_level].
      rewrite Hat. reflexivity. }
    replace (Z.of_nat (length pre) + 1)
      with (Z.of_nat (length (pre ++ [ch_lbracket]))) by (list_len; lia).
    apply (find_brace_scan_bracket pattern (pre ++ [ch_lbracket]) rest []);
      [rewrite Hp, app_nil_r; app_eq|done|done|].
    exists 1%nat. cbn [find_brace_loop fb_i fb_end fb_start fb_in_bracket].
    rewrite at_past by (rewrite Hl'; list_len; lia).
    change (Byte.eqb ch_nul ch_nul) with true. cbn [negb]. rewrite andb_false_r.
    done.
Qed.

(** X22.  Unbalanced patterns end the process.  When no allocation fails,
    [brace_expand] calls [fatal] with the pattern it was given if, after
    plain text, the pattern has a closing brace, or an opening brace
    followed by plain text only, or an opening bracket followed by text
    with no backslash and no closing bracket. *)
Theorem brace_expand_unbalanced (pattern pre rest : list u_char) (fuel : nat) :
  plain pre -> ch_nul ∉ rest -> Z.of_nat (length pattern) < CInt.INT_MAX ->
  (forall j, alloc_fails j = false) -> (1 <= fuel)%nat ->
  pattern = pre ++ ch_rbrace :: rest
  \/ (pattern = pre ++ ch_lbrace :: rest /\ plain rest)
  \/ (pattern = pre ++ ch_lbracket :: rest /\ bracket_text rest) ->
  brace_expand alloc_fails fuel pattern = Some (ExpFatalInvalid pattern).
Proof.
  intros Hpre Hrest Hlen Hnf Hfuel Hshape.
  destruct (find_brace_unbalanced pattern pre rest Hpre Hlen Hshape) as (s & e & Hf).
  assert (Hnul : ch_nul ∉ pattern).
  { assert (Hc : exists c, c <> ch_nul /\ pattern = pre ++ c :: rest).
    { destruct Hshape as [Hp|[(Hp & _)|(Hp & _)]]; eexists; (split; [|exact Hp]); done. }
    destruct Hc as (c & Hc & ->). intros Hin.
    apply elem_of_app in Hin as [Hin|Hin]; [by apply (plain_no_nul pre)|].
    apply elem_of_cons in Hin as [Hin|Hin]; [by subst|done]. }
  unfold brace_expand, append. rewrite !Hnf. cbn [fst snd Z.eqb negb app].
  rewrite (strdup_id pattern Hnul).
  destruct fuel as [|fuel]; [lia|]. cbn [brace_expand_loop last removelast].
  unfold brace_expand_one. rewrite Hf. done.
Qed.

(** X23.  An empty brace pair is left alone.  For a pattern [pre{}post]
    with plain text around the pair, [brace_expand] does not expand: when
    no allocation fails it returns 0 with one pattern, the file-name
    component of the pattern given, braces included. *)
Theorem brace_expand_empty_pair (pattern pre post : list u_char) (fuel : nat) :
  pattern = pre ++ ch_lbrace :: ch_rbrace :: post ->
  plain pre -> plain post -> Z.of_nat (length pattern) < CInt.INT_MAX ->
  (forall j, alloc_fails j = false) -> (2 <= fuel)%nat ->
  brace_expand alloc_fails fuel pattern
  = Some (ExpRet 0 [last_component pattern]).
Proof.
  intros Hp Hpre Hpost Hlen Hnf Hfuel.
  assert (Hl : Z.of_nat (length pattern) = Z.of_nat (length pre + 2 + length post)).
  { rewrite Hp. list_len. lia. }
  assert (Hfind : find_brace pattern = Some (0, -1, -1)).
  { destruct (find_brace_scan pattern [] pre (ch_lbrace :: ch_rbrace :: post)
                (-1) false 0 (0, -1, -1))
      as (f & Hf); [done|done|done| |exact (find_brace_from_loop pattern f _ Hf)].
    cbn [length Nat.add].
    assert (Hat : at_ pattern (Z.of_nat (length pre)) = ch_lbrace)
      by (rewrite Hp; apply at_middle; done).
    assert (Hat1 : at_ pattern (Z.of_nat (length pre) + 1) = ch_rbrace).
    { rewrite Hp, (cons_middle ch_lbrace), app_assoc. apply at_middle. list_len. lia. }
    eapply find_brace_loop_round; cbn [fb_i fb_end]; [lia|lia|by rewrite Hat| |].
    { unfold find_brace_body. cbn [fb_i fb_in_bracket fb_start fb_end fb_level].
      rewrite Hat, Hat1. reflexivity. }
    replace (Z.of_nat (length pre) + 1 + 1)
      with (Z.of_nat (length (pre ++ [ch_lbrace; ch_rbrace]))) by (list_len; lia).
    apply (find_brace_scan pattern (pre ++ [ch_lbrace; ch_rbrace]) post []);
      [rewrite Hp, app_nil_r; app_eq|done|done|].
    exists 1%nat. cbn [find_brace_loop fb_i fb_end fb_start fb_in_bracket].
    rewrite at_past by (rewrite Hl; list_len; lia).
    change (Byte.eqb ch_nul ch_nul) with true. cbn [negb]. rewrite andb_false_r.
    done. }
  assert (Hnul : ch_nul ∉ pattern).
  { rewrite Hp. intros Hin.
    apply elem_of_app in Hin as [Hin|Hin]; [by apply (plain_no_nul pre)|].
    apply elem_of_cons in Hin as [Hin|Hin]; [done|].
    apply elem_of_cons in Hin as [Hin|Hin]; [done|].
    by apply (plain_no_nul post). }
  unfold brace_expand, append. rewrite !Hnf. cbn [fst snd Z.eqb negb app].
  rewrite (strdup_id pattern Hnul).
  destruct fuel as [|[|fuel]]; [lia|lia|].
  assert (Hone : brace_expand_one alloc_fails pattern [] 2
                 = Some (ExOne 0 [] 2 false false))
    by (unfold brace_expand_one; rewrite Hfind; reflexivity).
  cbn [brace_expand_loop last removelast]. rewrite Hone.
  cbn [Z.eqb negb o_ret o_invalid o_expanded o_k o_patterns].
  rewrite Hnf. unfold append. rewrite Hnf. cbn. done.
Qed.

End BraceProps.


(** ** The file-name component *)

Lemma strrchr_from_absent (s : list u_char) (c : u_char) (i : Z) (found : option Z) :
  c ∉ s -> strrchr_from s c i found = found.
Proof.
  revert i found. induction s as [|x s IH]; intros i found Hc; [done|].
  apply not_elem_of_cons in Hc as (Hx & Hc). cbn.
  destruct (Byte.eqb x ch_nul); [done|].
  apply not_eq_sym in Hx.
  apply byte_eqb_false in Hx. rewrite Hx. by apply IH.
Qed.

Lemma strrchr_from_last (dir name : list u_char) (c : u_char) (i : Z)
    (found : option Z) :
  ch_nul ∉ dir -> c <> ch_nul -> c ∉ name ->
  strrchr_from (dir ++ c :: name) c i found = Some (i + Z.of_nat (length dir)).
Proof.
  intros Hdir Hc Hname. revert i found Hdir.
  induction dir as [|x dir IH]; intros i found Hdir.
  - cbn. apply byte_eqb_false in Hc. rewrite Hc.
    change (Byte.eqb c c) with (Byte.eqb c c).
    rewrite (proj2 (byte_eqb_true c c) eq_refl).
    rewrite strrchr_from_absent by done. f_equal. lia.
  - apply not_elem_of_cons in Hdir as (Hx & Hdir). cbn [app strrchr_from].
    apply not_eq_sym in Hx.
    apply byte_eqb_false in Hx. rewrite Hx, IH by done.
    f_equal. cbn [length]. lia.
Qed.

(** X24.  The pattern that [brace_expand] records for an entry that does
    not expand is its last path component: the entry itself when it has
    no slash, and what follows its last slash otherwise. *)
Theorem last_component_spec (name : list u_char) :
  ch_nul ∉ name -> ch_slash ∉ name ->
  last_component name = name
  /\ forall dir, ch_nul ∉ dir -> last_component (dir ++ ch_slash :: name) = name.
Proof.
  intros Hnul Hslash. split.
  - unfold last_component, strrchr. rewrite strrchr_from_absent by done.
    by apply strdup_id.
  - intros dir Hdir. unfold last_component, strrchr.
    rewrite (strrchr_from_last dir name ch_slash 0 None) by done.
    replace (Z.to_nat (0 + Z.of_nat (length dir) + 1)) with (length (dir ++ [ch_slash]))
      by (rewrite length_app; cbn; lia).
    replace (dir ++ ch_slash :: name) with ((dir ++ [ch_slash]) ++ name) by app_eq.
    rewrite drop_app_length. by apply strdup_id.
Qed.

(** * The user-name check (scp.c) *)

Section OknameProps.

Variable isalpha isdigit : Z -> bool.
Variable char_signed : bool.

(** The library functions do not classify the refused characters as
    letters or digits. *)
Hypothesis refused_not_alnum :
  forall c, c ∈ okname_refused -> isalpha c = false /\ isdigit c = false.

Lemma char_int_top_bit (ch : u_char) :
  (Z.land (char_int char_signed ch) 128 =? 0) = (Z_of_uchar ch <? 128).
Proof. destruct char_signed, ch; reflexivity. Qed.

Lemma char_int_low (ch : u_char) :
  Z_of_uchar ch < 128 -> char_int char_signed ch = Z_of_uchar ch.
Proof.
  destruct char_signed; [|done].
  destruct ch; first [reflexivity | intros H; vm_compute in H; discriminate H].
Qed.

Lemma okname_bad_spec (ch : u_char) :
  okname_bad isalpha isdigit (char_int char_signed ch) = false
  <-> Z_of_uchar ch < 128 /\ Z_of_uchar ch ∉ okname_refused.
Proof.
  unfold okname_bad. rewrite char_int_top_bit.
  destruct (Z_of_uchar ch <? 128) eqn:E.
  - apply Z.ltb_lt in E. rewrite (char_int_low ch E). cbn [negb orb].
    destruct (bool_decide (Z_of_uchar ch ∈ okname_refused)) eqn:Er.
    + apply bool_decide_eq_true in Er.
      destruct (refused_not_alnum _ Er) as (Ha & Hd). rewrite Ha.
      assert (Hu : CInt.uint8 (Z_of_uchar ch) = Z_of_uchar ch).
      { unfold CInt.uint8, CInt.wrapu. apply Z.mod_small.
        pose proof (Z_of_uchar_range ch). change (2 ^ 8) with 256. lia. }
      rewrite Hu, Hd. cbn. split; [done|]. intros (_ & Hn). done.
    + apply bool_decide_eq_false in Er. rewrite andb_false_r. tauto.
  - apply Z.ltb_ge in E. cbn. split; [done|]. lia.
Qed.

Lemma okname_loop_spec (s : list u_char) :
  s <> [] -> ch_nul ∉ s ->
  forall pre rest fuel,
    (length s <= fuel)%nat ->
    exists r,
      okname_loop isalpha isdigit char_signed fuel (pre ++ s ++ ch_nul :: rest)
                  (length pre) = Some r
      /\ (r = 1 \/ r = 0)
      /\ (r = 1 <-> Forall (fun c => Z_of_uchar c < 128
                                    /\ Z_of_uchar c ∉ okname_refused) s).
Proof.
  induction s as [|c s IH]; [done|]. intros _ Hnul pre rest fuel Hfuel.
  apply not_elem_of_cons in Hnul as (Hc & Hnul).
  destruct fuel as [|fuel]; [cbn in Hfuel; lia|]. cbn [okname_loop].
  assert (Hat : (pre ++ (c :: s) ++ ch_nul :: rest) !! length pre = Some c).
  { rewrite lookup_app_r by lia. rewrite Nat.sub_diag. done. }
  rewrite Hat.
  destruct (okname_bad isalpha isdigit (char_int char_signed c)) eqn:Eb.
  { exists 0. split; [done|]. split; [by right|]. split; [done|].
    intros Hall. apply Forall_cons in Hall as (Hok & _).
    apply okname_bad_spec in Hok. congruence. }
  apply okname_bad_spec in Eb.
  destruct s as [|c' s'].
  - assert (Hn : (pre ++ [c] ++ ch_nul :: rest) !! S (length pre) = Some ch_nul).
    { rewrite lookup_app_r by lia.
      replace (S (length pre) - length pre)%nat with 1%nat by lia. done. }
    rewrite Hn. change (Byte.eqb ch_nul ch_nul) with true. cbv iota.
    exists 1. split; [done|]. split; [by left|]. split; [|done].
    intros _. by apply Forall_singleton.
  - assert (Hn : (pre ++ (c :: c' :: s') ++ ch_nul :: rest) !! S (length pre)
                 = Some c').
    { rewrite lookup_app_r by lia.
      replace (S (length pre) - length pre)%nat with 1%nat by lia. done. }
    rewrite Hn.
    assert (Hc' : Byte.eqb c' ch_nul = false).
    { apply byte_eqb_false. intros ->. apply Hnul. apply elem_of_cons. by left. }
    rewrite Hc'.
    destruct (IH ltac:(done) Hnul (pre ++ [c]) rest fuel) as (r & Hr & Hv & Hiff).
    { cbn in Hfuel |- *. lia. }
    rewrite length_app in Hr. cbn [length] in Hr.
    replace (length pre + 1)%nat with (S (length pre)) in Hr by lia.
    rewrite <- app_assoc in Hr. cbn [app] in Hr.
    exists r. split; [exact Hr|]. split; [exact Hv|].
    rewrite Hiff. split.
    + intros Hall. by constructor.
    + intros Hall. by apply Forall_cons in Hall as (_ & Hall).
Qed.

(** X25.  [okname] on a name that is not empty: it returns 1 exactly when
    every byte of the name has its top bit clear and is none of quote,
    double quote, backquote, space and hash, and 0 otherwise, printing the
    name.  The answer does not depend on the signedness of [char], nor on
    [isalpha] and [isdigit] as long as they do not hold of those five
    characters, nor on what follows the terminator. *)
Theorem okname_spec (name rest : list u_char) :
  name <> [] -> ch_nul ∉ name ->
  exists r,
    okname isalpha isdigit char_signed (name ++ ch_nul :: rest)
    = Some (r, if r =? 0 then Some name else None)
    /\ (r = 1 \/ r = 0)
    /\ (r = 1 <-> Forall (fun c => Z_of_uchar c < 128
                                  /\ Z_of_uchar c ∉ okname_refused) name).
Proof.
  intros Hne Hnul.
  destruct (okname_loop_spec name Hne Hnul [] rest (length (name ++ ch_nul :: rest)))
    as (r & Hr & Hv & Hiff).
  { rewrite length_app. lia. }
  exists r. unfold okname. cbn [app length] in Hr. rewrite Hr.
  split; [|done]. do 2 f_equal.
  destruct (r =? 0); [|done]. f_equal.
  clear -Hnul. induction name as [|c name IH]; [done|].
  apply not_elem_of_cons in Hnul as (Hc & Hnul). cbn.
  apply not_eq_sym in Hc.
  apply byte_eqb_false in Hc. rewrite Hc. f_equal. by apply IH.
Qed.

(** X26.  [okname] on the empty name reads past its terminator.  When
    nothing can be read there the read is outside the object.  When a
    string follows in memory, that string is checked in place of the
    name: the result is 1 or 0 as for that string, and the message shows
    the empty name. *)
Theorem okname_empty (follow rest : list u_char) :
  follow <> [] -> ch_nul ∉ follow ->
  isalpha 0 = false -> isdigit 0 = false ->
  okname isalpha isdigit char_signed [ch_nul] = None
  /\ exists r,
      okname isalpha isdigit char_signed (ch_nul :: follow ++ ch_nul :: rest)
      = Some (r, if r =? 0 then Some [] else None)
      /\ (r = 1 \/ r = 0)
      /\ (r = 1 <-> Forall (fun c => Z_of_uchar c < 128
                                    /\ Z_of_uchar c ∉ okname_refused) follow).
Proof.
  intros Hne Hnul Ha0 Hd0.
  assert (Hb0 : okname_bad isalpha isdigit (char_int char_signed ch_nul) = false).
  { apply okname_bad_spec. split; [done|]. vm_compute. intros H.
    repeat (apply elem_of_cons in H as [H|H]; [discriminate H|]).
    by apply elem_of_nil in H. }
  split.
  { unfold okname. cbn. rewrite Hb0. done. }
  destruct (okname_loop_spec follow Hne Hnul [ch_nul] rest
              (length (follow ++ ch_nul :: rest))) as (r & Hr & Hv & Hiff).
  { rewrite length_app. lia. }
  exists r. split; [|done].
  unfold okname. cbn [length okname_loop]. cbn [lookup list_lookup].
  rewrite Hb0.
  destruct follow as [|c follow']; [done|]. cbn [app lookup list_lookup].
  apply not_elem_of_cons in Hnul as (Hc & Hnul').
  apply not_eq_sym in Hc.
  apply byte_eqb_false in Hc. rewrite Hc.
  cbn [app length] in Hr.
  change (length (c :: follow' ++ ch_nul :: rest))
    with (S (length (follow' ++ ch_nul :: rest))).
  rewrite Hr. cbn [strdup].
  change (Byte.eqb ch_nul ch_nul) with true. done.
Qed.

End OknameProps.

(** * More on the multi-threaded cipher (cipher-ctr-mt.c) *)



Lemma ssh_ctr_inc_iter_bytes (ctr : list u_char) (len : Z) (k : nat) :
  Z.of_nat (length ctr) = len -> 1 <= len <= CInt.INT_MAX + 1 ->
  Nat.iter k (fun c => ssh_ctr_inc c len) ctr
  = be_bytes (length ctr) (be_value ctr + Z.of_nat k).
Proof.
  intros Hlen Hr. induction k as [|k IH].
  { cbn. rewrite Z.add_0_r. symmetry. apply be_bytes_value. }
  rewrite Nat.iter_succ, IH.
  rewrite ssh_ctr_inc_bytes by (rewrite ?be_bytes_length; done).
  rewrite be_bytes_length, be_value_bytes.
  rewrite <- (be_bytes_mod _ (_ + 1)).
  rewrite Z.add_mod_idemp_l by (apply Z.pow_nonzero; lia).
  rewrite be_bytes_mod. f_equal. lia.
Qed.

(** X28.  Single increments and the bulk add agree: on a counter of [len]
    bytes, [n] calls of [ssh_ctr_inc] give the counter that one call of
    [ssh_ctr_add] with [n] gives, for every [n] that fits the [uint32_t]
    argument; and two bulk adds in a row are one add of the sum when the
    sum fits as well. *)
Theorem ssh_ctr_inc_iter (ctr : list u_char) (len n m : Z) :
  Z.of_nat (length ctr) = len -> 1 <= len <= CInt.INT_MAX + 1 ->
  0 <= n -> 0 <= m -> n + m < 2 ^ 32 ->
  Nat.iter (Z.to_nat n) (fun c => ssh_ctr_inc c len) ctr = ssh_ctr_add ctr n len
  /\ ssh_ctr_add (ssh_ctr_add ctr n len) m len = ssh_ctr_add ctr (n + m) len.
Proof.
  intros Hlen Hr Hn Hm Hnm. split.
  - rewrite ssh_ctr_inc_iter_bytes, ssh_ctr_add_bytes by (done || lia).
    f_equal. lia.
  - rewrite (ssh_ctr_add_bytes ctr n len) by (done || lia).
    rewrite (ssh_ctr_add_bytes ctr (n + m) len) by (done || lia).
    rewrite ssh_ctr_add_bytes by (rewrite ?be_bytes_length; (done || lia)).
    rewrite be_bytes_length, be_value_bytes.
    rewrite <- (be_bytes_mod _ (_ mod _ + m)).
    rewrite Z.add_mod_idemp_l by (apply Z.pow_nonzero; lia).
    rewrite be_bytes_mod. f_equal. lia.
Qed.

Lemma ssh_ctr_inc_iter_witness :
  (Z.of_nat (length [xff; xfe]) = 2 /\ 1 <= 2 <= CInt.INT_MAX + 1
   /\ 0 <= 3 /\ 0 <= 515 /\ 3 + 515 < 2 ^ 32)
  /\ Nat.iter (Z.to_nat 3) (fun c => ssh_ctr_inc c 2) [xff; xfe]
     = ssh_ctr_add [xff; xfe] 3 2
  /\ ssh_ctr_add (ssh_ctr_add [xff; xfe] 3 2) 515 2
     = ssh_ctr_add [xff; xfe] (3 + 515) 2.
Proof.
  assert (H1 : Z.of_nat (length [xff; xfe]) = 2) by reflexivity.
  assert (H2 : 1 <= 2 <= CInt.INT_MAX + 1) by (vm_compute; intuition discriminate).
  split; [split; [exact H1|]; split; [exact H2|]; lia|].
  apply (ssh_ctr_inc_iter [xff; xfe] 2 3 515 H1 H2); lia.
Defined.


Section ProducerProps.

Variable AES_encrypt : list u_char -> list u_char -> list u_char.



End ProducerProps.

(** * Worked examples for scp.c and the producer *)

Ltac plain_tac := repeat first [constructor | reflexivity | split | discriminate].

Ltac not_in_tac :=
  let H := fresh "H" in
  intros H;
  repeat (apply elem_of_cons in H as [H|H]; [discriminate H|]);
  by apply elem_of_nil in H.

Lemma no_alloc_failure : forall j : nat, (fun _ : nat => false) j = false.
Proof. done. Qed.

Lemma find_brace_spec_witness :
  Z.of_nat (length pat_flat) < CInt.INT_MAX
  /\ exists r s e,
      find_brace pat_flat = Some (r, s, e)
      /\ (r = 0 \/ r = -1)
      /\ (r = 0 ->
          (s = -1 /\ e = -1)
          \/ (0 <= s /\ s + 1 < e /\ e < Z.of_nat (length pat_flat)
              /\ at_ pat_flat s = ch_lbrace /\ at_ pat_flat e = ch_rbrace)).
Proof.
  split; [reflexivity|]. apply (find_brace_spec pat_flat). reflexivity.
Defined.

Lemma brace_expand_returns_witness :
  (Z.of_nat (length pat_flat) < CInt.INT_MAX
   /\ (expand_rounds (length pat_flat) < S (expand_rounds (length pat_flat)))%nat)
  /\ exists res,
      brace_expand (fun _ => false) (S (expand_rounds (length pat_flat))) pat_flat
      = Some res.
Proof.
  split; [split; [reflexivity|lia]|].
  apply (brace_expand_returns (fun _ => false) pat_flat); [reflexivity|lia].
Defined.

Lemma brace_expand_one_spec_witness :
  Z.of_nat (length pat_flat) < CInt.INT_MAX
  /\ exists o new,
      brace_expand_one (fun _ => false) pat_flat [] 0 = Some o
      /\ (o_ret o = 0 \/ o_ret o = -1)
      /\ o_patterns o = [] ++ new
      /\ Forall (fun p => (length p + 2 <= length pat_flat)%nat) new
      /\ (length new <= length pat_flat)%nat
      /\ (o_ret o = -1 -> o_expanded o = false /\ o_invalid o = false)
      /\ (o_expanded o = true -> o_invalid o = false /\ new <> [])
      /\ (o_ret o = 0 -> o_expanded o = false -> o_invalid o = false -> new = [])
      /\ ((forall j, (fun _ : nat => false) j = false) -> o_ret o = 0).
Proof.
  split; [reflexivity|].
  apply (brace_expand_one_spec (fun _ => false) pat_flat [] 0). reflexivity.
Defined.

Lemma brace_expand_one_flat_witness :
  (pat_flat = [x61] ++ ch_lbrace :: with_commas [[x62]] ++ [x63] ++ ch_rbrace :: [x64]
   /\ plain [x61] /\ Forall plain_alt [[x62]] /\ plain_alt [x63] /\ [x63] <> []
   /\ (ch_nul ∉ [x64]) /\ (forall j, (fun _ : nat => false) j = false)
   /\ Z.of_nat (length pat_flat) < CInt.INT_MAX)
  /\ exists k',
      brace_expand_one (fun _ => false) pat_flat [] 0
      = Some (ExOne 0 ([] ++ map (fun a => [x61] ++ a ++ [x64]) ([[x62]] ++ [[x63]]))
                    k' true false).
Proof.
  assert (H1 : plain [x61]) by plain_tac.
  assert (H2 : Forall plain_alt [[x62]]) by plain_tac.
  assert (H3 : plain_alt [x63]) by plain_tac.
  assert (H4 : ch_nul ∉ [x64]) by not_in_tac.
  split; [split; [reflexivity|]; split; [exact H1|]; split; [exact H2|];
          split; [exact H3|]; split; [discriminate|]; split; [exact H4|];
          split; [exact no_alloc_failure|reflexivity]|].
  apply (brace_expand_one_flat (fun _ => false) pat_flat [x61] [[x62]] [x63] [x64] [] 0);
    [reflexivity|exact H1|exact H2|exact H3|discriminate|exact H4
    |exact no_alloc_failure|reflexivity].
Defined.

Lemma brace_expand_one_trailing_comma_witness :
  (pat_trailing
   = [x61] ++ ch_lbrace :: with_commas ([[x62]] ++ [[x63]]) ++ ch_rbrace :: [x64]
   /\ plain [x61] /\ Forall plain_alt [[x62]] /\ plain_alt [x63]
   /\ (ch_nul ∉ [x64]) /\ (forall j, (fun _ : nat => false) j = false)
   /\ Z.of_nat (length pat_trailing) < CInt.INT_MAX)
  /\ exists k',
      brace_expand_one (fun _ => false) pat_trailing [] 0
      = Some (ExOne 0 ([] ++ map (fun a => [x61] ++ a ++ [x64]) [[x62]]
                          ++ [[x61] ++ ([x63] ++ [ch_comma]) ++ [x64]])
                    k' true false).
Proof.
  assert (H1 : plain [x61]) by plain_tac.
  assert (H2 : Forall plain_alt [[x62]]) by plain_tac.
  assert (H3 : plain_alt [x63]) by plain_tac.
  assert (H4 : ch_nul ∉ [x64]) by not_in_tac.
  split; [split; [reflexivity|]; split; [exact H1|]; split; [exact H2|];
          split; [exact H3|]; split; [exact H4|];
          split; [exact no_alloc_failure|reflexivity]|].
  apply (brace_expand_one_trailing_comma (fun _ => false) pat_trailing [x61] [[x62]]
           [x63] [x64] [] 0);
    [reflexivity|exact H1|exact H2|exact H3|exact H4|exact no_alloc_failure
    |reflexivity].
Defined.

Lemma brace_expand_plain_witness :
  (plain pat_plain /\ Z.of_nat (length pat_plain) < CInt.INT_MAX
   /\ (forall j, (fun _ : nat => false) j = false) /\ (2 <= 2)%nat)
  /\ brace_expand (fun _ => false) 2 pat_plain
     = Some (ExpRet 0 [last_component pat_plain]).
Proof.
  assert (H1 : plain pat_plain) by plain_tac.
  split; [split; [exact H1|]; split; [reflexivity|];
          split; [exact no_alloc_failure|lia]|].
  apply (brace_expand_plain (fun _ => false) pat_plain 2);
    [exact H1|reflexivity|exact no_alloc_failure|lia].
Defined.

Lemma brace_expand_flat_witness :
  (pat_path = [x64; x2f] ++ ch_lbrace :: with_commas [[x62]] ++ [x63]
                ++ ch_rbrace :: [x2e; x68]
   /\ plain [x64; x2f] /\ Forall plain_alt [[x62]] /\ plain_alt [x63]
   /\ [x63] <> [] /\ plain [x2e; x68]
   /\ (forall j, (fun _ : nat => false) j = false)
   /\ Z.of_nat (length pat_path) < CInt.INT_MAX
   /\ (length [[x62]] + 3 <= 4)%nat)
  /\ brace_expand (fun _ => false) 4 pat_path
     = Some (ExpRet 0 (map (fun a => last_component ([x64; x2f] ++ a ++ [x2e; x68]))
                           (rev ([[x62]] ++ [[x63]])))).
Proof.
  assert (H1 : plain [x64; x2f]) by plain_tac.
  assert (H2 : Forall plain_alt [[x62]]) by plain_tac.
  assert (H3 : plain_alt [x63]) by plain_tac.
  assert (H4 : plain [x2e; x68]) by plain_tac.
  split; [split; [reflexivity|]; split; [exact H1|]; split; [exact H2|];
          split; [exact H3|]; split; [discriminate|]; split; [exact H4|];
          split; [exact no_alloc_failure|]; split; [reflexivity|cbn; lia]|].
  apply (brace_expand_flat (fun _ => false) pat_path [x64; x2f] [[x62]] [x63]
           [x2e; x68] 4);
    [reflexivity|exact H1|exact H2|exact H3|discriminate|exact H4
    |exact no_alloc_failure|reflexivity|cbn; lia].
Defined.

Lemma brace_expand_one_escaped_comma_witness :
  (pat_escaped = [x61] ++ ch_lbrace :: [x62] ++ ch_backslash :: ch_comma :: [x63]
                   ++ ch_rbrace :: [x64]
   /\ plain [x61] /\ plain_alt [x62] /\ plain_alt [x63] /\ [x63] <> []
   /\ (ch_nul ∉ [x64]) /\ (forall j, (fun _ : nat => false) j = false)
   /\ Z.of_nat (length pat_escaped) < CInt.INT_MAX)
  /\ exists k',
      brace_expand_one (fun _ => false) pat_escaped [] 0
      = Some (ExOne 0 ([] ++ [[x61] ++ ([x62] ++ [ch_backslash]) ++ [x64];
                              [x61] ++ [x63] ++ [x64]])
                    k' true false).
Proof.
  assert (H1 : plain [x61]) by plain_tac.
  assert (H2 : plain_alt [x62]) by plain_tac.
  assert (H3 : plain_alt [x63]) by plain_tac.
  assert (H4 : ch_nul ∉ [x64]) by not_in_tac.
  split; [split; [reflexivity|]; split; [exact H1|]; split; [exact H2|];
          split; [exact H3|]; split; [discriminate|]; split; [exact H4|];
          split; [exact no_alloc_failure|reflexivity]|].
  apply (brace_expand_one_escaped_comma (fun _ => false) pat_escaped [x61] [x62] [x63]
           [x64] [] 0);
    [reflexivity|exact H1|exact H2|exact H3|discriminate|exact H4
    |exact no_alloc_failure|reflexivity].
Defined.

Lemma brace_expand_unbalanced_witness :
  (plain [x61] /\ (ch_nul ∉ [x62]) /\ Z.of_nat (length pat_open) < CInt.INT_MAX
   /\ (forall j, (fun _ : nat => false) j = false) /\ (1 <= 1)%nat
   /\ (pat_open = [x61] ++ ch_rbrace :: [x62]
       \/ (pat_open = [x61] ++ ch_lbrace :: [x62] /\ plain [x62])
       \/ (pat_open = [x61] ++ ch_lbracket :: [x62] /\ bracket_text [x62])))
  /\ brace_expand (fun _ => false) 1 pat_open = Some (ExpFatalInvalid pat_open).
Proof.
  assert (H1 : plain [x61]) by plain_tac.
  assert (H2 : ch_nul ∉ [x62]) by not_in_tac.
  assert (H3 : pat_open = [x61] ++ ch_rbrace :: [x62]
               \/ (pat_open = [x61] ++ ch_lbrace :: [x62] /\ plain [x62])
               \/ (pat_open = [x61] ++ ch_lbracket :: [x62] /\ bracket_text [x62])).
  { right. left. split; [reflexivity|plain_tac]. }
  split; [split; [exact H1|]; split; [exact H2|]; split; [reflexivity|];
          split; [exact no_alloc_failure|]; split; [lia|exact H3]|].
  apply (brace_expand_unbalanced (fun _ => false) pat_open [x61] [x62] 1);
    [exact H1|exact H2|reflexivity|exact no_alloc_failure|lia|exact H3].
Defined.

Lemma brace_expand_empty_pair_witness :
  (pat_empty_pair = [x61] ++ ch_lbrace :: ch_rbrace :: [x62]
   /\ plain [x61] /\ plain [x62]
   /\ Z.of_nat (length pat_empty_pair) < CInt.INT_MAX
   /\ (forall j, (fun _ : nat => false) j = false) /\ (2 <= 2)%nat)
  /\ brace_expand (fun _ => false) 2 pat_empty_pair
     = Some (ExpRet 0 [last_component pat_empty_pair]).
Proof.
  assert (H1 : plain [x61]) by plain_tac.
  assert (H2 : plain [x62]) by plain_tac.
  split; [split; [reflexivity|]; split; [exact H1|]; split; [exact H2|];
          split; [reflexivity|]; split; [exact no_alloc_failure|lia]|].
  apply (brace_expand_empty_pair (fun _ => false) pat_empty_pair [x61] [x62] 2);
    [reflexivity|exact H1|exact H2|reflexivity|exact no_alloc_failure|lia].
Defined.

Lemma c_locale_refused :
  forall c, c ∈ okname_refused -> c_isalpha c = false /\ c_isdigit c = false.
Proof.
  intros c H.
  repeat (apply elem_of_cons in H as [->|H]; [split; reflexivity|]).
  by apply elem_of_nil in H.
Qed.

Lemma okname_spec_witness :
  ((forall c, c ∈ okname_refused -> c_isalpha c = false /\ c_isdigit c = false)
   /\ [x61; x62] <> [] /\ ch_nul ∉ [x61; x62])
  /\ exists r,
      okname c_isalpha c_isdigit true ([x61; x62] ++ ch_nul :: [])
      = Some (r, if r =? 0 then Some [x61; x62] else None)
      /\ (r = 1 \/ r = 0)
      /\ (r = 1 <-> Forall (fun c => Z_of_uchar c < 128
                                    /\ Z_of_uchar c ∉ okname_refused) [x61; x62]).
Proof.
  assert (H2 : ch_nul ∉ [x61; x62]) by not_in_tac.
  split; [split; [exact c_locale_refused|]; split; [discriminate|exact H2]|].
  apply (okname_spec c_isalpha c_isdigit true c_locale_refused [x61; x62] []);
    [discriminate|exact H2].
Defined.

Lemma okname_empty_witness :
  ((forall c, c ∈ okname_refused -> c_isalpha c = false /\ c_isdigit c = false)
   /\ [x61; x20] <> [] /\ (ch_nul ∉ [x61; x20])
   /\ c_isalpha 0 = false /\ c_isdigit 0 = false)
  /\ okname c_isalpha c_isdigit true [ch_nul] = None
  /\ exists r,
      okname c_isalpha c_isdigit true (ch_nul :: [x61; x20] ++ ch_nul :: [])
      = Some (r, if r =? 0 then Some [] else None)
      /\ (r = 1 \/ r = 0)
      /\ (r = 1 <-> Forall (fun c => Z_of_uchar c < 128
                                    /\ Z_of_uchar c ∉ okname_refused) [x61; x20]).
Proof.
  assert (H2 : ch_nul ∉ [x61; x20]) by not_in_tac.
  split; [split; [exact c_locale_refused|]; split; [discriminate|];
          split; [exact H2|]; split; reflexivity|].
  apply (okname_empty c_isalpha c_isdigit true c_locale_refused [x61; x20] []);
    [discriminate|exact H2|reflexivity|reflexivity].
Defined.

Lemma last_component_spec_witness :
  ((ch_nul ∉ [x61; x62]) /\ (ch_slash ∉ [x61; x62]))
  /\ last_component [x61; x62] = [x61; x62]
  /\ forall dir, ch_nul ∉ dir -> last_component (dir ++ ch_slash :: [x61; x62]) = [x61; x62].
Proof.
  assert (H1 : ch_nul ∉ [x61; x62]) by not_in_tac.
  assert (H2 : ch_slash ∉ [x61; x62]) by not_in_tac.
  split; [split; [exact H1|exact H2]|].
  apply (last_component_spec [x61; x62] H1 H2).
Defined.

